(** * BlockTracker: the address helpers, the Web3 service layer and the
    prompt formatter, embedded and verified.

    The development follows the JavaScript sources:
    - [docs/utils/helpers.js]: [isValidAddress], [shortenAddress],
      [escapeHTML], [generateAIPrompt];
    - [src/js/web3-service.js]: the [Web3Service] class;
    - the application script: [analyzeWallet], [analyzeContract],
      [analyzeNFT].

    JavaScript values are dynamically typed, so the embedding has one universe
    of values ([JsVal]); a string is its sequence of code units (the 8-bit ones
    are carried), a Number is a binary64 value held as the exact multiple of
    2^-1074 that it is, a BigInt is an integer.  Code that awaits the provider or the
    indexer runs in a state-and-exception monad over a [World]: the service
    object, the clock, the upstream services and the history of everything the
    code asked of them. *)

From Stdlib Require Import String Ascii List ZArith Lia Bool Arith.
From Stdlib Require Import DecimalString DecimalFacts DecimalPos Sorted.
Import ListNotations.

Local Open Scope string_scope.
Local Open Scope Z_scope.

(* ================================================================== *)
(** * Strings *)

Module Str.

(** The double quote, which the escape map and the character class name. *)
Definition dquote : ascii := ascii_of_nat 34.

Definition len (s : string) : Z := Z.of_nat (String.length s).

(** [s.startsWith]-style prefix test, used to recognise literals. *)
Definition starts_with (p s : string) : bool := String.prefix p s.

(** Relative index of [String.prototype.slice]: negative counts from the
    end, and the result is clamped to the string. *)
Definition rel_index (n i : Z) : Z :=
  if i <? 0 then Z.max (n + i) 0 else Z.min i n.

(** [s.slice(start, end)]. *)
Definition slice (s : string) (start stop : Z) : string :=
  let n := len s in
  let from := rel_index n start in
  let to := rel_index n stop in
  String.substring (Z.to_nat from) (Z.to_nat (to - from)) s.

(** [s.slice(start)]: the end defaults to the length. *)
Definition slice_from (s : string) (start : Z) : string :=
  slice s start (len s).

Definition is_upper_target (c : ascii) : bool :=
  let n := nat_of_ascii c in (97 <=? n)%nat && (n <=? 122)%nat.

(** [s.toUpperCase()] on the ASCII letters; the analysis modes are ASCII. *)
Fixpoint toUpperCase (s : string) : string :=
  match s with
  | EmptyString => EmptyString
  | String c r =>
      String (if is_upper_target c then ascii_of_nat (nat_of_ascii c - 32) else c)
             (toUpperCase r)
  end.

(** [xs.join(sep)] on strings. *)
Fixpoint join (sep : string) (xs : list string) : string :=
  match xs with
  | [] => ""
  | [x] => x
  | x :: rest => x ++ sep ++ join sep rest
  end.

Definition is_digit (c : ascii) : bool :=
  let n := nat_of_ascii c in (48 <=? n)%nat && (n <=? 57)%nat.

Definition digit_val (c : ascii) : Z := Z.of_nat (nat_of_ascii c) - 48.

(** StrWhiteSpaceChar, among the 8-bit code units. *)
Definition is_space (c : ascii) : bool :=
  let n := nat_of_ascii c in
  (n =? 9)%nat || (n =? 10)%nat || (n =? 11)%nat || (n =? 12)%nat ||
  (n =? 13)%nat || (n =? 32)%nat || (n =? 160)%nat.

Fixpoint trim_start (s : string) : string :=
  match s with
  | String c r => if is_space c then trim_start r else s
  | EmptyString => EmptyString
  end.

(** The longest run of decimal digits that [s] starts with, and the rest. *)
Fixpoint span_digits (s : string) : string * string :=
  match s with
  | String c r =>
      if is_digit c then let (d, t) := span_digits r in (String c d, t)
      else (EmptyString, s)
  | EmptyString => (EmptyString, EmptyString)
  end.

(** The value of a run of decimal digits, most significant first. *)
Fixpoint digits_val_acc (acc : Z) (s : string) : Z :=
  match s with
  | String c r => digits_val_acc (10 * acc + digit_val c) r
  | EmptyString => acc
  end.

Definition digits_val (s : string) : Z := digits_val_acc 0 s.

(** Decimal rendering of an integer, as [BigInt.prototype.toString] and the
    integer case of Number-to-string give it. *)
Definition of_Z (z : Z) : string := NilZero.string_of_int (Z.to_int z).

(** [s.padStart(width, "0")]. *)
Definition pad_zeros (width : nat) (s : string) : string :=
  String.concat "" (List.repeat "0" (width - String.length s)) ++ s.

End Str.

(* ================================================================== *)
(** * Regular expressions

    The two literals of [helpers.js] use literal characters, character
    classes, a counted repetition and the anchors; the matcher is a
    backtracking one over that fragment, with the continuation receiving what
    is left of the input. *)

Module Regex.

Inductive t : Type :=
| Begin                                   (* ^ *)
| End_                                    (* $ *)
| Chr (c : ascii)                         (* a literal character *)
| Class (ranges : list (ascii * ascii))   (* [a-fA-F0-9], [&<>...] *)
| Seq (r1 r2 : t)
| Repeat (r : t) (n : nat).               (* r{n} *)

Definition in_range (c : ascii) (r : ascii * ascii) : bool :=
  let n := nat_of_ascii c in
  (nat_of_ascii (fst r) <=? n)%nat && (n <=? nat_of_ascii (snd r))%nat.

Definition in_class (ranges : list (ascii * ascii)) (c : ascii) : bool :=
  existsb (in_range c) ranges.

(** [run r at_start s k]: match [r] at the current position, where
    [at_start] tells whether that position is index 0 and [s] is the input
    from there on; on success the continuation gets the same for the
    position after the match. *)
Fixpoint run {A : Type} (r : t) (at_start : bool) (s : string)
    (k : bool -> string -> option A) : option A :=
  match r with
  | Begin => if at_start then k at_start s else None
  | End_ => match s with EmptyString => k at_start s | String _ _ => None end
  | Chr c =>
      match s with
      | String a rest => if Ascii.eqb a c then k false rest else None
      | EmptyString => None
      end
  | Class ranges =>
      match s with
      | String a rest => if in_class ranges a then k false rest else None
      | EmptyString => None
      end
  | Seq r1 r2 => run r1 at_start s (fun b rest => run r2 b rest k)
  | Repeat r1 n =>
      (fix rep (n : nat) (b : bool) (s : string) : option A :=
         match n with
         | O => k b s
         | S n' => run r1 b s (fun b' rest => rep n' b' rest)
         end) n at_start s
  end.

(** A match starting exactly here: what is left of the input after it. *)
Definition match_here (r : t) (at_start : bool) (s : string) : option string :=
  run r at_start s (fun _ rest => Some rest).

(** [r.test(s)] for a literal without the global flag: some position of the
    input starts a match. *)
Fixpoint test_from (r : t) (at_start : bool) (s : string) : bool :=
  match match_here r at_start s with
  | Some _ => true
  | None =>
      match s with
      | String _ rest => test_from r false rest
      | EmptyString => false
      end
  end.

Definition test (r : t) (s : string) : bool := test_from r true s.

(** [s.replace(r, f)] for a literal with the global flag: the matches are
    taken left to right, each replaced by what the callback returns for the
    matched text; [skip] counts the characters of the input still covered by
    the match being replaced. *)
Fixpoint replace_go (r : t) (f : string -> string) (at_start : bool)
    (skip : nat) (s : string) : string :=
  match skip with
  | S n =>
      match s with
      | String _ rest => replace_go r f false n rest
      | EmptyString => EmptyString
      end
  | O =>
      match match_here r at_start s with
      | Some remaining =>
          let l := (String.length s - String.length remaining)%nat in
          f (String.substring 0 l s) ++
          match s with
          | EmptyString => EmptyString
          | String c rest =>
              (if (l =? 0)%nat then String c EmptyString else EmptyString) ++
              replace_go r f false (l - 1) rest
          end
      | None =>
          match s with
          | EmptyString => EmptyString
          | String c rest => String c (replace_go r f false 0 rest)
          end
      end
  end.

Definition replace_all (r : t) (f : string -> string) (s : string) : string :=
  replace_go r f true 0 s.

End Regex.

(* ================================================================== *)
(** * Numbers

    A finite binary64 value is an integer multiple of the smallest subnormal,
    2^-1074; [Fin u] is the value [u * 2^-1074].  Differences and parsed
    literals are rounded to nearest, ties to even, on exact integers.
    The two zeros are one value here: nothing in the program tells them
    apart. *)

Module Num.

Inductive t : Type :=
| NaN
| Inf (negative : bool)
| Fin (u : Z).

(** 1 in units of 2^-1074. *)
Definition one : Z := 2 ^ 1074.

(** The quotient [num / den] rounded to the nearest integer, ties to even. *)
Definition round_half_even (num den : Z) : Z :=
  let m0 := num / den in
  let r := num mod den in
  if 2 * r <? den then m0
  else if den <? 2 * r then m0 + 1
  else if Z.even m0 then m0 else m0 + 1.

(** The multiple of the unit nearest to [p / d] units that has at most 53
    significant bits ([0 <= p], [0 < d]). *)
Definition round_units (p d : Z) : Z :=
  let n0 := p / d in
  if n0 <? 2 ^ 53 then round_half_even p d
  else
    let shift := Z.log2 n0 - 52 in
    round_half_even p (d * 2 ^ shift) * 2 ^ shift.

(** Values from 2^1024 on overflow to an infinity. *)
Definition pack (negative : bool) (u : Z) : t :=
  if 2 ^ 2098 <=? u then Inf negative
  else Fin (if negative then - u else u).

(** The Number nearest to the rational [p / d], with the given sign. *)
Definition of_ratio (negative : bool) (p d : Z) : t :=
  pack negative (round_units (p * one) d).

(** [Number(z)] for a mathematical integer. *)
Definition of_Z (z : Z) : t := of_ratio (z <? 0) (Z.abs z) 1.

(** The Number nearest to an exact count of units. *)
Definition of_units (z : Z) : t :=
  pack (z <? 0) (round_units (Z.abs z) 1).

(** [x - y]. *)
Definition sub (x y : t) : t :=
  match x, y with
  | NaN, _ | _, NaN => NaN
  | Inf a, Inf b => if Bool.eqb a b then NaN else Inf a
  | Inf a, Fin _ => Inf a
  | Fin _, Inf b => Inf (negb b)
  | Fin a, Fin b => of_units (a - b)
  end.

(** [x > 0], false on NaN. *)
Definition is_pos (x : t) : bool :=
  match x with
  | NaN => false
  | Inf negative => negb negative
  | Fin u => 0 <? u
  end.

(** [x < y], false when either is NaN. *)
Definition ltb (x y : t) : bool :=
  match x, y with
  | NaN, _ | _, NaN => false
  | Inf a, Inf b => a && negb b
  | Inf a, Fin _ => a
  | Fin _, Inf b => negb b
  | Fin a, Fin b => a <? b
  end.

(** [x <= y], false when either is NaN. *)
Definition leb (x y : t) : bool :=
  match x, y with
  | NaN, _ | _, NaN => false
  | Inf a, Inf b => a || negb b
  | Inf a, Fin _ => a
  | Fin _, Inf b => negb b
  | Fin a, Fin b => a <=? b
  end.

(** SameValueZero on Numbers. *)
Definition same (x y : t) : bool :=
  match x, y with
  | NaN, NaN => true
  | Inf a, Inf b => Bool.eqb a b
  | Fin a, Fin b => a =? b
  | _, _ => false
  end.

(** [Number.isInteger(x)] and the value, for a safe integer. *)
Definition to_integer (x : t) : option Z :=
  match x with
  | Fin u => if u mod one =? 0 then Some (u / one) else None
  | _ => None
  end.

(** ToBoolean on a Number: zero and NaN are falsy. *)
Definition truthy (x : t) : bool :=
  match x with
  | NaN => false
  | Inf _ => true
  | Fin u => negb (u =? 0)
  end.

(** ** Number to string *)

(** [a < 10^n], for [a] units. *)
Definition lt_pow10 (a n : Z) : bool :=
  if 0 <=? n then a <? 10 ^ n * one else a * 10 ^ (- n) <? one.

(** The [n] with [10^(n-1) <= x < 10^n]. *)
Fixpoint find_exp (fuel : nat) (a n : Z) : Z :=
  match fuel with
  | O => n
  | S f =>
      if lt_pow10 a (n - 1) then find_exp f a (n - 1)
      else if lt_pow10 a n then n
      else find_exp f a (n + 1)
  end.

(** [c * 10^j] read back as a Number gives [a] units. *)
Definition reads_back (a c j : Z) : bool :=
  match (if 0 <=? j then of_ratio false (c * 10 ^ j) 1
         else of_ratio false c (10 ^ (- j))) with
  | Fin u => u =? a
  | _ => false
  end.

(** The shortest decimal [s * 10^j] that reads back as [a] units, trying
    [k] significant digits and then more; of two candidates with [k] digits
    the nearer one is taken.  Seventeen digits always read back, so the
    search ends before its fuel does. *)
Fixpoint shortest (fuel : nat) (a n k : Z) : Z * Z :=
  let j := n - k in
  let xnum := if 0 <=? j then a else a * 10 ^ (- j) in
  let xden := if 0 <=? j then one * 10 ^ j else one in
  let lo := xnum / xden in
  let r := xnum mod xden in
  let nearest := if 2 * r <=? xden then lo else lo + 1 in
  match fuel with
  | O => (Z.max 1 nearest, j)
  | S f =>
      match (0 <? lo) && reads_back a lo j, reads_back a (lo + 1) j with
      | true, true => (nearest, j)
      | true, false => (lo, j)
      | false, true => (lo + 1, j)
      | false, false => shortest f a n (k + 1)
      end
  end.

Fixpoint strip_zeros_rev (s : list ascii) : list ascii :=
  match s with
  | c :: r => if Ascii.eqb c "0" then strip_zeros_rev r else s
  | [] => []
  end.

(** A digit string without its trailing zeros. *)
Definition strip_trailing_zeros (s : string) : string :=
  string_of_list_ascii (rev (strip_zeros_rev (rev (list_ascii_of_string s)))).

Definition zeros (n : Z) : string :=
  String.concat "" (List.repeat "0" (Z.to_nat n)).

(** Number::toString for a positive finite value of [a] units. *)
Definition toString_pos (a : Z) : string :=
  let n0 := find_exp 800 a 1 in
  let (s, j) := shortest 17 a n0 1 in
  let all := Str.of_Z s in
  let ds := strip_trailing_zeros all in
  let n := j + Str.len all in
  let k := Str.len ds in
  if (k <=? n) && (n <=? 21) then ds ++ zeros (n - k)
  else if (0 <? n) && (n <=? 21) then
    Str.slice ds 0 n ++ "." ++ Str.slice_from ds n
  else if (-6 <? n) && (n <=? 0) then "0." ++ zeros (- n) ++ ds
  else
    let e := n - 1 in
    let sign := if e <? 0 then "-" else "+" in
    if k =? 1 then ds ++ "e" ++ sign ++ Str.of_Z (Z.abs e)
    else Str.slice ds 0 1 ++ "." ++ Str.slice_from ds 1 ++
         "e" ++ sign ++ Str.of_Z (Z.abs e).

(** Number::toString, radix 10. *)
Definition toString (x : t) : string :=
  match x with
  | NaN => "NaN"
  | Inf false => "Infinity"
  | Inf true => "-Infinity"
  | Fin u =>
      if u =? 0 then "0"
      else if u <? 0 then "-" ++ toString_pos (- u)
      else toString_pos u
  end.

(** [x.toFixed(fd)]: below 10^21 the digits of the integer nearest to
    [x * 10^fd] (the larger of two equally near), with the point [fd] places
    from the end; from 10^21 on, Number::toString. *)
Definition toFixed (x : t) (fd : nat) : string :=
  match x with
  | Fin u =>
      let a := Z.abs u in
      let s := if u <? 0 then "-" else "" in
      if 10 ^ 21 * one <=? a then s ++ toString_pos a
      else
        let n := (2 * a * 10 ^ Z.of_nat fd + one) / (2 * one) in
        let m := Str.pad_zeros (fd + 1) (Str.of_Z n) in
        let k := String.length m in
        if (fd =? 0)%nat then s ++ m
        else s ++ String.substring 0 (k - fd) m ++ "." ++
             String.substring (k - fd) fd m
  | _ => toString x
  end.

(** ** Strings to numbers *)

(** The exponent part of a decimal literal, when [s] starts with one. *)
Definition exponent_part (s : string) : Z :=
  match s with
  | String c r =>
      if Ascii.eqb c "e" || Ascii.eqb c "E" then
        let (negative, r') :=
          match r with
          | String "-" t => (true, t)
          | String "+" t => (false, t)
          | _ => (false, r)
          end in
        let (ds, _) := Str.span_digits r' in
        match ds with
        | EmptyString => 0
        | _ => if negative then - Str.digits_val ds else Str.digits_val ds
        end
      else 0
  | EmptyString => 0
  end.

(** [parseFloat(s)]: the longest prefix of the trimmed input that is a
    decimal literal, NaN when there is none. *)
Definition parseFloat (s : string) : t :=
  let s1 := Str.trim_start s in
  let (negative, s2) :=
    match s1 with
    | String "-" r => (true, r)
    | String "+" r => (false, r)
    | _ => (false, s1)
    end in
  if Str.starts_with "Infinity" s2 then Inf negative
  else
    let (ip, r1) := Str.span_digits s2 in
    let (fp, r2) :=
      match r1 with
      | String "." r => Str.span_digits r
      | _ => (EmptyString, r1)
      end in
    match ip, fp with
    | EmptyString, EmptyString => NaN
    | _, _ =>
        let m := Str.digits_val (ip ++ fp) in
        let e := exponent_part r2 - Str.len fp in
        if 0 <=? e then of_ratio negative (m * 10 ^ e) 1
        else of_ratio negative m (10 ^ (- e))
    end.

Definition hex_val (c : ascii) : option Z :=
  let n := nat_of_ascii c in
  if Str.is_digit c then Some (Z.of_nat n - 48)
  else if (97 <=? n)%nat && (n <=? 102)%nat then Some (Z.of_nat n - 87)
  else if (65 <=? n)%nat && (n <=? 70)%nat then Some (Z.of_nat n - 55)
  else None.

(** The digits of the given radix (2, 8, 10 or 16) that [s] starts with:
    their value and how many they are, and what follows them. *)
Fixpoint radix_prefix (radix acc : Z) (count : nat) (s : string)
    : Z * nat * string :=
  match s with
  | String c r =>
      match hex_val c with
      | Some d =>
          if d <? radix then radix_prefix radix (radix * acc + d) (S count) r
          else (acc, count, s)
      | None => (acc, count, s)
      end
  | EmptyString => (acc, count, s)
  end.

(** [parseInt(s)] with no radix argument: an optional sign, an optional
    [0x] that selects radix 16, then the longest run of digits. *)
Definition parseInt (s : string) : t :=
  let s1 := Str.trim_start s in
  let (negative, s2) :=
    match s1 with
    | String "-" r => (true, r)
    | String "+" r => (false, r)
    | _ => (false, s1)
    end in
  let (radix, s3) :=
    match s2 with
    | String "0" (String "x" r) => (16, r)
    | String "0" (String "X" r) => (16, r)
    | _ => (10, s2)
    end in
  match radix_prefix radix 0 0 s3 with
  | (_, O, _) => NaN
  | (v, _, _) => of_ratio negative v 1
  end.

End Num.

(* ================================================================== *)
(** * Values *)

Set Warnings "-register-all".

Inductive JsVal : Type :=
| JUndefined
| JNull
| JBool (b : bool)
| JNum (x : Num.t)
| JBig (z : Z)
| JStr (s : string)
| JArr (items : list JsVal)
| JObj (fields : list (string * JsVal))
| JError (name message : string).

(** How a computation completes: normally, or by throwing a value. *)
Inductive Result (A : Type) : Type :=
| Ok (a : A)
| Throw (e : JsVal).

Arguments Ok {A} a.
Arguments Throw {A} e.

Module Js.

Definition type_error (message : string) : JsVal := JError "TypeError" message.

Definition error (message : string) : JsVal := JError "Error" message.

(** ToBoolean. *)
Definition truthy (v : JsVal) : bool :=
  match v with
  | JUndefined | JNull => false
  | JBool b => b
  | JNum x => Num.truthy x
  | JBig z => negb (z =? 0)
  | JStr s => negb (String.eqb s "")
  | JArr _ | JObj _ | JError _ _ => true
  end.

(** ToString; an array joins its elements with commas, undefined and null
    elements as empty strings. *)
Fixpoint toString (v : JsVal) : string :=
  match v with
  | JUndefined => "undefined"
  | JNull => "null"
  | JBool true => "true"
  | JBool false => "false"
  | JNum x => Num.toString x
  | JBig z => Str.of_Z z
  | JStr s => s
  | JArr items =>
      Str.join ","
        (List.map (fun e => match e with
                            | JUndefined | JNull => ""
                            | _ => toString e
                            end) items)
  | JObj _ => "[object Object]"
  | JError name message => name ++ ": " ++ message
  end.

Fixpoint lookup (fields : list (string * JsVal)) (k : string) : option JsVal :=
  match fields with
  | [] => None
  | (k', v) :: rest => if String.eqb k' k then Some v else lookup rest k
  end.

(** Writing a property: an existing key keeps its place. *)
Fixpoint put (fields : list (string * JsVal)) (k : string) (v : JsVal)
    : list (string * JsVal) :=
  match fields with
  | [] => [(k, v)]
  | (k', v') :: rest =>
      if String.eqb k' k then (k, v) :: rest else (k', v') :: put rest k v
  end.

(** An object literal: the properties in order, a repeated key overwriting. *)
Definition object (props : list (string * JsVal)) : JsVal :=
  JObj (fold_left (fun acc kv => put acc (fst kv) (snd kv)) props []).

(** The own enumerable properties that a spread copies. *)
Definition spread (v : JsVal) : list (string * JsVal) :=
  match v with
  | JObj fields => fields
  | _ => []
  end.

(** [v.k] on a value that is neither undefined nor null. *)
Definition field (v : JsVal) (k : string) : JsVal :=
  match v with
  | JObj fields =>
      match lookup fields k with Some x => x | None => JUndefined end
  | JArr items =>
      if String.eqb k "length" then JNum (Num.of_Z (Z.of_nat (List.length items)))
      else JUndefined
  | JStr s =>
      if String.eqb k "length" then JNum (Num.of_Z (Str.len s)) else JUndefined
  | JError name message =>
      if String.eqb k "message" then JStr message
      else if String.eqb k "name" then JStr name
      else JUndefined
  | _ => JUndefined
  end.

(** [v.k]: reading a property of undefined or null throws. *)
Definition get (v : JsVal) (k : string) : Result JsVal :=
  match v with
  | JUndefined =>
      Throw (type_error ("Cannot read properties of undefined (reading '" ++ k ++ "')"))
  | JNull =>
      Throw (type_error ("Cannot read properties of null (reading '" ++ k ++ "')"))
  | _ => Ok (field v k)
  end.

(** [v[i]] for an index. *)
Definition index (v : JsVal) (i : nat) : Result JsVal :=
  match v with
  | JUndefined | JNull =>
      Throw (type_error "Cannot read properties of undefined or null")
  | JArr items => Ok (nth i items JUndefined)
  | JStr s =>
      Ok (match String.get i s with
          | Some c => JStr (String c EmptyString)
          | None => JUndefined
          end)
  | JObj fields =>
      Ok (match lookup fields (Str.of_Z (Z.of_nat i)) with
          | Some x => x
          | None => JUndefined
          end)
  | _ => Ok JUndefined
  end.

(** The length of an array or a string, as an index bound. *)
Definition length_of (v : JsVal) : nat :=
  match v with
  | JArr items => List.length items
  | JStr s => String.length s
  | _ => O
  end.

(** Strict equality on the values the program compares: a primitive with a
    string literal. *)
Definition strict_eq_str (v : JsVal) (s : string) : bool :=
  match v with
  | JStr s' => String.eqb s' s
  | _ => false
  end.

(** SameValueZero, the key equality of a [Map].  Objects are equal to
    themselves only, and every object of a parsed response is a fresh one. *)
Definition same_value_zero (a b : JsVal) : bool :=
  match a, b with
  | JUndefined, JUndefined => true
  | JNull, JNull => true
  | JBool x, JBool y => Bool.eqb x y
  | JNum x, JNum y => Num.same x y
  | JBig x, JBig y => x =? y
  | JStr x, JStr y => String.eqb x y
  | _, _ => false
  end.

Fixpoint trim_end_rev (s : list ascii) : list ascii :=
  match s with
  | c :: r => if Str.is_space c then trim_end_rev r else s
  | [] => []
  end.

(** [s.trim()]. *)
Definition trim (s : string) : string :=
  string_of_list_ascii
    (rev (trim_end_rev (rev (list_ascii_of_string (Str.trim_start s))))).

(** The digits of a radix filling a whole string: its value. *)
Definition all_digits (radix : Z) (s : string) : option Z :=
  match Num.radix_prefix radix 0 0 s with
  | (_, O, _) => None
  | (v, _, EmptyString) => Some v
  | _ => None
  end.

(** A string with a radix prefix, as StringToNumber and StringToBigInt
    read it. *)
Definition prefixed_integer (s : string) : option Z :=
  match s with
  | String "0" (String c r) =>
      if Ascii.eqb c "x" || Ascii.eqb c "X" then all_digits 16 r
      else if Ascii.eqb c "o" || Ascii.eqb c "O" then all_digits 8 r
      else if Ascii.eqb c "b" || Ascii.eqb c "B" then all_digits 2 r
      else None
  | _ => None
  end.

(** A decimal literal filling a whole string: sign, then what [parseFloat]
    reads, with nothing left over. *)
Definition whole_decimal (s : string) : Num.t :=
  let (negative, s2) :=
    match s with
    | String "-" r => (true, r)
    | String "+" r => (false, r)
    | _ => (false, s)
    end in
  if String.eqb s2 "Infinity" then Num.Inf negative
  else
    let (ip, r1) := Str.span_digits s2 in
    let (fp, r2) :=
      match r1 with
      | String "." r => Str.span_digits r
      | _ => (EmptyString, r1)
      end in
    let (valid_exponent, r3) :=
      match r2 with
      | EmptyString => (true, EmptyString)
      | String c r =>
          if Ascii.eqb c "e" || Ascii.eqb c "E" then
            let r' := match r with
                      | String "-" t => t
                      | String "+" t => t
                      | _ => r
                      end in
            let (ds, rest) := Str.span_digits r' in
            (negb (String.eqb ds ""), rest)
          else (false, r2)
      end in
    match ip, fp with
    | EmptyString, EmptyString => Num.NaN
    | _, _ =>
        if valid_exponent && String.eqb r3 "" then Num.parseFloat s
        else Num.NaN
    end.

(** StringToNumber. *)
Definition string_to_number (s : string) : Num.t :=
  let s1 := trim s in
  if String.eqb s1 "" then Num.Fin 0
  else
    match prefixed_integer s1 with
    | Some v => Num.of_Z v
    | None => whole_decimal s1
    end.

(** ToNumber on the values a comparison with a Number meets; a BigInt
    keeps its integer value. *)
Definition to_number (v : JsVal) : Num.t :=
  match v with
  | JUndefined => Num.NaN
  | JNull => Num.Fin 0
  | JBool b => if b then Num.of_Z 1 else Num.Fin 0
  | JNum x => x
  | JBig z => Num.of_Z z
  | JStr s => string_to_number s
  | JArr _ | JObj _ | JError _ _ => string_to_number (toString v)
  end.

(** [v > 0]. *)
Definition gt_zero (v : JsVal) : bool :=
  match v with
  | JBig z => 0 <? z
  | _ => Num.is_pos (to_number v)
  end.

End Js.

(* ================================================================== *)
(** * The world: service object, upstream services, clock, history *)

(** What [new ethers.JsonRpcProvider(url)] holds. *)
Record Provider : Type := { rpc_url : string }.

(** The fields of the [Web3Service] singleton.  A key read from storage is
    a string, or null when the item is absent. *)
Record Web3Service : Type := {
  provider : option Provider;
  network : string;
  alchemyKey : option string;
  etherscanKey : option string
}.

(** Everything the code asks of the outside, in the order asked. *)
Inductive Request : Type :=
| GetNetwork (url : string)
| GetBalance (url address : string)
| GetTransactionCount (url address : string)
| GetBlockNumber (url : string)
| GetCode (url address : string)
| LookupAddress (url address : string)
| CallBalanceOf (url : string) (token : JsVal) (address : string)
| CallName (url address : string)
| CallSymbol (url address : string)
| CallTotalSupply (url address : string)
| Fetch (url : string).

Inductive Event : Type :=
| Asked (r : Request)
| Console (level : string) (args : list JsVal).

(** Latest event first. *)
Definition History : Type := list Event.

(** The provider (through ethers.js) and the indexer (through [fetch]).
    Each answer may depend on everything that happened before, and each call
    may throw.  [up_fetch_json] is [fetch(url)] followed by
    [response.json()]: the parsed body, or what either of the two threw. *)
Record Upstream : Type := {
  up_getNetwork : History -> string -> Result JsVal;
  up_getBalance : History -> string -> string -> Result Z;
  up_getTransactionCount : History -> string -> string -> Result Z;
  up_getBlockNumber : History -> string -> Result Z;
  up_getCode : History -> string -> string -> Result string;
  up_lookupAddress : History -> string -> string -> Result (option string);
  up_balanceOf : History -> string -> JsVal -> string -> Result Z;
  up_name : History -> string -> string -> Result string;
  up_symbol : History -> string -> string -> Result string;
  up_totalSupply : History -> string -> string -> Result Z;
  up_fetch_json : History -> string -> Result JsVal
}.

Record World : Type := {
  service : Web3Service;
  upstream : Upstream;
  clock : Z;                 (* milliseconds since the epoch, as [new Date()] reads them *)
  history : History
}.

(** ** The monad of asynchronous code: state and exceptions *)

Definition M (A : Type) : Type := World -> Result A * World.

Definition ret {A : Type} (a : A) : M A := fun w => (Ok a, w).

Definition bind {A B : Type} (c : M A) (k : A -> M B) : M B :=
  fun w =>
    match c w with
    | (Ok a, w') => k a w'
    | (Throw e, w') => (Throw e, w')
    end.

Definition throw {A : Type} (e : JsVal) : M A := fun w => (Throw e, w).

(** [try { body } catch (error) { handler }]. *)
Definition try_catch {A : Type} (body : M A) (handler : JsVal -> M A) : M A :=
  fun w =>
    match body w with
    | (Ok a, w') => (Ok a, w')
    | (Throw e, w') => handler e w'
    end.

Definition lift {A : Type} (r : Result A) : M A := fun w => (r, w).

Declare Scope js_scope.
Delimit Scope js_scope with js.
Notation "x <- c ;; k" := (bind c (fun x => k))
  (at level 61, c at next level, right associativity) : js_scope.
Notation "c ;; k" := (bind c (fun _ => k))
  (at level 61, right associativity) : js_scope.
Local Open Scope js_scope.

Definition record_event (e : Event) (w : World) : World :=
  {| service := service w; upstream := upstream w; clock := clock w;
     history := e :: history w |}.

Definition this : M Web3Service := fun w => (Ok (service w), w).

(** [this.provider = p]. *)
Definition set_provider (p : Provider) : M unit :=
  fun w =>
    (Ok tt,
     {| service := {| provider := Some p;
                      network := network (service w);
                      alchemyKey := alchemyKey (service w);
                      etherscanKey := etherscanKey (service w) |};
        upstream := upstream w; clock := clock w; history := history w |}).

(** [console.log], [console.warn], [console.error]. *)
Definition console (level : string) (args : list JsVal) : M unit :=
  fun w => (Ok tt, record_event (Console level args) w).

(** A method call on [this.provider]: a TypeError while the provider is
    null, the upstream's answer otherwise. *)
Definition on_provider {A : Type} (method : string)
    (answer : Upstream -> History -> string -> Result A)
    (request : string -> Request) : M A :=
  fun w =>
    match provider (service w) with
    | None =>
        (Throw (Js.type_error
                  ("Cannot read properties of null (reading '" ++ method ++ "')")), w)
    | Some p =>
        (answer (upstream w) (history w) (rpc_url p),
         record_event (Asked (request (rpc_url p))) w)
    end.

(** A read-only call through [new ethers.Contract(target, abi,
    this.provider)]; without a provider the contract has no runner to call
    with. *)
Definition on_contract {A : Type}
    (answer : Upstream -> History -> string -> Result A)
    (request : string -> Request) : M A :=
  fun w =>
    match provider (service w) with
    | None =>
        (Throw (Js.error "contract runner does not support calling"), w)
    | Some p =>
        (answer (upstream w) (history w) (rpc_url p),
         record_event (Asked (request (rpc_url p))) w)
    end.

(** [await fetch(url)] and [await response.json()]. *)
Definition fetch_json (url : string) : M JsVal :=
  fun w =>
    (up_fetch_json (upstream w) (history w) url, record_event (Asked (Fetch url)) w).

(** [v.k] inside asynchronous code. *)
Definition get (v : JsVal) (k : string) : M JsVal := lift (Js.get v k).

(** [items.map(f)] with a callback that may throw. *)
Fixpoint map_m {A B : Type} (f : A -> M B) (items : list A) : M (list B) :=
  match items with
  | [] => ret []
  | x :: rest =>
      y <- f x ;;
      ys <- map_m f rest ;;
      ret (y :: ys)
  end.

(** [v.map(f)] and [v.forEach(f)] on a value: only an array has them. *)
Definition array_items (v : JsVal) (method : string) : M (list JsVal) :=
  match v with
  | JArr items => ret items
  | JUndefined | JNull =>
      throw (Js.type_error
               ("Cannot read properties of undefined or null (reading '" ++ method ++ "')"))
  | _ => throw (Js.type_error (method ++ " is not a function"))
  end.

(* ================================================================== *)
(** * ethers.js: units

    [ethers.formatUnits] and [ethers.formatEther] as version 6 of the
    library computes them (the page loads the library; it is no part of the
    repository): the decimals must be an integer Number of at most 80, the
    value a BigNumberish that fits 512 bits, and the result is the decimal
    expansion with at least one digit on either side of the point.  The
    messages of the library's errors are abbreviated. *)

Module Ethers.

Definition max_safe : Z := 2 ^ 53 - 1.

(** [getNumber(x)] on a Number. *)
Definition getNumber (x : Num.t) : Result Z :=
  match Num.to_integer x with
  | None => Throw (Js.type_error "underflow")
  | Some n =>
      if (- max_safe <=? n) && (n <=? max_safe) then Ok n
      else Throw (Js.type_error "overflow")
  end.

(** [BigInt(s)]: StringToBigInt, None for a SyntaxError. *)
Definition string_to_bigint (s : string) : option Z :=
  let s1 := Js.trim s in
  if String.eqb s1 "" then Some 0
  else
    match Js.prefixed_integer s1 with
    | Some v => Some v
    | None =>
        match s1 with
        | String "-" r => option_map Z.opp (Js.all_digits 10 r)
        | String "+" r => Js.all_digits 10 r
        | _ => Js.all_digits 10 s1
        end
    end.

(** [getBigInt(value)]. *)
Definition getBigInt (value : JsVal) : Result Z :=
  match value with
  | JBig z => Ok z
  | JNum x =>
      match Num.to_integer x with
      | None => Throw (Js.type_error "underflow")
      | Some n =>
          if (- max_safe <=? n) && (n <=? max_safe) then Ok n
          else Throw (Js.type_error "overflow")
      end
  | JStr s =>
      let parsed :=
        match s with
        | EmptyString => None
        | String "-" (String c r) =>
            if Ascii.eqb c "-" then string_to_bigint s
            else option_map Z.opp (string_to_bigint (String c r))
        | _ => string_to_bigint s
        end in
      match parsed with
      | Some z => Ok z
      | None => Throw (Js.type_error "invalid BigNumberish string")
      end
  | _ => Throw (Js.type_error "invalid BigNumberish value")
  end.

(** Leading zeros go while another character stands before the point. *)
Fixpoint drop_leading_zeros (s : string) : string :=
  match s with
  | String c rest =>
      match rest with
      | EmptyString => s
      | String _ _ => if Ascii.eqb c "0" then drop_leading_zeros rest else s
      end
  | EmptyString => s
  end.

Definition drop_trailing_zeros (s : string) : string :=
  string_of_list_ascii
    (rev (list_ascii_of_string
            (drop_leading_zeros (string_of_list_ascii (rev (list_ascii_of_string s)))))).

(** The rendering of a fixed-point value: [val] with the point [decimals]
    places from the end. *)
Definition fixed_toString (val decimals : Z) : string :=
  let negative := if val <? 0 then "-" else "" in
  let str := Str.of_Z (Z.abs val) in
  if decimals =? 0 then negative ++ str
  else
    let padded := Str.pad_zeros (Z.to_nat (decimals + 1)) str in
    let index := Str.len padded - decimals in
    negative ++ drop_leading_zeros (String.substring 0 (Z.to_nat index) padded)
             ++ "." ++ drop_trailing_zeros (Str.slice_from padded index).

(** The decimal string of [value] with [decimals] places. *)
Definition formatDecimals (value : JsVal) (decimals : Num.t) : Result string :=
  match getNumber decimals with
  | Throw e => Throw e
  | Ok d =>
      if 80 <? d then Throw (Js.type_error "invalid FixedNumber decimals (too large)")
      else
        match getBigInt value with
        | Throw e => Throw e
        | Ok v =>
            if (- 2 ^ 511 <=? v) && (v <? 2 ^ 511) then Ok (fixed_toString v d)
            else Throw (Js.type_error "overflow")
        end
  end.

(** [ethers.formatUnits] with any unit argument: a Number or BigInt of
    decimals, a unit name, or nothing (18). *)
Definition unit_names : list string :=
  ["wei"; "kwei"; "mwei"; "gwei"; "szabo"; "finney"; "ether"].

Fixpoint index_of (s : string) (names : list string) (i : Z) : option Z :=
  match names with
  | [] => None
  | n :: rest => if String.eqb n s then Some i else index_of s rest (i + 1)
  end.

Definition formatUnits (value unit : JsVal) : Result string :=
  match unit with
  | JUndefined | JNull => formatDecimals value (Num.of_Z 18)
  | JNum x => formatDecimals value x
  | JBig z =>
      if (- max_safe <=? z) && (z <=? max_safe)
      then formatDecimals value (Num.of_Z z)
      else Throw (Js.type_error "overflow")
  | JStr s =>
      match index_of s unit_names 0 with
      | Some i => formatDecimals value (Num.of_Z (3 * i))
      | None => Throw (Js.type_error "invalid unit")
      end
  | _ => Throw (Js.type_error "invalid numeric value")
  end.

(** [ethers.formatEther(value)]: 18 decimals. *)
Definition formatEther (value : JsVal) : Result string :=
  formatUnits value (JNum (Num.of_Z 18)).

End Ethers.

(* ================================================================== *)
(** * Dates *)

Module Date.

Definition pad (width : nat) (z : Z) : string :=
  Str.pad_zeros width (Str.of_Z z).

(** [new Date(t).toISOString()] for [t] milliseconds since the epoch: the
    civil date of the day number, then the time of day. *)
Definition toISOString (t : Z) : string :=
  let days := t / 86400000 in
  let ms := t mod 86400000 in
  let z := days + 719468 in
  let era := z / 146097 in
  let doe := z mod 146097 in
  let yoe := (doe - doe / 1460 + doe / 36524 - doe / 146096) / 365 in
  let doy := doe - (365 * yoe + yoe / 4 - yoe / 100) in
  let mp := (5 * doy + 2) / 153 in
  let d := doy - (153 * mp + 2) / 5 + 1 in
  let m := if mp <? 10 then mp + 3 else mp - 9 in
  let y := yoe + era * 400 + (if m <=? 2 then 1 else 0) in
  let year :=
    if (0 <=? y) && (y <=? 9999) then pad 4 y
    else (if y <? 0 then "-" else "+") ++ pad 6 (Z.abs y) in
  year ++ "-" ++ pad 2 m ++ "-" ++ pad 2 d ++ "T" ++
  pad 2 (ms / 3600000) ++ ":" ++ pad 2 ((ms / 60000) mod 60) ++ ":" ++
  pad 2 ((ms / 1000) mod 60) ++ "." ++ pad 3 (ms mod 1000) ++ "Z".

End Date.

(** [new Date().toISOString()]. *)
Definition now_iso : M string := fun w => (Ok (Date.toISOString (clock w)), w).

(* ================================================================== *)
(** * docs/utils/helpers.js *)

(** [/^0x[a-fA-F0-9]{40}$/] *)
Definition address_regex : Regex.t :=
  Regex.Seq Regex.Begin
    (Regex.Seq (Regex.Chr "0")
       (Regex.Seq (Regex.Chr "x")
          (Regex.Seq
             (Regex.Repeat
                (Regex.Class [("a", "f"); ("A", "F"); ("0", "9")]%char) 40)
             Regex.End_))).

Definition isValidAddress (address : string) : bool :=
  Regex.test address_regex address.

(** [v <= n] for an integer Number [n]. *)
Definition le_integer (v : JsVal) (n : Z) : bool :=
  match v with
  | JBig z => z <=? n
  | _ => Num.leb (Js.to_number v) (Num.of_Z n)
  end.

(** [xs.slice(start, end)] on an array. *)
Definition slice_items (items : list JsVal) (start stop : Z) : list JsVal :=
  let n := Z.of_nat (List.length items) in
  let from := Str.rel_index n start in
  let to := Str.rel_index n stop in
  firstn (Z.to_nat (to - from)) (skipn (Z.to_nat from) items).

(** [v.slice(start, end)]: strings and arrays have the method. *)
Definition slice (v : JsVal) (start stop : Z) : Result JsVal :=
  match v with
  | JStr s => Ok (JStr (Str.slice s start stop))
  | JArr items => Ok (JArr (slice_items items start stop))
  | _ => Throw (Js.type_error "slice is not a function")
  end.

(** [v.slice(start)]. *)
Definition slice_from (v : JsVal) (start : Z) : Result JsVal :=
  match v with
  | JStr s => Ok (JStr (Str.slice_from s start))
  | JArr items =>
      Ok (JArr (slice_items items start (Z.of_nat (List.length items))))
  | _ => Throw (Js.type_error "slice is not a function")
  end.

(** [shortenAddress(address, startChars, endChars)], the two counts being
    integers. *)
Definition shortenAddress (address : JsVal) (startChars endChars : Z)
    : Result JsVal :=
  if negb (Js.truthy address) then Ok (JStr "")
  else if le_integer (Js.field address "length") (startChars + endChars)
  then Ok address
  else
    match slice address 0 startChars with
    | Throw e => Throw e
    | Ok a =>
        match slice_from address (- endChars) with
        | Throw e => Throw e
        | Ok b => Ok (JStr (Js.toString a ++ "..." ++ Js.toString b))
        end
    end.

(** [shortenAddress(address)]: the defaults are 6 and 4. *)
Definition shortenAddress_default (address : JsVal) : Result JsVal :=
  shortenAddress address 6 4.

Definition escapeMap : JsVal :=
  Js.object
    [("&", JStr "&amp;");
     ("<", JStr "&lt;");
     (">", JStr "&gt;");
     (String Str.dquote "", JStr "&quot;");
     ("'", JStr "&#39;")].

(** [/[&<>...']/g], the five characters of the map. *)
Definition escape_regex : Regex.t :=
  Regex.Class
    [("&", "&"); ("<", "<"); (">", ">"); (Str.dquote, Str.dquote); ("'", "'")]%char.

(** [str.replace(/[&<>...']/g, char => escapeMap[char])] *)
Definition escapeHTML (str : string) : string :=
  Regex.replace_all escape_regex
    (fun char => Js.toString (Js.field escapeMap char)) str.

(** The analysis modes and how the page names them. *)
Inductive AnalysisMode : Type := Wallet | Contract | Nft.

Definition mode_name (m : AnalysisMode) : string :=
  match m with
  | Wallet => "wallet"
  | Contract => "contract"
  | Nft => "nft"
  end.

(** [a || 'Unknown'] in a template. *)
Definition or_unknown (v : JsVal) : string :=
  if Js.truthy v then Js.toString v else "Unknown".

(** One line per token of the holdings section. *)
Definition token_line (token : JsVal) : M string :=
  name <- get token "name" ;;
  symbol <- get token "symbol" ;;
  balance <- get token "balance" ;;
  ret ("- **" ++ Js.toString name ++ " (" ++ Js.toString symbol ++ ")**: "
         ++ Js.toString balance).

(** One line per transaction of the excerpt; [i] is the index. *)
Fixpoint tx_lines (i : Z) (txs : list JsVal) : M (list string) :=
  match txs with
  | [] => ret []
  | tx :: rest =>
      hash <- get tx "hash" ;;
      value <- get tx "value" ;;
      to <- get tx "to" ;;
      lines <- tx_lines (i + 1) rest ;;
      ret ((Str.of_Z (i + 1) ++ ". Hash: " ++ Js.toString hash ++ ", Value: "
              ++ Js.toString value ++ ", To: " ++ Js.toString to) :: lines)
  end.

Definition wallet_section (data : JsVal) : M string :=
  address <- get data "address" ;;
  balance <- get data "balance" ;;
  txCount <- get data "txCount" ;;
  firstTx <- get data "firstTx" ;;
  tokens <- get data "tokens" ;;
  holdings <-
    (if Js.truthy tokens && Js.gt_zero (Js.field tokens "length") then
       items <- array_items tokens "map" ;;
       lines <- map_m token_line items ;;
       ret (Str.join "
" lines)
     else ret "No ERC-20 tokens detected") ;;
  transactions <- get data "transactions" ;;
  excerpt <-
    (if Js.truthy transactions then
       first <- lift (slice transactions 0 5) ;;
       items <- array_items first "map" ;;
       lines <- tx_lines 0 items ;;
       ret (Str.join "
" lines)
     else ret "No recent transactions available") ;;
  ret ("**Address:** " ++ Js.toString address ++ "
**ETH Balance:** " ++ Js.toString balance ++ "
**Transaction Count:** " ++ Js.toString txCount ++ "
**First Activity:** " ++ or_unknown firstTx ++ "

## ERC-20 Token Holdings

" ++ holdings ++ "

## Analysis Tasks

Please analyze this Ethereum wallet and provide insights on:

1. **Activity Patterns**: Analyze transaction frequency, timing, and patterns
2. **Fund Flow**: Identify major inflows/outflows and unusual transfers
3. **Entity Classification**: Is this likely an exchange, individual, contract, or other entity?
4. **Risk Assessment**: Flag any suspicious patterns or high-risk behaviors
5. **Associated Addresses**: Identify frequently interacting addresses
6. **Token Portfolio Analysis**: Evaluate the token holdings for diversification and risk
7. **Wallet Behavior**: Based on tokens held, what type of investor/user is this?

## Recent Transaction Context

" ++ excerpt ++ "

").

Definition contract_section (data : JsVal) : M string :=
  address <- get data "address" ;;
  name <- get data "name" ;;
  verified <- get data "verified" ;;
  ret ("**Contract Address:** " ++ Js.toString address ++ "
**Name:** " ++ or_unknown name ++ "
**Verified:** " ++ (if Js.truthy verified then "Yes" else "No") ++ "

## Analysis Tasks

Please analyze this smart contract and provide insights on:

1. **Contract Purpose**: What does this contract do?
2. **Security Assessment**: Are there any known vulnerabilities or red flags?
3. **Usage Patterns**: How active is this contract?
4. **Token Analysis**: If this is a token contract, analyze tokenomics
5. **Upgrade Status**: Is this contract upgradeable? Who controls it?

").

Definition nft_section (data : JsVal) : M string :=
  address <- get data "address" ;;
  name <- get data "name" ;;
  symbol <- get data "symbol" ;;
  totalSupply <- get data "totalSupply" ;;
  ret ("**Collection Address:** " ++ Js.toString address ++ "
**Name:** " ++ or_unknown name ++ "
**Symbol:** " ++ or_unknown symbol ++ "
**Total Supply:** " ++ or_unknown totalSupply ++ "

## Analysis Tasks

Please analyze this NFT collection and provide insights on:

1. **Collection Overview**: Project background and legitimacy
2. **Market Activity**: Trading volume, floor price trends
3. **Holder Analysis**: Distribution of ownership, whale concentration
4. **Rarity & Traits**: Notable trait distributions if available
5. **Contract Security**: Is the contract safe? Any mint/transfer restrictions?

").

Definition prompt_footer : string := "
---

## Output Format

Please provide:
1. **Executive Summary** (2-3 sentences)
2. **Key Findings** (bullet points)
3. **Risk Level** (Low/Medium/High with justification)
4. **Recommendations** (actionable next steps)

**Note:** This is an automated intelligence request. Focus on factual, evidence-based analysis.".

(** The head of the prompt, down to the target information. *)
Definition prompt_header (type timestamp : string) : string :=
  "# Blockchain Intelligence Analysis Request

**Analysis Type:** " ++ Str.toUpperCase type ++ "
**Generated:** " ++ timestamp ++ "
**Network:** Ethereum

---

## Target Information

".

(** The section of the analysis type; no other type adds one. *)
Definition prompt_section (data : JsVal) (type : string) : M string :=
  if String.eqb type "wallet" then wallet_section data
  else if String.eqb type "contract" then contract_section data
  else if String.eqb type "nft" then nft_section data
  else ret "".

(** [generateAIPrompt(data, type)] *)
Definition generateAIPrompt (data : JsVal) (type : string) : M string :=
  timestamp <- now_iso ;;
  let prompt := prompt_header type timestamp in
  section <- prompt_section data type ;;
  ret (prompt ++ section ++ prompt_footer).

(* ================================================================== *)
(** * src/js/web3-service.js *)

(** [localStorage]: the items by key. *)
Definition Storage : Type := list (string * string).

Fixpoint getItem (storage : Storage) (key : string) : option string :=
  match storage with
  | [] => None
  | (k, v) :: rest => if String.eqb k key then Some v else getItem rest key
  end.

Definition getFromStorage (storage : Storage) (key : string) : option string :=
  getItem storage ("blocktracker_" ++ key).

(** A stored item as a value: the string, or null. *)
Definition stored (item : option string) : JsVal :=
  match item with
  | Some s => JStr s
  | None => JNull
  end.

(** [new Web3Service()] *)
Definition new_Web3Service (storage : Storage) : Web3Service :=
  {| provider := None;
     network :=
       (let n := stored (getFromStorage storage "NETWORK") in
        if Js.truthy n then Js.toString n else "mainnet");
     alchemyKey := getFromStorage storage "ALCHEMY_API_KEY";
     etherscanKey := getFromStorage storage "ETHERSCAN_API_KEY" |}.

(** [this.alchemyKey && this.etherscanKey] *)
Definition hasApiKeys (svc : Web3Service) : JsVal :=
  if Js.truthy (stored (alchemyKey svc)) then stored (etherscanKey svc)
  else stored (alchemyKey svc).

Definition missing_keys_message : string :=
  "Please configure your API keys in Settings (⚙️ button)".

(** The provider's endpoint for the configured network and key. *)
Definition alchemyUrl (svc : Web3Service) : string :=
  "https://eth-" ++ network svc ++ ".g.alchemy.com/v2/"
    ++ Js.toString (stored (alchemyKey svc)).

Definition initialize : M JsVal :=
  try_catch
    (svc <- this ;;
     if negb (Js.truthy (hasApiKeys svc)) then throw (Js.error missing_keys_message)
     else
       set_provider {| rpc_url := alchemyUrl svc |} ;;
       net <- on_provider "getNetwork" up_getNetwork GetNetwork ;;
       console "log" [JStr ("✅ Connected to Ethereum " ++ network svc); net] ;;
       ret (JBool true))
    (fun error =>
       console "error" [JStr "Failed to initialize Web3 service:"; error] ;;
       throw error).

Definition getWalletInfo (address : string) : M JsVal :=
  svc <- this ;;
  (match provider svc with
   | None => initialize ;; ret tt
   | Some _ => ret tt
   end) ;;
  try_catch
    (balanceWei <- on_provider "getBalance"
                     (fun up h url => up_getBalance up h url address)
                     (fun url => GetBalance url address) ;;
     balanceEth <- lift (Ethers.formatEther (JBig balanceWei)) ;;
     txCount <- on_provider "getTransactionCount"
                  (fun up h url => up_getTransactionCount up h url address)
                  (fun url => GetTransactionCount url address) ;;
     blockNumber <- on_provider "getBlockNumber" up_getBlockNumber GetBlockNumber ;;
     ret (Js.object
            [("address", JStr address);
             ("balance", JStr (Num.toFixed (Num.parseFloat balanceEth) 4 ++ " ETH"));
             ("balanceWei", JStr (Str.of_Z balanceWei));
             ("txCount", JNum (Num.of_Z txCount));
             ("blockNumber", JNum (Num.of_Z blockNumber))]))
    (fun error =>
       console "error" [JStr "Error fetching wallet info:"; error] ;;
       message <- get error "message" ;;
       throw (Js.error ("Failed to fetch wallet data: " ++ Js.toString message))).

(** The indexer's endpoint for the configured network. *)
Definition baseUrl (svc : Web3Service) : string :=
  if String.eqb (network svc) "mainnet" then "https://api.etherscan.io/v2/api"
  else "https://api-" ++ network svc ++ ".etherscan.io/v2/api".

Definition txlist_url (svc : Web3Service) (address : string) (limit : Z) : string :=
  baseUrl svc ++ "?chainid=1&module=account&action=txlist&address=" ++ address
    ++ "&startblock=0&endblock=99999999&page=1&offset=" ++ Str.of_Z limit
    ++ "&sort=desc&apikey=" ++ Js.toString (stored (etherscanKey svc)).

(** The callback of [data.result.map] in [getRecentTransactions]. *)
Definition format_transaction (tx : JsVal) : M JsVal :=
  hash <- get tx "hash" ;;
  from <- get tx "from" ;;
  to <- get tx "to" ;;
  value <- get tx "value" ;;
  eth <- lift (Ethers.formatEther value) ;;
  timeStamp <- get tx "timeStamp" ;;
  blockNumber <- get tx "blockNumber" ;;
  isError <- get tx "isError" ;;
  ret (Js.object
         [("hash", hash);
          ("from", from);
          ("to", if Js.truthy to then to else JStr "Contract Creation");
          ("value", JStr (eth ++ " ETH"));
          ("timestamp", JNum (Num.parseInt (Js.toString timeStamp)));
          ("blockNumber", blockNumber);
          ("isError", JBool (Js.strict_eq_str isError "1"))]).

Definition getRecentTransactions (address : string) (limit : Z) : M JsVal :=
  try_catch
    (svc <- this ;;
     data <- fetch_json (txlist_url svc address limit) ;;
     status <- get data "status" ;;
     if negb (Js.strict_eq_str status "1") then
       message <- get data "message" ;;
       console "warn" [JStr "Etherscan API warning:"; message] ;;
       ret (JArr [])
     else
       result <- get data "result" ;;
       items <- array_items result "map" ;;
       txs <- map_m format_transaction items ;;
       ret (JArr txs))
    (fun error =>
       console "error" [JStr "Error fetching transactions:"; error] ;;
       ret (JArr [])).

Definition tokentx_url (svc : Web3Service) (address : string) : string :=
  baseUrl svc ++ "?chainid=1&module=account&action=tokentx&address=" ++ address
    ++ "&page=1&offset=100&sort=desc&apikey=" ++ Js.toString (stored (etherscanKey svc)).

(** [tokenMap.has(key)] on the entries of a [Map], oldest first. *)
Definition Map_has (entries : list (JsVal * JsVal)) (key : JsVal) : bool :=
  existsb (fun kv => Js.same_value_zero (fst kv) key) entries.

(** The [forEach] that groups the transfers by token contract: the first
    transfer of each contract gives the token's entry. *)
Fixpoint group_tokens (txs : list JsVal) (tokenMap : list (JsVal * JsVal))
    : M (list (JsVal * JsVal)) :=
  match txs with
  | [] => ret tokenMap
  | tx :: rest =>
      tokenAddress <- get tx "contractAddress" ;;
      tokenMap' <-
        (if Map_has tokenMap tokenAddress then ret tokenMap
         else
           name <- get tx "tokenName" ;;
           symbol <- get tx "tokenSymbol" ;;
           tokenDecimal <- get tx "tokenDecimal" ;;
           ret (tokenMap ++
                  [(tokenAddress,
                    Js.object
                      [("contractAddress", tokenAddress);
                       ("name", name);
                       ("symbol", symbol);
                       ("decimals", JNum (Num.parseInt (Js.toString tokenDecimal)))])])%list) ;;
      group_tokens rest tokenMap'
  end.

(** The body of the loop over the tokens: the balance call, and the push
    when the balance is positive; a failure is logged and the token left
    out. *)
Definition token_balance (address : string) (token : JsVal)
    (tokensWithBalances : list JsVal) : M (list JsVal) :=
  try_catch
    (balance <- on_contract
                  (fun up h url =>
                     up_balanceOf up h url (Js.field token "contractAddress") address)
                  (fun url => CallBalanceOf url (Js.field token "contractAddress") address) ;;
     if 0 <? balance then
       formattedBalance <-
         lift (Ethers.formatUnits (JBig balance) (Js.field token "decimals")) ;;
       ret (tokensWithBalances ++
              [JObj (Js.put
                       (Js.put (Js.spread token) "balance"
                          (JStr (Num.toFixed (Num.parseFloat formattedBalance) 4)))
                       "rawBalance" (JStr (Str.of_Z balance)))])%list
     else ret tokensWithBalances)
    (fun error =>
       console "warn"
         [JStr ("Failed to get balance for token "
                  ++ Js.toString (Js.field token "symbol") ++ ":"); error] ;;
       ret tokensWithBalances).

Fixpoint token_balances (address : string) (tokens : list JsVal)
    (tokensWithBalances : list JsVal) : M (list JsVal) :=
  match tokens with
  | [] => ret tokensWithBalances
  | token :: rest =>
      pushed <- token_balance address token tokensWithBalances ;;
      token_balances address rest pushed
  end.

(** [(a, b) => parseFloat(b.balance) - parseFloat(a.balance)] *)
Definition by_balance_desc (a b : JsVal) : Num.t :=
  Num.sub (Num.parseFloat (Js.toString (Js.field b "balance")))
          (Num.parseFloat (Js.toString (Js.field a "balance"))).

(** [Array.prototype.sort(compare)]: a stable sort; [x] goes behind [y]
    when [compare(x, y) > 0], and a NaN counts as 0. *)
Fixpoint insert_sorted (compare : JsVal -> JsVal -> Num.t) (x : JsVal)
    (sorted : list JsVal) : list JsVal :=
  match sorted with
  | [] => [x]
  | y :: rest =>
      if Num.is_pos (compare x y) then y :: insert_sorted compare x rest
      else x :: sorted
  end.

Definition Array_sort (compare : JsVal -> JsVal -> Num.t) (items : list JsVal)
    : list JsVal :=
  fold_right (insert_sorted compare) [] items.

Definition getTokenBalances (address : string) : M JsVal :=
  try_catch
    (svc <- this ;;
     data <- fetch_json (tokentx_url svc address) ;;
     status <- get data "status" ;;
     if negb (Js.strict_eq_str status "1") then
       message <- get data "message" ;;
       console "warn" [JStr "Etherscan token API warning:"; message] ;;
       ret (JArr [])
     else
       result <- get data "result" ;;
       txs <- array_items result "forEach" ;;
       tokenMap <- group_tokens txs [] ;;
       let tokens := List.map snd tokenMap in
       tokensWithBalances <- token_balances address (firstn 10 tokens) [] ;;
       ret (JArr (Array_sort by_balance_desc tokensWithBalances)))
    (fun error =>
       console "error" [JStr "Error fetching token balances:"; error] ;;
       ret (JArr [])).

Definition sourcecode_url (svc : Web3Service) (address : string) : string :=
  baseUrl svc ++ "?chainid=1&module=contract&action=getsourcecode&address="
    ++ address ++ "&apikey=" ++ Js.toString (stored (etherscanKey svc)).

Definition not_a_contract_message : string :=
  "This address is not a smart contract (no code deployed)".

Definition not_a_contract_nft_message : string :=
  "This address is not a smart contract".

(** [a || fallback] as a value. *)
Definition or_else (v fallback : JsVal) : JsVal :=
  if Js.truthy v then v else fallback.

Definition getContractInfo (address : string) : M JsVal :=
  try_catch
    (code <- on_provider "getCode"
               (fun up h url => up_getCode up h url address)
               (fun url => GetCode url address) ;;
     if String.eqb code "0x" then throw (Js.error not_a_contract_message)
     else
       svc <- this ;;
       data <- fetch_json (sourcecode_url svc address) ;;
       status <- get data "status" ;;
       unavailable <-
         (if negb (Js.strict_eq_str status "1") then ret true
          else
            result <- get data "result" ;;
            first <- lift (Js.index result 0) ;;
            ret (negb (Js.truthy first))) ;;
       if (unavailable : bool) then
         throw (Js.error "Failed to fetch contract information")
       else
         result <- get data "result" ;;
         contractData <- lift (Js.index result 0) ;;
         name <- get contractData "ContractName" ;;
         compiler <- get contractData "CompilerVersion" ;;
         sourceCode <- get contractData "SourceCode" ;;
         abi <- get contractData "ABI" ;;
         constructorArguments <- get contractData "ConstructorArguments" ;;
         ret (Js.object
                [("address", JStr address);
                 ("name", or_else name (JStr "Unknown"));
                 ("compiler", or_else compiler (JStr "Unknown"));
                 ("verified",
                  JBool (negb (Js.strict_eq_str sourceCode "")
                         && negb (Js.strict_eq_str sourceCode "0x")));
                 ("abi",
                  if negb (Js.strict_eq_str abi "Contract source code not verified")
                  then abi else JNull);
                 ("sourceCode", or_else sourceCode JNull);
                 ("constructorArguments", or_else constructorArguments JNull)]))
    (fun error =>
       console "error" [JStr "Error fetching contract info:"; error] ;;
       throw error).

Definition getNFTInfo (address : string) : M JsVal :=
  try_catch
    (code <- on_provider "getCode"
               (fun up h url => up_getCode up h url address)
               (fun url => GetCode url address) ;;
     if String.eqb code "0x" then throw (Js.error not_a_contract_nft_message)
     else
       name <- try_catch
                 (n <- on_contract (fun up h url => up_name up h url address)
                         (fun url => CallName url address) ;;
                  ret (JStr n))
                 (fun _ => ret (JStr "Unknown")) ;;
       symbol <- try_catch
                   (s <- on_contract (fun up h url => up_symbol up h url address)
                           (fun url => CallSymbol url address) ;;
                    ret (JStr s))
                   (fun _ => ret (JStr "Unknown")) ;;
       totalSupply <- try_catch
                        (t <- on_contract
                                (fun up h url => up_totalSupply up h url address)
                                (fun url => CallTotalSupply url address) ;;
                         ret (JStr (Str.of_Z t)))
                        (fun _ => ret (JStr "Unknown")) ;;
       ret (Js.object
              [("address", JStr address);
               ("name", name);
               ("symbol", symbol);
               ("totalSupply", totalSupply);
               ("type", JStr "ERC-721")]))
    (fun error =>
       console "error" [JStr "Error fetching NFT info:"; error] ;;
       throw error).

Definition getENSName (address : string) : M JsVal :=
  try_catch
    (svc <- this ;;
     if negb (String.eqb (network svc) "mainnet") then ret JNull
     else
       ensName <- on_provider "lookupAddress"
                    (fun up h url => up_lookupAddress up h url address)
                    (fun url => LookupAddress url address) ;;
       ret (stored ensName))
    (fun error =>
       console "error" [JStr "Error fetching ENS name:"; error] ;;
       ret JNull).

(* ================================================================== *)
(** * The application script *)

Definition analyzeWallet (address : string) : M JsVal :=
  console "log" [JStr ("Analyzing wallet: " ++ address)] ;;
  walletInfo <- getWalletInfo address ;;
  transactions <- getRecentTransactions address 10 ;;
  tokens <- getTokenBalances address ;;
  ensName <- getENSName address ;;
  firstTx <-
    (if Js.gt_zero (Js.field transactions "length") then
       oldest <- lift (Js.index transactions (Js.length_of transactions - 1)) ;;
       get oldest "timestamp"
     else ret JNull) ;;
  ret (JObj (fold_left (fun acc kv => Js.put acc (fst kv) (snd kv))
               [("ensName", ensName);
                ("transactions", transactions);
                ("tokens", tokens);
                ("firstTx", firstTx)]
               (Js.spread walletInfo))).

Definition analyzeContract (address : string) : M JsVal :=
  console "log" [JStr ("Analyzing contract: " ++ address)] ;;
  getContractInfo address.

Definition analyzeNFT (address : string) : M JsVal :=
  console "log" [JStr ("Analyzing NFT collection: " ++ address)] ;;
  getNFTInfo address.

(** The report of a mode, as [handleAnalyze] selects it. *)
Definition produceReport (mode : AnalysisMode) (address : string) : M JsVal :=
  match mode with
  | Wallet => analyzeWallet address
  | Contract => analyzeContract address
  | Nft => analyzeNFT address
  end.

(* ================================================================== *)
(** * The vocabulary of the properties *)

(** The canonical form of an address: the two characters 0x, then forty
    hexadecimal characters, and nothing else. *)
Definition hex_characters : list ascii :=
  list_ascii_of_string "0123456789abcdefABCDEF".

Definition canonical_address (s : string) : Prop :=
  exists body,
    s = "0x" ++ body /\
    String.length body = 40%nat /\
    Forall (fun c => In c hex_characters) (list_ascii_of_string body).

(** What is left of the input once [n] characters of a class are read. *)
Fixpoint take_class (ranges : list (ascii * ascii)) (n : nat) (s : string)
    : option string :=
  match n with
  | O => Some s
  | S n' =>
      match s with
      | String a rest =>
          if Regex.in_class ranges a then take_class ranges n' rest else None
      | EmptyString => None
      end
  end.

(** What follows the ampersand in the five entities of the escape map. *)
Definition entity_tails : list string := ["amp;"; "lt;"; "gt;"; "quot;"; "#39;"].

Definition starts_entity (post : string) : Prop :=
  exists e, In e entity_tails /\ String.prefix e post = true.

(** The four characters that [escapeHTML] must not let through. *)
Definition markup_characters : list ascii :=
  ["<"; ">"; Str.dquote; "'"]%char.

(** What [escapeHTML] writes for one character of the input. *)
Definition escape_char (c : ascii) : string :=
  if Regex.in_class
       [("&", "&"); ("<", "<"); (">", ">"); (Str.dquote, Str.dquote); ("'", "'")]%char c
  then Js.toString (Js.field escapeMap (String c EmptyString))
  else String c EmptyString.

(** [p] is a prefix of [s], by recursion on [p]. *)
Fixpoint has_prefix (p s : string) : bool :=
  match p with
  | EmptyString => true
  | String a p' =>
      match s with
      | String b s' => Ascii.eqb a b && has_prefix p' s'
      | EmptyString => false
      end
  end.

(** Every ampersand of [s] starts an entity. *)
Fixpoint ampersands_escaped (s : string) : bool :=
  match s with
  | EmptyString => true
  | String c post =>
      (if Ascii.eqb c "&" then existsb (fun e => has_prefix e post) entity_tails
       else true)
      && ampersands_escaped post
  end.

(** The balance of a holding as the comparison of the sort reads it. *)
Definition decimal_balance (holding : JsVal) : Num.t :=
  Num.parseFloat (Js.toString (Js.field holding "balance")).

(** Descending by decimal balance, equal balances allowed. *)
Definition descending (holdings : list JsVal) : Prop :=
  StronglySorted
    (fun a b => Num.leb (decimal_balance b) (decimal_balance a) = true) holdings.

(** Strictly descending by decimal balance. *)
Definition strictly_descending (holdings : list JsVal) : Prop :=
  StronglySorted
    (fun a b => Num.ltb (decimal_balance b) (decimal_balance a) = true) holdings.

(** The raw balance of a holding is the decimal string of a positive
    integer. *)
Definition positive_raw_balance (holding : JsVal) : Prop :=
  exists z, 0 < z /\ Js.field holding "rawBalance" = JStr (Str.of_Z z).

(** A holding as the loop pushes it: a positive raw balance, and a decimal
    balance that parses. *)
Definition listed (holding : JsVal) : Prop :=
  positive_raw_balance holding /\ decimal_balance holding <> Num.NaN.

(** A string that starts with a decimal digit. *)
Definition starts_with_digit (s : string) : Prop :=
  exists c rest, s = String c rest /\ Str.is_digit c = true.

(** A non-empty string of decimal digits. *)
Definition digit_string (s : string) : Prop :=
  s <> EmptyString /\
  Forall (fun c => Str.is_digit c = true) (list_ascii_of_string s).

(** A run that ended by throwing. *)
Definition threw {A : Type} (run : Result A * World) : Prop :=
  exists e w', run = (Throw e, w').

(** A stored key that cannot be used: the item is absent, or empty. *)
Definition unusable (key : option string) : Prop :=
  key = None \/ key = Some "".

Definition key_absent (svc : Web3Service) : Prop :=
  alchemyKey svc = None \/ etherscanKey svc = None.

(** The reverse lookup fails: there is no provider to ask, or the provider
    throws. *)
Definition lookup_fails (address : string) (w : World) : Prop :=
  provider (service w) = None \/
  exists p e,
    provider (service w) = Some p /\
    up_lookupAddress (upstream w) (history w) (rpc_url p) address = Throw e.

(** What the indexer can answer to a lookup without giving a transaction:
    the transport fails (the fetch or the decoding throws), the envelope does
    not carry the status 1 (the soft failure), or it carries the status 1 and
    an empty list. *)
Inductive without_data : Result JsVal -> Prop :=
| transport_failure : forall e, without_data (Throw e)
| soft_failure : forall data,
    Js.get data "status" <> Ok (JStr "1") -> without_data (Ok data)
| empty_list : forall data,
    Js.get data "status" = Ok (JStr "1") ->
    Js.get data "result" = Ok (JArr []) -> without_data (Ok data).

(** The indexer gives no transactions for the address, whenever asked. *)
Definition no_transactions (address : string) (w : World) : Prop :=
  forall h, without_data (up_fetch_json (upstream w) h (txlist_url (service w) address 10)).

(** The provider is connected and answers the three questions of
    [getWalletInfo], the balance being a uint256. *)
Definition chain_state_answers (address : string) (w : World) : Prop :=
  exists p,
    provider (service w) = Some p /\
    (forall h, exists z,
        up_getBalance (upstream w) h (rpc_url p) address = Ok z /\ 0 <= z < 2 ^ 256) /\
    (forall h, exists n, up_getTransactionCount (upstream w) h (rpc_url p) address = Ok n) /\
    (forall h, exists b, up_getBlockNumber (upstream w) h (rpc_url p) = Ok b).

(** The world once [analyzeWallet] has logged its first line. *)
Definition analysis_started (address : string) (w : World) : World :=
  record_event (Console "log" [JStr ("Analyzing wallet: " ++ address)]) w.

(** What a run leaves alone: the upstream services, the clock, and the
    configuration of the service (everything but its provider). *)
Definition same_configuration (w w' : World) : Prop :=
  upstream w' = upstream w /\
  clock w' = clock w /\
  network (service w') = network (service w) /\
  alchemyKey (service w') = alchemyKey (service w) /\
  etherscanKey (service w') = etherscanKey (service w).

Definition keeps_configuration {A : Type} (c : M A) : Prop :=
  forall w r w', c w = (r, w') -> same_configuration w w'.

(** A computation that never throws. *)
Definition total {A : Type} (c : M A) : Prop :=
  forall w, exists a w', c w = (Ok a, w').

(** A computation that neither reads nor changes the world. *)
Definition pure {A : Type} (c : M A) : Prop :=
  exists r, forall w, c w = (r, w).

(** ** Worlds to run the code in *)

Definition network_error : JsVal := Js.error "network error".

(** Nothing answers. *)
Definition unreachable : Upstream :=
  {| up_getNetwork := fun _ _ => Throw network_error;
     up_getBalance := fun _ _ _ => Throw network_error;
     up_getTransactionCount := fun _ _ _ => Throw network_error;
     up_getBlockNumber := fun _ _ => Throw network_error;
     up_getCode := fun _ _ _ => Throw network_error;
     up_lookupAddress := fun _ _ _ => Throw network_error;
     up_balanceOf := fun _ _ _ _ => Throw network_error;
     up_name := fun _ _ _ => Throw network_error;
     up_symbol := fun _ _ _ => Throw network_error;
     up_totalSupply := fun _ _ _ => Throw network_error;
     up_fetch_json := fun _ _ => Throw network_error |}.

(** An account with 1.5 ether, five transactions sent, no code, and an
    indexer that knows of no transaction and no transfer. *)
Definition no_data : JsVal :=
  Js.object [("status", JStr "0"); ("message", JStr "No transactions found");
             ("result", JArr [])].

Definition plain_account : Upstream :=
  {| up_getNetwork := fun _ _ => Ok (Js.object [("name", JStr "mainnet")]);
     up_getBalance := fun _ _ _ => Ok 1500000000000000000;
     up_getTransactionCount := fun _ _ _ => Ok 5;
     up_getBlockNumber := fun _ _ => Ok 19000000;
     up_getCode := fun _ _ _ => Ok "0x";
     up_lookupAddress := fun _ _ _ => Ok None;
     up_balanceOf := fun _ _ _ _ => Throw network_error;
     up_name := fun _ _ _ => Throw network_error;
     up_symbol := fun _ _ _ => Throw network_error;
     up_totalSupply := fun _ _ _ => Throw network_error;
     up_fetch_json := fun _ _ => Ok no_data |}.

(** A transfer record of the indexer's token list. *)
Definition transfer (contractAddress name symbol decimals : string) : JsVal :=
  Js.object
    [("contractAddress", JStr contractAddress);
     ("tokenName", JStr name);
     ("tokenSymbol", JStr symbol);
     ("tokenDecimal", JStr decimals)].

(** An account that holds one whole token of each of two contracts, and
    one smallest unit of a third. *)
Definition three_tokens : Upstream :=
  {| up_getNetwork := fun _ _ => Ok (Js.object [("name", JStr "mainnet")]);
     up_getBalance := fun _ _ _ => Ok 0;
     up_getTransactionCount := fun _ _ _ => Ok 0;
     up_getBlockNumber := fun _ _ => Ok 19000000;
     up_getCode := fun _ _ _ => Ok "0x";
     up_lookupAddress := fun _ _ _ => Ok None;
     up_balanceOf :=
       (fun _ _ token _ =>
          if Js.strict_eq_str token "0xcccccccccccccccccccccccccccccccccccccccc"
          then Ok 1 else Ok 1000000000000000000);
     up_name := fun _ _ _ => Throw network_error;
     up_symbol := fun _ _ _ => Throw network_error;
     up_totalSupply := fun _ _ _ => Throw network_error;
     up_fetch_json :=
       (fun _ _ =>
          Ok (Js.object
                [("status", JStr "1"); ("message", JStr "OK");
                 ("result",
                  JArr [transfer "0xaaaaaaaaaaaaaaaaaaaaaaaaaaaaaaaaaaaaaaaa" "Alpha" "AAA" "18";
                        transfer "0xbbbbbbbbbbbbbbbbbbbbbbbbbbbbbbbbbbbbbbbb" "Beta" "BBB" "18";
                        transfer "0xcccccccccccccccccccccccccccccccccccccccc" "Gamma" "CCC" "18"])])) |}.

Definition sample_address : string := "0xd8dA6BF26964aF9D7eEd9e03E53415D37aA96045".

Definition configured : Storage :=
  [("blocktracker_ALCHEMY_API_KEY", "alchemy-key");
   ("blocktracker_ETHERSCAN_API_KEY", "etherscan-key")].

Definition world_of (svc : Web3Service) (up : Upstream) : World :=
  {| service := svc; upstream := up; clock := 1700000000123; history := [] |}.

(** The service as constructed, and after a successful [initialize]. *)
Definition fresh_service : Web3Service := new_Web3Service configured.

Definition connected_service : Web3Service :=
  {| provider := Some {| rpc_url := alchemyUrl fresh_service |};
     network := network fresh_service;
     alchemyKey := alchemyKey fresh_service;
     etherscanKey := etherscanKey fresh_service |}.

(** The same configuration on a test network. *)
Definition testnet_service : Web3Service :=
  new_Web3Service (("blocktracker_NETWORK", "sepolia") :: configured).


(* ================================================================== *)
(** * src/js/web3-service.js: saving the configuration *)

(** [localStorage.setItem(key, value)]: the item of a key that is stored
    already is replaced, another key gets a new item.  (The quota of the
    storage is not modelled.) *)
Fixpoint setItem (storage : Storage) (key value : string) : Storage :=
  match storage with
  | [] => [(key, value)]
  | (k, v) :: rest =>
      if String.eqb k key then (key, value) :: rest
      else (k, v) :: setItem rest key value
  end.

(** [saveToStorage(key, value)]; the storage keeps the value as a string. *)
Definition saveToStorage (storage : Storage) (key : string) (value : JsVal)
    : Storage :=
  setItem storage ("blocktracker_" ++ key) (Js.toString value).

(* ================================================================== *)
(** * The page of the application script

    The script reads the address field, writes the text and the markup of
    the elements it looked up by id, shows and hides some of them through the
    class [hidden], and keeps the analysis type and the last report in
    [state].  The page is modelled by what the script can read back or show:
    per element id the text content, the inner markup and whether the element
    is hidden.  The elements that the script looks up are taken to exist, and
    a handler runs to its end before another one starts. *)

(** [toLocaleString('en-US')] on a Number and
    [toLocaleDateString('en-US', ...)] on the date of a Number of seconds:
    what they write depends on the locale data and the time zone of the
    browser. *)
Record Locale : Type := {
  number_en_US : Num.t -> string;
  date_en_US : Num.t -> string
}.

Record Page : Type := {
  input_value : string;              (* elements.addressInput.value *)
  textContent : string -> string;    (* by element id *)
  innerHTML : string -> string;      (* by element id *)
  hidden : string -> bool;           (* classList contains 'hidden', by element id *)
  currentAnalysisType : string;      (* state.currentAnalysisType *)
  currentData : JsVal;               (* state.currentData *)
  listening : bool;                  (* the event listeners are set up *)
  intl : Locale
}.

(** The script at work: the page and the world of the service. *)
Definition UI (A : Type) : Type := Page * World -> Result A * (Page * World).

Definition ui_ret {A : Type} (a : A) : UI A := fun s => (Ok a, s).

Definition ui_bind {A B : Type} (c : UI A) (k : A -> UI B) : UI B :=
  fun s =>
    match c s with
    | (Ok a, s') => k a s'
    | (Throw e, s') => (Throw e, s')
    end.

(** [try { body } catch (error) { handler }] in the script. *)
Definition ui_try {A : Type} (body : UI A) (handler : JsVal -> UI A) : UI A :=
  fun s =>
    match body s with
    | (Ok a, s') => (Ok a, s')
    | (Throw e, s') => handler e s'
    end.


(** [await] of a call into the service or the helpers. *)
Definition await {A : Type} (c : M A) : UI A :=
  fun s =>
    match c (snd s) with
    | (r, w') => (r, (fst s, w'))
    end.

Definition ui_lift {A : Type} (r : Result A) : UI A := fun s => (r, s).

Definition on_page (f : Page -> Page) : UI unit :=
  fun s => (Ok tt, (f (fst s), snd s)).

Definition read_page {A : Type} (f : Page -> A) : UI A :=
  fun s => (Ok (f (fst s)), s).

Declare Scope ui_scope.
Delimit Scope ui_scope with ui.
Notation "x <- c ;; k" := (ui_bind c (fun x => k))
  (at level 61, c at next level, right associativity) : ui_scope.
Notation "c ;; k" := (ui_bind c (fun _ => k))
  (at level 61, right associativity) : ui_scope.
Local Open Scope ui_scope.

(** [element.textContent = value] for the element of an id. *)
Definition set_textContent (id value : string) (p : Page) : Page :=
  {| input_value := input_value p;
     textContent := (fun i => if String.eqb i id then value else textContent p i);
     innerHTML := innerHTML p;
     hidden := hidden p;
     currentAnalysisType := currentAnalysisType p;
     currentData := currentData p;
     listening := listening p;
     intl := intl p |}.

(** [element.innerHTML = markup]. *)
Definition set_innerHTML (id markup : string) (p : Page) : Page :=
  {| input_value := input_value p;
     textContent := textContent p;
     innerHTML := (fun i => if String.eqb i id then markup else innerHTML p i);
     hidden := hidden p;
     currentAnalysisType := currentAnalysisType p;
     currentData := currentData p;
     listening := listening p;
     intl := intl p |}.

(** [element.classList.add('hidden')] and [.remove('hidden')]. *)
Definition set_hidden (id : string) (h : bool) (p : Page) : Page :=
  {| input_value := input_value p;
     textContent := textContent p;
     innerHTML := innerHTML p;
     hidden := (fun i => if String.eqb i id then h else hidden p i);
     currentAnalysisType := currentAnalysisType p;
     currentData := currentData p;
     listening := listening p;
     intl := intl p |}.


Definition set_listening (p : Page) : Page :=
  {| input_value := input_value p;
     textContent := textContent p;
     innerHTML := innerHTML p;
     hidden := hidden p;
     currentAnalysisType := currentAnalysisType p;
     currentData := currentData p;
     listening := true;
     intl := intl p |}.

(** The string that an assignment to [textContent] stores: nothing for
    undefined and null. *)
Definition text_of (v : JsVal) : string :=
  match v with
  | JUndefined | JNull => ""
  | _ => Js.toString v
  end.

(** The double quote of an attribute value. *)
Definition quote_mark : string := String Str.dquote "".

(** ** The helpers, called on any value *)

(** [escapeHTML(str)]: only a string has the method [replace]. *)
Definition escapeHTML_call (str : JsVal) : Result string :=
  match str with
  | JStr s => Ok (escapeHTML s)
  | JUndefined =>
      Throw (Js.type_error "Cannot read properties of undefined (reading 'replace')")
  | JNull =>
      Throw (Js.type_error "Cannot read properties of null (reading 'replace')")
  | _ => Throw (Js.type_error "str.replace is not a function")
  end.

(** [formatNumber(num)] *)
Definition formatNumber (l : Locale) (num : JsVal) : string :=
  number_en_US l (Js.to_number num).

(** [formatDate(timestamp)]; the product with 1000 mixes a BigInt with a
    Number. *)
Definition formatDate (l : Locale) (timestamp : JsVal) : Result string :=
  match timestamp with
  | JBig _ =>
      Throw (Js.type_error "Cannot mix BigInt and other types, use explicit conversions")
  | _ => Ok (date_en_US l (Js.to_number timestamp))
  end.

(** ** The state of the interface *)



Definition showError (message : JsVal) : UI unit :=
  escaped <- ui_lift (escapeHTML_call message) ;;
  on_page (set_textContent "error-message" escaped) ;;
  on_page (set_hidden "error" false).




(** ** The three displays *)

(** One token of the list. *)
Definition token_item (token : JsVal) : Result string :=
  match Js.get token "name" with
  | Throw e => Throw e
  | Ok tokenName =>
  match escapeHTML_call tokenName with
  | Throw e => Throw e
  | Ok name =>
  match escapeHTML_call (Js.field token "symbol") with
  | Throw e => Throw e
  | Ok symbol =>
  let balance := Js.field token "balance" in
  match escapeHTML_call (Js.field token "symbol") with
  | Throw e => Throw e
  | Ok symbol2 =>
  Ok ("
        <div class=" ++ quote_mark ++ "token-item" ++ quote_mark ++ ">
          <div class=" ++ quote_mark ++ "token-info" ++ quote_mark ++ ">
            <div class=" ++ quote_mark ++ "token-name" ++ quote_mark ++ ">" ++
    name ++
    "</div>
            <div class=" ++ quote_mark ++ "token-symbol" ++ quote_mark ++ ">" ++
    symbol ++
    "</div>
          </div>
          <div class=" ++ quote_mark ++ "token-balance" ++ quote_mark ++ ">" ++
    Js.toString balance ++
    " " ++
    symbol2 ++
    "</div>
        </div>
      ")
  end end end end.

(** One transaction of the list. *)
Definition transaction_item (l : Locale) (tx : JsVal) : Result string :=
  match Js.get tx "hash" with
  | Throw e => Throw e
  | Ok txHash =>
  match shortenAddress txHash 10 8 with
  | Throw e => Throw e
  | Ok hash =>
  match shortenAddress_default (Js.field tx "from") with
  | Throw e => Throw e
  | Ok from =>
  match shortenAddress_default (Js.field tx "to") with
  | Throw e => Throw e
  | Ok to =>
  let value := Js.field tx "value" in
  match formatDate l (Js.field tx "timestamp") with
  | Throw e => Throw e
  | Ok date =>
  let status :=
    if Js.truthy (Js.field tx "isError")
    then "<p style=" ++ quote_mark ++ "color: var(--danger-color);" ++ quote_mark ++ "><strong>Status:</strong> Failed</p>"
    else "" in
  Ok ("
        <div class=" ++ quote_mark ++ "transaction-item" ++ quote_mark ++ ">
          <p><strong>Hash:</strong> " ++
    Js.toString hash ++
    "</p>
          <p><strong>From:</strong> " ++
    Js.toString from ++
    "</p>
          <p><strong>To:</strong> " ++
    Js.toString to ++
    "</p>
          <p><strong>Value:</strong> " ++
    Js.toString value ++
    "</p>
          <p><strong>Date:</strong> " ++
    date ++
    "</p>
          " ++
    status ++
    "
        </div>
      ")
  end end end end end.

(** [items.map(f)] with a callback that may throw, outside the service. *)
Fixpoint map_result {A B : Type} (f : A -> Result B) (items : list A)
    : Result (list B) :=
  match items with
  | [] => Ok []
  | x :: rest =>
      match f x with
      | Throw e => Throw e
      | Ok y =>
          match map_result f rest with
          | Throw e => Throw e
          | Ok ys => Ok (y :: ys)
          end
      end
  end.

(** [v.map(f)] on a value of the report. *)
Definition items_of (v : JsVal) (method : string) : Result (list JsVal) :=
  match v with
  | JArr items => Ok items
  | JUndefined | JNull =>
      Throw (Js.type_error
               ("Cannot read properties of undefined or null (reading '" ++ method ++ "')"))
  | _ => Throw (Js.type_error (method ++ " is not a function"))
  end.

Definition displayWalletResults (data : JsVal) : UI unit :=
  l <- read_page intl ;;
  ensName <- ui_lift (Js.get data "ensName") ;;
  shown <- (if Js.truthy ensName then ui_ret ensName
            else ui_lift (shortenAddress_default (Js.field data "address"))) ;;
  on_page (set_textContent "wallet-address" (text_of shown)) ;;
  on_page (set_textContent "wallet-balance" (text_of (Js.field data "balance"))) ;;
  on_page (set_textContent "wallet-tx-count" (formatNumber l (Js.field data "txCount"))) ;;
  firstTx <- (if Js.truthy (Js.field data "firstTx")
              then ui_lift (formatDate l (Js.field data "firstTx"))
              else ui_ret "Unknown") ;;
  on_page (set_textContent "wallet-first-tx" firstTx) ;;
  (if Js.truthy (Js.field data "tokens")
      && Js.gt_zero (Js.field (Js.field data "tokens") "length")
   then
     tokens <- ui_lift (items_of (Js.field data "tokens") "map") ;;
     items <- ui_lift (map_result token_item tokens) ;;
     on_page (set_innerHTML "token-list" (Str.join "" items))
   else
     on_page (set_innerHTML "token-list"
                "<p>No ERC-20 tokens found or still loading...</p>")) ;;
  (if Js.truthy (Js.field data "transactions")
      && Js.gt_zero (Js.field (Js.field data "transactions") "length")
   then
     first <- ui_lift (slice (Js.field data "transactions") 0 5) ;;
     txs <- ui_lift (items_of first "map") ;;
     items <- ui_lift (map_result (transaction_item l) txs) ;;
     on_page (set_innerHTML "transaction-list" (Str.join "" items))
   else
     on_page (set_innerHTML "transaction-list" "<p>No recent transactions found.</p>")) ;;
  on_page (set_hidden "wallet-results" false) ;;
  on_page (set_hidden "contract-results" true) ;;
  on_page (set_hidden "nft-results" true).



Definition generateAndDisplayPrompt (data : JsVal) (type : string) : UI unit :=
  prompt <- await (generateAIPrompt data type) ;;
  on_page (set_textContent "ai-prompt" prompt).

(** ** The handlers *)





(** [setupEventListeners()]: from here on the page calls the handlers. *)
Definition setupEventListeners : UI unit := on_page set_listening.

Definition init : UI unit :=
  await (console "log" [JStr "🚀 BlockTracker initializing..."]) ;;
  setupEventListeners ;;
  ui_try
    (await initialize ;;
     await (console "log" [JStr "✅ Application ready!"]))
    (fun error =>
       message <- ui_lift (Js.get error "message") ;;
       showError (JStr ("Failed to initialize: " ++ Js.toString message))).

Local Close Scope ui_scope.

(* ================================================================== *)
(** * More vocabulary: the helpers, the lookups, the page *)

(** The five characters that [escapeHTML] rewrites. *)
Definition special_characters : list ascii :=
  ["&"; "<"; ">"; Str.dquote; "'"]%char.

(** Text without any of the five characters. *)
Definition plain_text (s : string) : Prop :=
  Forall (fun c => ~ In c special_characters) (list_ascii_of_string s).

(** The error that [getWalletInfo] makes of a failure of its lookups: the
    prefixed message, or the TypeError of reading the message of nothing. *)
Definition wallet_data_error (e : JsVal) : Prop :=
  (exists message, e = Js.error ("Failed to fetch wallet data: " ++ message)) \/
  (exists message, e = Js.type_error message).

(** A computation that leaves the service object as it is, provider
    included. *)
Definition keeps_service {A : Type} (c : M A) : Prop :=
  forall w r w', c w = (r, w') -> service w' = service w.

Definition is_object (v : JsVal) : Prop := exists fields, v = JObj fields.

Definition is_string (v : JsVal) : Prop := exists s, v = JStr s.

(** A transaction as [getRecentTransactions] lists it: an object whose
    recipient is never empty, whose value is a string that ends in the unit,
    whose timestamp is a Number and whose error flag is a boolean. *)
Definition formatted_transaction (tx : JsVal) : Prop :=
  is_object tx /\
  Js.truthy (Js.field tx "to") = true /\
  (exists eth, Js.field tx "value" = JStr (eth ++ " ETH")) /\
  (exists t, Js.field tx "timestamp" = JNum t) /\
  (exists b, Js.field tx "isError" = JBool b).

(** The indexer answers the lookup with the status 1 and a list of [n]
    records. *)
Definition indexer_listed (w : World) (url : string) (n : nat) : Prop :=
  exists data items,
    up_fetch_json (upstream w) (history w) url = Ok data /\
    Js.get data "status" = Ok (JStr "1") /\
    Js.get data "result" = Ok (JArr items) /\
    List.length items = n.

(** The value of a run of decimal digits read after [acc]. *)
Fixpoint uint_value (d : Decimal.uint) (acc : Z) : Z :=
  match d with
  | Decimal.Nil => acc
  | Decimal.D0 l => uint_value l (10 * acc + 0)
  | Decimal.D1 l => uint_value l (10 * acc + 1)
  | Decimal.D2 l => uint_value l (10 * acc + 2)
  | Decimal.D3 l => uint_value l (10 * acc + 3)
  | Decimal.D4 l => uint_value l (10 * acc + 4)
  | Decimal.D5 l => uint_value l (10 * acc + 5)
  | Decimal.D6 l => uint_value l (10 * acc + 6)
  | Decimal.D7 l => uint_value l (10 * acc + 7)
  | Decimal.D8 l => uint_value l (10 * acc + 8)
  | Decimal.D9 l => uint_value l (10 * acc + 9)
  end.

(** Two keys that the [Map] of [getTokenBalances] keeps apart. *)
Definition different_keys (a b : JsVal) : Prop := Js.same_value_zero a b = false.

(** The contract of a token or of a holding. *)
Definition contract_of (token : JsVal) : JsVal := Js.field token "contractAddress".

(** No two holdings are of the same contract. *)
Definition distinct_contracts (holdings : list JsVal) : Prop :=
  ForallOrdPairs (fun a b => different_keys (contract_of a) (contract_of b)) holdings.

(** An entry of the token map: the key is the contract of the token, which
    is an object. *)
Definition token_entry (kv : JsVal * JsVal) : Prop :=
  is_object (snd kv) /\ contract_of (snd kv) = fst kv.

(** What a call on the missing provider throws. *)
Definition no_provider_error : JsVal :=
  Js.type_error "Cannot read properties of null (reading 'getCode')".

(** The first activity that [analyzeWallet] reports: the timestamp of the
    last transaction listed, null when none is. *)
Definition first_activity (txs : list JsVal) : JsVal :=
  match txs with
  | [] => JNull
  | _ => Js.field (last txs JUndefined) "timestamp"
  end.

(** The report that [analyzeWallet] builds on the wallet's object. *)
Definition wallet_report (walletInfo ensName : JsVal) (txs holdings : list JsVal)
    : JsVal :=
  JObj (fold_left (fun acc kv => Js.put acc (fst kv) (snd kv))
          [("ensName", ensName);
           ("transactions", JArr txs);
           ("tokens", JArr holdings);
           ("firstTx", first_activity txs)]
          (Js.spread walletInfo)).

(** A computation that returns the same value in every world, and leaves
    the world as it is. *)
Definition returns {A : Type} (c : M A) : Prop :=
  exists a, forall w, c w = (Ok a, w).

(** What the displays and the prompt leave alone on the page: the three
    indicators, the error text, the address field and the state. *)
Definition same_status (p p' : Page) : Prop :=
  hidden p' "loading" = hidden p "loading" /\
  hidden p' "error" = hidden p "error" /\
  hidden p' "results" = hidden p "results" /\
  textContent p' "error-message" = textContent p "error-message" /\
  currentData p' = currentData p /\
  currentAnalysisType p' = currentAnalysisType p /\
  input_value p' = input_value p /\
  intl p' = intl p.

Definition keeps_status {A : Type} (c : UI A) : Prop :=
  forall s r s', c s = (r, s') -> same_status (fst s) (fst s').




(** ** More worlds, and pages, to run the code in *)

(** The indexer's record of a verified contract. *)
Definition source_record : JsVal :=
  Js.object
    [("status", JStr "1"); ("message", JStr "OK");
     ("result",
      JArr [Js.object
              [("SourceCode", JStr "contract Token {}");
               ("ABI", JStr "[]");
               ("ContractName", JStr "Token");
               ("CompilerVersion", JStr "v0.8.20+commit.a1b79de6");
               ("ConstructorArguments", JStr "")]])].

(** A token contract: code is deployed, the source is verified, and two of
    the three calls of the collection interface answer. *)
Definition token_contract : Upstream :=
  {| up_getNetwork := fun _ _ => Ok (Js.object [("name", JStr "mainnet")]);
     up_getBalance := fun _ _ _ => Ok 0;
     up_getTransactionCount := fun _ _ _ => Ok 1;
     up_getBlockNumber := fun _ _ => Ok 19000000;
     up_getCode := fun _ _ _ => Ok "0x6080604052";
     up_lookupAddress := fun _ _ _ => Ok None;
     up_balanceOf := fun _ _ _ _ => Ok 0;
     up_name := fun _ _ _ => Ok "Token";
     up_symbol := fun _ _ _ => Ok "TKN";
     up_totalSupply := fun _ _ _ => Throw network_error;
     up_fetch_json := fun _ _ => Ok source_record |}.

(** A report whose only token has no name. *)
Definition nameless_token_report : JsVal :=
  Js.object
    [("address", JStr sample_address);
     ("ensName", JNull);
     ("tokens", JArr [Js.object [("name", JNull); ("symbol", JStr "X");
                                 ("balance", JStr "1.0000")]]);
     ("transactions", JArr [])].

(** A browser that writes numbers and dates as Number-to-string does. *)
Definition plain_locale : Locale :=
  {| number_en_US := Num.toString; date_en_US := Num.toString |}.

(** The page as loaded, with an input and an analysis type. *)
Definition page_with (input type : string) : Page :=
  {| input_value := input;
     textContent := fun _ => "";
     innerHTML := fun _ => "";
     hidden := fun _ => true;
     currentAnalysisType := type;
     currentData := JNull;
     listening := false;
     intl := plain_locale |}.

(* ================================================================== *)
(** * Strings and the two regular expressions *)

Section StringFacts.

Lemma substring_0_0 : forall s, String.substring 0 0 s = EmptyString.
Proof. destruct s; reflexivity. Qed.

Lemma list_of_append : forall a b,
  list_ascii_of_string (a ++ b) = (list_ascii_of_string a ++ list_ascii_of_string b)%list.
Proof.
  induction a as [|c a IH]; intros b; simpl; [reflexivity|].
  now rewrite IH.
Qed.

Lemma append_assoc : forall a b c : string, (a ++ b) ++ c = a ++ (b ++ c).
Proof.
  induction a as [|x a IH]; intros b c; simpl; [reflexivity|].
  now rewrite IH.
Qed.

Lemma append_empty_r : forall a : string, a ++ "" = a.
Proof.
  induction a as [|x a IH]; simpl; [reflexivity|]. now rewrite IH.
Qed.

Lemma length_append : forall a b : string,
  String.length (a ++ b) = (String.length a + String.length b)%nat.
Proof.
  induction a as [|x a IH]; intros b; simpl; [reflexivity|]. now rewrite IH.
Qed.

Lemma has_prefix_correct : forall p s,
  has_prefix p s = true -> String.prefix p s = true.
Proof.
  induction p as [|a p IH]; intros s H.
  - destruct s; reflexivity.
  - destruct s as [|b s]; [discriminate H|]. simpl in H.
    apply andb_prop in H. destruct H as [Hab Hp].
    apply Ascii.eqb_eq in Hab. subst b. simpl.
    destruct (ascii_dec a a) as [_|N]; [now apply IH | now elim N].
Qed.

End StringFacts.

Section AddressValidator.

Let hex_ranges : list (ascii * ascii) := [("a", "f"); ("A", "F"); ("0", "9")]%char.

Lemma in_hex_class : forall c,
  Regex.in_class hex_ranges c = true <-> In c hex_characters.
Proof.
  intros c.
  destruct c as [[] [] [] [] [] [] [] []]; vm_compute;
    (split; [intros H; try discriminate H; tauto
            | intros H; try reflexivity;
              repeat (destruct H as [H|H]; [discriminate H|]); destruct H]).
Qed.

Lemma run_repeat_class :
  forall (A : Type) ranges n b s (k : bool -> string -> option A),
    (forall b1 b2 r, k b1 r = k b2 r) ->
    Regex.run (Regex.Repeat (Regex.Class ranges) n) b s k =
    match take_class ranges n s with
    | Some rest => k false rest
    | None => None
    end.
Proof.
  intros A ranges n. induction n as [|n IH]; intros b s k Hk.
  - simpl. apply Hk.
  - destruct s as [|a rest]; [reflexivity|].
    change (Regex.run (Regex.Repeat (Regex.Class ranges) (S n)) b (String a rest) k)
      with (if Regex.in_class ranges a
            then Regex.run (Regex.Repeat (Regex.Class ranges) n) false rest k
            else None).
    simpl take_class. destruct (Regex.in_class ranges a); [|reflexivity].
    now apply IH.
Qed.

Lemma take_class_spec : forall ranges n s rest,
  take_class ranges n s = Some rest <->
  exists h, s = h ++ rest /\ String.length h = n /\
            Forall (fun c => Regex.in_class ranges c = true) (list_ascii_of_string h).
Proof.
  intros ranges n. induction n as [|n IH]; intros s rest; simpl.
  - split.
    + intros H. injection H as ->. exists EmptyString. repeat split. constructor.
    + intros [h [-> [L _]]]. destruct h; [reflexivity | discriminate L].
  - destruct s as [|a s'].
    + split; [discriminate|].
      intros [h [E [L _]]]. destruct h; simpl in *; discriminate.
    + destruct (Regex.in_class ranges a) eqn:Ha.
      * rewrite IH. split.
        -- intros [h [-> [L F]]]. exists (String a h). simpl. repeat split.
           ++ now rewrite L.
           ++ now constructor.
        -- intros [h [E [L F]]]. destruct h as [|c h]; [discriminate L|].
           simpl in E. injection E as -> ->. exists h. repeat split.
           ++ now injection L.
           ++ now inversion F.
      * split; [discriminate|].
        intros [h [E [L F]]]. destruct h as [|c h]; [discriminate L|].
        simpl in E. injection E as -> ->. inversion F as [|? ? Hc _]; subst.
        rewrite Ha in Hc. discriminate Hc.
Qed.

Lemma test_not_at_start : forall s, Regex.test_from address_regex false s = false.
Proof. induction s as [|c s IH]; simpl; auto. Qed.

Lemma match_address : forall s,
  Regex.match_here address_regex true s =
  match s with
  | String "0" (String "x" body) =>
      match take_class hex_ranges 40 body with
      | Some EmptyString => Some EmptyString
      | _ => None
      end
  | _ => None
  end.
Proof.
  intros s. unfold Regex.match_here, address_regex.
  destruct s as [|a s]; [reflexivity|].
  cbn [Regex.run]. destruct (Ascii.eqb a "0") eqn:Ea.
  - apply Ascii.eqb_eq in Ea. subst a.
    destruct s as [|b s]; [reflexivity|].
    destruct (Ascii.eqb b "x") eqn:Eb.
    + apply Ascii.eqb_eq in Eb. subst b.
      change (Regex.run (Regex.Repeat (Regex.Class hex_ranges) 40) false s
                (fun b rest => Regex.run Regex.End_ b rest (fun _ r => Some r)) =
              match take_class hex_ranges 40 s with
              | Some EmptyString => Some EmptyString
              | _ => None
              end).
      rewrite run_repeat_class by reflexivity.
      destruct (take_class hex_ranges 40 s) as [[|c r]|]; reflexivity.
    + destruct b as [[] [] [] [] [] [] [] []]; try discriminate Eb; reflexivity.
  - destruct a as [[] [] [] [] [] [] [] []]; try discriminate Ea; reflexivity.
Qed.

Lemma isValidAddress_iff : forall s,
  isValidAddress s = true <-> canonical_address s.
Proof.
  intros s. unfold isValidAddress, Regex.test.
  assert (E : Regex.test_from address_regex true s =
              match Regex.match_here address_regex true s with
              | Some _ => true
              | None => false
              end).
  { destruct s as [|c s].
    - reflexivity.
    - change (Regex.test_from address_regex true (String c s))
        with (match Regex.match_here address_regex true (String c s) with
              | Some _ => true
              | None => Regex.test_from address_regex false s
              end).
      rewrite test_not_at_start. reflexivity. }
  rewrite E, match_address. split.
  - intros H.
    destruct s as [|a s]; [discriminate H|].
    destruct a as [[] [] [] [] [] [] [] []]; try discriminate H.
    destruct s as [|b s]; [discriminate H|].
    destruct b as [[] [] [] [] [] [] [] []]; try discriminate H.
    destruct (take_class hex_ranges 40 s) as [[|c r]|] eqn:T; try discriminate H.
    apply take_class_spec in T. destruct T as [h [-> [L F]]].
    exists h. rewrite append_empty_r. repeat split; [exact L|].
    eapply Forall_impl; [|exact F]. intros c Hc. now apply in_hex_class.
  - intros [body [-> [L F]]].
    change ("0x" ++ body) with (String "0" (String "x" body)). cbv iota.
    assert (T : take_class hex_ranges 40 body = Some EmptyString).
    { apply take_class_spec. exists body. rewrite append_empty_r.
      repeat split; [exact L|].
      eapply Forall_impl; [|exact F]. intros c Hc. now apply in_hex_class. }
    now rewrite T.
Qed.

End AddressValidator.

(** C6.  Every string that is not of the canonical form (0x followed by
    exactly forty hexadecimal characters, 42 characters in all) is rejected
    by [isValidAddress]. *)
Theorem isValidAddress_rejects_noncanonical : forall s,
  ~ canonical_address s -> isValidAddress s = false.
Proof.
  intros s H. destruct (isValidAddress s) eqn:E; [|reflexivity].
  apply isValidAddress_iff in E. contradiction.
Qed.

Lemma isValidAddress_rejects_witness :
  isValidAddress "0xd8dA6BF26964aF9D7eEd9e03E53415D37aA9604" = false.
Proof.
  apply isValidAddress_rejects_noncanonical.
  intros [body [E [L _]]]. injection E as <-. discriminate L.
Defined.

Section EscapeHTML.

Let escape_callback : string -> string :=
  fun char => Js.toString (Js.field escapeMap char).

Lemma replace_go_escape : forall c s b,
  Regex.replace_go escape_regex escape_callback b 0 (String c s) =
  escape_char c ++ Regex.replace_go escape_regex escape_callback false 0 s.
Proof.
  intros c s b. unfold escape_char.
  cbn [Regex.replace_go Regex.match_here Regex.run escape_regex].
  destruct (Regex.in_class _ c).
  - replace (String.length (String c s) - String.length s)%nat with 1%nat
      by (cbn [String.length]; lia).
    cbn [Nat.eqb Nat.sub String.substring]. rewrite substring_0_0. reflexivity.
  - reflexivity.
Qed.

Lemma escape_char_ampersands : forall c rest,
  ampersands_escaped (escape_char c ++ rest) = ampersands_escaped rest.
Proof.
  intros c rest. destruct c as [[] [] [] [] [] [] [] []]; vm_compute; reflexivity.
Qed.

Lemma escape_char_no_markup : forall c x,
  In x (list_ascii_of_string (escape_char c)) -> ~ In x markup_characters.
Proof.
  intros c x. destruct c as [[] [] [] [] [] [] [] []]; vm_compute;
    intros H;
    repeat (destruct H as [H|H];
            [subst x; intros K;
             repeat (destruct K as [K|K]; [discriminate K|]); exact K|]);
    destruct H.
Qed.

Lemma escaped_ampersands_start_entities : forall pre s post,
  ampersands_escaped s = true ->
  s = pre ++ String "&" post -> starts_entity post.
Proof.
  induction pre as [|x pre IH]; intros s post H ->;
    cbn [append ampersands_escaped] in H.
  - rewrite Ascii.eqb_refl in H. apply andb_prop in H. destruct H as [H _].
    apply existsb_exists in H. destruct H as [e [He Hp]].
    exists e. split; [exact He | now apply has_prefix_correct].
  - apply andb_prop in H. destruct H as [_ H]. eapply IH; [exact H|reflexivity].
Qed.

Lemma escapeHTML_from : forall s b,
  ampersands_escaped (Regex.replace_go escape_regex escape_callback b 0 s) = true /\
  forall x,
    In x (list_ascii_of_string (Regex.replace_go escape_regex escape_callback b 0 s)) ->
    ~ In x markup_characters.
Proof.
  induction s as [|c s IH]; intros b.
  - split; [reflexivity|]. intros x [].
  - rewrite replace_go_escape. destruct (IH false) as [IHa IHm]. split.
    + now rewrite escape_char_ampersands.
    + intros x Hx. rewrite list_of_append in Hx. apply in_app_or in Hx.
      destruct Hx as [Hx|Hx]; [now apply (escape_char_no_markup c)|now apply IHm].
Qed.

End EscapeHTML.

(** C10.  The output of [escapeHTML] contains none of the characters <, >,
    the double quote and the single quote, and every ampersand in it is the
    first character of one of the five entities of the escape map. *)
Theorem escapeHTML_output_is_escaped : forall str,
  (forall c, In c (list_ascii_of_string (escapeHTML str)) ->
             ~ In c markup_characters) /\
  (forall pre post, escapeHTML str = pre ++ String "&" post -> starts_entity post).
Proof.
  intros str. unfold escapeHTML, Regex.replace_all.
  destruct (escapeHTML_from str true) as [Ha Hm]. split.
  - exact Hm.
  - intros pre post E. eapply escaped_ampersands_start_entities; [exact Ha|exact E].
Qed.

Lemma escapeHTML_output_is_escaped_witness : starts_entity "lt;b&gt;".
Proof.
  apply (proj2 (escapeHTML_output_is_escaped "<b>") "" "lt;b&gt;").
  reflexivity.
Defined.

Section IntegersAsNumbers.

Lemma one_positive : 0 < Num.one.
Proof. unfold Num.one. apply Z.pow_pos_nonneg; lia. Qed.

(** An integer below 2^53 in magnitude is a Number, exactly. *)
Lemma of_Z_exact : forall z, Z.abs z < 2 ^ 53 -> Num.of_Z z = Num.Fin (z * Num.one).
Proof.
  intros z Hz. destruct (Z.eq_dec z 0) as [->|N]; [vm_compute; reflexivity|].
  unfold Num.of_Z, Num.of_ratio.
  assert (Ha : 0 < Z.abs z) by lia.
  set (p := Z.abs z * Num.one).
  assert (R : Num.round_units p 1 = p).
  { unfold Num.round_units. rewrite Z.div_1_r, Z.mul_1_l.
    assert (Big : 2 ^ 53 <= p).
    { unfold p, Num.one.
      transitivity (1 * 2 ^ 1074); [|apply Z.mul_le_mono_nonneg_r; lia].
      rewrite Z.mul_1_l. apply Z.pow_le_mono_r; lia. }
    replace (p <? 2 ^ 53) with false by (symmetry; apply Z.ltb_ge; exact Big).
    assert (L : Z.log2 p = 1074 + Z.log2 (Z.abs z)).
    { unfold p, Num.one. apply Z.log2_mul_pow2; lia. }
    assert (L0 : 0 <= Z.log2 (Z.abs z)) by apply Z.log2_nonneg.
    assert (L1 : Z.log2 (Z.abs z) < 53) by (apply Z.log2_lt_pow2; lia).
    rewrite L. set (shift := 1074 + Z.log2 (Z.abs z) - 52).
    assert (E : p = Z.abs z * 2 ^ (1074 - shift) * 2 ^ shift).
    { unfold p, Num.one. rewrite <- Z.mul_assoc, <- Z.pow_add_r by (unfold shift; lia).
      f_equal. f_equal. lia. }
    assert (P2 : 0 < 2 ^ shift) by (apply Z.pow_pos_nonneg; unfold shift; lia).
    assert (M : p mod 2 ^ shift = 0) by (rewrite E; apply Z.mod_mul; lia).
    assert (D : p / 2 ^ shift = Z.abs z * 2 ^ (1074 - shift))
      by (rewrite E at 1; apply Z.div_mul; lia).
    unfold Num.round_half_even. rewrite M, D.
    replace (2 * 0 <? 2 ^ shift) with true by (symmetry; apply Z.ltb_lt; lia).
    symmetry. exact E. }
  rewrite R. unfold Num.pack.
  assert (Small : p < 2 ^ 2098).
  { unfold p, Num.one.
    apply Z.lt_le_trans with (m := 2 ^ 53 * 2 ^ 1074).
    - apply Z.mul_lt_mono_pos_r; [apply Z.pow_pos_nonneg; lia | exact Hz].
    - rewrite <- Z.pow_add_r by lia. apply Z.pow_le_mono_r; lia. }
  replace (2 ^ 2098 <=? p) with false by (symmetry; apply Z.leb_gt; exact Small).
  f_equal. unfold p. destruct (Z.ltb_spec z 0); lia.
Qed.

Lemma leb_of_Z : forall n m,
  Z.abs n < 2 ^ 53 -> Z.abs m < 2 ^ 53 ->
  Num.leb (Num.of_Z n) (Num.of_Z m) = (n <=? m).
Proof.
  intros n m Hn Hm. rewrite (of_Z_exact n Hn), (of_Z_exact m Hm). cbn [Num.leb].
  pose proof one_positive as One.
  destruct (Z.leb_spec n m); [apply Z.leb_le | apply Z.leb_gt]; nia.
Qed.

End IntegersAsNumbers.

Section Shortening.

(** A falsy address gives the empty string. *)
Lemma shortenAddress_falsy : forall address startChars endChars,
  Js.truthy address = false ->
  shortenAddress address startChars endChars = Ok (JStr "").
Proof.
  intros address startChars endChars H. unfold shortenAddress. now rewrite H.
Qed.

(** A string no longer than the two counts together comes back unchanged. *)
Lemma shortenAddress_short : forall s startChars endChars,
  Str.len s < 2 ^ 53 -> Z.abs (startChars + endChars) < 2 ^ 53 ->
  Str.len s <= startChars + endChars ->
  shortenAddress (JStr s) startChars endChars = Ok (JStr s).
Proof.
  intros s startChars endChars Hs Hc Hle. unfold shortenAddress.
  destruct (Js.truthy (JStr s)) eqn:T; cbn [negb].
  - unfold Js.field. rewrite String.eqb_refl. cbn [le_integer Js.to_number].
    rewrite leb_of_Z by (unfold Str.len in *; lia).
    apply Z.leb_le in Hle. now rewrite Hle.
  - simpl in T. destruct s; [reflexivity | discriminate T].
Qed.

(** A longer string, with at least one character asked for at the end:
    the first [startChars] characters, three dots, the last [endChars]
    characters. *)
Lemma shortenAddress_long : forall s startChars endChars,
  Str.len s < 2 ^ 53 ->
  0 <= startChars -> 1 <= endChars -> startChars + endChars < Str.len s ->
  shortenAddress (JStr s) startChars endChars =
  Ok (JStr (String.substring 0 (Z.to_nat startChars) s ++ "..." ++
            String.substring (String.length s - Z.to_nat endChars)
                             (Z.to_nat endChars) s)).
Proof.
  intros s startChars endChars Hs Ha Hb Hlt. unfold shortenAddress.
  assert (T : Js.truthy (JStr s) = true).
  { destruct s; [unfold Str.len in Hlt; simpl in Hlt; lia | reflexivity]. }
  rewrite T. unfold Js.field. rewrite String.eqb_refl.
  cbn [negb le_integer Js.to_number].
  rewrite leb_of_Z by (unfold Str.len in *; lia).
  replace (Str.len s <=? startChars + endChars) with false
    by (symmetry; apply Z.leb_gt; exact Hlt).
  cbn [slice slice_from Js.toString]. do 3 f_equal.
  - unfold Str.slice, Str.rel_index. rewrite Z.ltb_irrefl.
    replace (startChars <? 0) with false by (symmetry; apply Z.ltb_ge; lia).
    f_equal; unfold Str.len in *; lia.
  - f_equal. unfold Str.slice_from, Str.slice, Str.rel_index.
    replace (- endChars <? 0) with true by (symmetry; apply Z.ltb_lt; lia).
    replace (Str.len s <? 0) with false
      by (symmetry; apply Z.ltb_ge; unfold Str.len; lia).
    f_equal; unfold Str.len in *; lia.
Qed.

End Shortening.

(** C9, at the input where the code departs from its documentation: with
    [endChars = 0] the tail [address.slice(-0)] is the whole address, so the
    result ends with all 42 characters and not with the last zero of them.
    (The three lemmas above are the three cases where the code does what is
    documented.) *)
Theorem shortenAddress_zero_endChars :
  shortenAddress (JStr "0xd8dA6BF26964aF9D7eEd9e03E53415D37aA96045") 6 0 =
  Ok (JStr "0xd8dA...0xd8dA6BF26964aF9D7eEd9e03E53415D37aA96045").
Proof. vm_compute. reflexivity. Qed.

(* ================================================================== *)
(** * The service: configuration, fatal outcomes, name resolution *)

Section ServiceFacts.

Lemma stored_unusable : forall key,
  unusable key <-> Js.truthy (stored key) = false.
Proof.
  intros key. unfold unusable. split.
  - intros [-> | ->]; reflexivity.
  - destruct key as [s|]; [|now left]. simpl. intros H. right.
    destruct s; [reflexivity | discriminate H].
Qed.

Lemma hasApiKeys_falsy : forall svc,
  Js.truthy (hasApiKeys svc) = false <->
  unusable (alchemyKey svc) \/ unusable (etherscanKey svc).
Proof.
  intros svc. unfold hasApiKeys. rewrite !stored_unusable.
  destruct (Js.truthy (stored (alchemyKey svc))) eqn:E; split; intros H.
  - now right.
  - destruct H as [H|H]; [discriminate H | exact H].
  - now left.
  - exact E.
Qed.

(** Without usable keys [initialize] throws the configuration error and
    does nothing but log it. *)
Lemma initialize_without_keys : forall w,
  Js.truthy (hasApiKeys (service w)) = false ->
  initialize w =
  (Throw (Js.error missing_keys_message),
   record_event
     (Console "error" [JStr "Failed to initialize Web3 service:";
                       Js.error missing_keys_message]) w).
Proof.
  intros w H. unfold initialize, try_catch, bind, this, throw, console.
  rewrite H. reflexivity.
Qed.

(** With usable keys the outcome of [initialize] is that of the network
    probe on the new provider. *)
Lemma initialize_with_keys : forall w,
  Js.truthy (hasApiKeys (service w)) = true ->
  exists w',
    initialize w =
    (match up_getNetwork (upstream w) (history w) (alchemyUrl (service w)) with
     | Ok _ => Ok (JBool true)
     | Throw e => Throw e
     end, w') /\
    provider (service w') = Some {| rpc_url := alchemyUrl (service w) |}.
Proof.
  intros [svc up clk h] H. cbn [service] in H.
  unfold initialize, try_catch, bind, this, throw, console, set_provider,
    on_provider, ret.
  cbn [service upstream history clock]. rewrite H.
  cbn -[alchemyUrl].
  destruct (up_getNetwork up h (alchemyUrl svc)); eexists; split; reflexivity.
Qed.

End ServiceFacts.

(** C8, as the code has it.  Whenever either key is absent (or empty),
    [initialize] fails with the configuration error, leaves the service as it
    was (no provider is set) and asks nothing of the provider: the only event
    is the logged error.  The converse does not hold: with both keys in place
    [initialize] fails exactly when the network probe of the new provider
    fails. *)
Theorem initialize_refuses_without_keys : forall w,
  (unusable (alchemyKey (service w)) \/ unusable (etherscanKey (service w)) ->
   exists w',
     initialize w = (Throw (Js.error missing_keys_message), w') /\
     service w' = service w /\
     history w' =
       Console "error" [JStr "Failed to initialize Web3 service:";
                        Js.error missing_keys_message] :: history w) /\
  (~ (unusable (alchemyKey (service w)) \/ unusable (etherscanKey (service w))) ->
   (threw (initialize w) <->
    exists e,
      up_getNetwork (upstream w) (history w) (alchemyUrl (service w)) = Throw e)).
Proof.
  intros w. split.
  - intros H. apply hasApiKeys_falsy in H.
    rewrite (initialize_without_keys w H). eexists. repeat split.
  - intros H.
    assert (K : Js.truthy (hasApiKeys (service w)) = true).
    { destruct (Js.truthy (hasApiKeys (service w))) eqn:E; [reflexivity|].
      apply hasApiKeys_falsy in E. contradiction. }
    destruct (initialize_with_keys w K) as [w' [E _]]. rewrite E. unfold threw.
    destruct (up_getNetwork (upstream w) (history w) (alchemyUrl (service w)))
      as [net|e].
    + split.
      * intros [e [w'' X]]. discriminate X.
      * intros [e X]. discriminate X.
    + split.
      * intros _. now exists e.
      * intros _. now exists e, w'.
Qed.

Lemma initialize_refuses_without_keys_witness :
  exists w',
    initialize (world_of (new_Web3Service []) plain_account) =
      (Throw (Js.error missing_keys_message), w') /\
    service w' = new_Web3Service [] /\
    history w' =
      [Console "error" [JStr "Failed to initialize Web3 service:";
                        Js.error missing_keys_message]].
Proof.
  apply (proj1 (initialize_refuses_without_keys
                  (world_of (new_Web3Service []) plain_account))).
  left. left. reflexivity.
Defined.

(** C8, as stated, fails: both keys are configured and the provider is
    unreachable, and [initialize] is fatal all the same. *)
Lemma initialize_fatal_with_both_keys :
  ~ (forall w, threw (initialize w) <-> key_absent (service w)).
Proof.
  intros H.
  destruct (H (world_of fresh_service unreachable)) as [H1 _].
  assert (T : threw (initialize (world_of fresh_service unreachable))).
  { eexists. eexists. vm_compute. reflexivity. }
  destruct (H1 T) as [K|K]; discriminate K.
Qed.

(** C4.  When the code at the address is empty ([getCode] answers 0x), the
    contract-mode and the NFT-mode reports both end in the fatal
    not-a-contract error: they throw, and return no report. *)
Theorem empty_code_is_not_a_contract : forall address w p,
  provider (service w) = Some p ->
  (forall h, up_getCode (upstream w) h (rpc_url p) address = Ok "0x") ->
  fst (produceReport Contract address w) = Throw (Js.error not_a_contract_message) /\
  fst (produceReport Nft address w) = Throw (Js.error not_a_contract_nft_message).
Proof.
  intros address w p Hp Hcode. split.
  - unfold produceReport, analyzeContract, getContractInfo, try_catch, bind,
      console, on_provider, throw.
    cbn [record_event service upstream history provider].
    rewrite Hp, Hcode. reflexivity.
  - unfold produceReport, analyzeNFT, getNFTInfo, try_catch, bind,
      console, on_provider, throw.
    cbn [record_event service upstream history provider].
    rewrite Hp, Hcode. reflexivity.
Qed.

Lemma empty_code_is_not_a_contract_witness :
  fst (produceReport Contract sample_address (world_of connected_service plain_account))
    = Throw (Js.error not_a_contract_message) /\
  fst (produceReport Nft sample_address (world_of connected_service plain_account))
    = Throw (Js.error not_a_contract_nft_message).
Proof.
  apply (empty_code_is_not_a_contract sample_address
           (world_of connected_service plain_account)
           {| rpc_url := alchemyUrl fresh_service |}).
  - reflexivity.
  - intros h. reflexivity.
Defined.

(** C7.  Off the main network [getENSName] answers null and changes nothing:
    no event is recorded, so the provider is never asked.  On the main
    network a failing lookup (no provider, or a provider that throws) gives
    null as well. *)
Theorem getENSName_only_on_mainnet : forall address w,
  (network (service w) <> "mainnet" -> getENSName address w = (Ok JNull, w)) /\
  (network (service w) = "mainnet" -> lookup_fails address w ->
   fst (getENSName address w) = Ok JNull).
Proof.
  intros address w. split.
  - intros H. apply String.eqb_neq in H.
    unfold getENSName, try_catch, bind, this, ret. rewrite H. reflexivity.
  - intros H F.
    unfold getENSName, try_catch, bind, this, ret, on_provider, console.
    rewrite H, String.eqb_refl. cbv beta iota delta [negb].
    destruct F as [F | [p [e [F1 F2]]]].
    + rewrite F. reflexivity.
    + rewrite F1, F2. reflexivity.
Qed.

Lemma getENSName_only_on_mainnet_witness :
  getENSName sample_address (world_of testnet_service plain_account) =
    (Ok JNull, world_of testnet_service plain_account) /\
  fst (getENSName sample_address (world_of connected_service unreachable)) = Ok JNull.
Proof.
  split.
  - apply (proj1 (getENSName_only_on_mainnet sample_address
                    (world_of testnet_service plain_account))).
    vm_compute. discriminate.
  - apply (proj2 (getENSName_only_on_mainnet sample_address
                    (world_of connected_service unreachable))).
    + reflexivity.
    + right. eexists. eexists. split; reflexivity.
Defined.

(* ================================================================== *)
(** * Asynchronous code: what a run keeps, and when it cannot throw *)

Section Frames.

Lemma same_configuration_refl : forall w, same_configuration w w.
Proof. intros w. repeat split. Qed.

Lemma same_configuration_trans : forall w1 w2 w3,
  same_configuration w1 w2 -> same_configuration w2 w3 -> same_configuration w1 w3.
Proof.
  unfold same_configuration.
  intros w1 w2 w3 (A1 & A2 & A3 & A4 & A5) (B1 & B2 & B3 & B4 & B5).
  repeat split; congruence.
Qed.

Lemma keeps_ret : forall (A : Type) (a : A), keeps_configuration (ret a).
Proof.
  intros A a w r w' E. injection E as _ <-. apply same_configuration_refl.
Qed.

Lemma keeps_throw : forall (A : Type) e, keeps_configuration (@throw A e).
Proof.
  intros A e w r w' E. injection E as _ <-. apply same_configuration_refl.
Qed.

Lemma keeps_lift : forall (A : Type) (x : Result A), keeps_configuration (lift x).
Proof.
  intros A x w r w' E. injection E as _ <-. apply same_configuration_refl.
Qed.

Lemma keeps_this : keeps_configuration this.
Proof.
  intros w r w' E. injection E as _ <-. apply same_configuration_refl.
Qed.

Lemma keeps_get : forall v k, keeps_configuration (get v k).
Proof. intros v k. apply keeps_lift. Qed.

Lemma keeps_console : forall level args, keeps_configuration (console level args).
Proof.
  intros level args w r w' E. injection E as _ <-. repeat split.
Qed.

Lemma keeps_set_provider : forall p, keeps_configuration (set_provider p).
Proof.
  intros p w r w' E. injection E as _ <-. repeat split.
Qed.

Lemma keeps_on_provider :
  forall (A : Type) method (answer : Upstream -> History -> string -> Result A) request,
    keeps_configuration (on_provider method answer request).
Proof.
  intros A method answer request w r w' E. unfold on_provider in E.
  destruct (provider (service w)); injection E as _ <-; repeat split.
Qed.

Lemma keeps_on_contract :
  forall (A : Type) (answer : Upstream -> History -> string -> Result A) request,
    keeps_configuration (on_contract answer request).
Proof.
  intros A answer request w r w' E. unfold on_contract in E.
  destruct (provider (service w)); injection E as _ <-; repeat split.
Qed.

Lemma keeps_fetch_json : forall url, keeps_configuration (fetch_json url).
Proof.
  intros url w r w' E. injection E as _ <-. repeat split.
Qed.

Lemma keeps_bind : forall (A B : Type) (c : M A) (k : A -> M B),
  keeps_configuration c -> (forall a, keeps_configuration (k a)) ->
  keeps_configuration (bind c k).
Proof.
  intros A B c k Hc Hk w r w' E. unfold bind in E.
  destruct (c w) as [[a|e] w1] eqn:Ec.
  - eapply same_configuration_trans; [eapply Hc; exact Ec | eapply Hk; exact E].
  - injection E as _ <-. eapply Hc; exact Ec.
Qed.

Lemma keeps_try_catch : forall (A : Type) (body : M A) handler,
  keeps_configuration body -> (forall e, keeps_configuration (handler e)) ->
  keeps_configuration (try_catch body handler).
Proof.
  intros A body handler Hb Hh w r w' E. unfold try_catch in E.
  destruct (body w) as [[a|e] w1] eqn:Eb.
  - injection E as _ <-. eapply Hb; exact Eb.
  - eapply same_configuration_trans; [eapply Hb; exact Eb | eapply Hh; exact E].
Qed.

Lemma total_try_catch : forall (A : Type) (body : M A) handler,
  (forall e, total (handler e)) -> total (try_catch body handler).
Proof.
  intros A body handler Hh w. unfold try_catch.
  destruct (body w) as [[a|e] w1].
  - now exists a, w1.
  - apply Hh.
Qed.

End Frames.

Ltac keeps_step :=
  match goal with
  | |- keeps_configuration (bind _ _) => apply keeps_bind
  | |- keeps_configuration (try_catch _ _) => apply keeps_try_catch
  | |- keeps_configuration (ret _) => apply keeps_ret
  | |- keeps_configuration (throw _) => apply keeps_throw
  | |- keeps_configuration (lift _) => apply keeps_lift
  | |- keeps_configuration (get _ _) => apply keeps_get
  | |- keeps_configuration this => apply keeps_this
  | |- keeps_configuration (console _ _) => apply keeps_console
  | |- keeps_configuration (set_provider _) => apply keeps_set_provider
  | |- keeps_configuration (on_provider _ _ _) => apply keeps_on_provider
  | |- keeps_configuration (on_contract _ _) => apply keeps_on_contract
  | |- keeps_configuration (fetch_json _) => apply keeps_fetch_json
  | |- keeps_configuration (if ?b then _ else _) => destruct b
  | |- keeps_configuration (match ?x with _ => _ end) => destruct x
  | |- forall _, _ => intro
  end.

Section WalletLookups.

Lemma keeps_initialize : keeps_configuration initialize.
Proof. unfold initialize. repeat keeps_step. Qed.

Lemma keeps_getWalletInfo : forall address,
  keeps_configuration (getWalletInfo address).
Proof.
  intros address. unfold getWalletInfo.
  repeat first [apply keeps_initialize | keeps_step].
Qed.

Lemma total_getENSName : forall address, total (getENSName address).
Proof.
  intros address. unfold getENSName. apply total_try_catch.
  intros e w. eexists. eexists. reflexivity.
Qed.

Lemma total_getTokenBalances : forall address, total (getTokenBalances address).
Proof.
  intros address. unfold getTokenBalances. apply total_try_catch.
  intros e w. eexists. eexists. reflexivity.
Qed.

Lemma strict_eq_str_true : forall v s, Js.strict_eq_str v s = true <-> v = JStr s.
Proof.
  intros v s. destruct v; simpl; try (split; [discriminate | discriminate]).
  rewrite String.eqb_eq. split; [now intros -> | now intros [= ->]].
Qed.

(** An envelope whose status could be read has a message to read, too. *)
Lemma get_after_get : forall data k1 k2 v,
  Js.get data k1 = Ok v -> exists m, Js.get data k2 = Ok m.
Proof.
  intros data k1 k2 v H. destruct data; try discriminate H; eexists; reflexivity.
Qed.

(** No transactions: [getRecentTransactions] returns the empty array,
    whichever way the lookup failed. *)
Lemma getRecentTransactions_empty : forall address limit w,
  without_data (up_fetch_json (upstream w) (history w)
                  (txlist_url (service w) address limit)) ->
  exists w', getRecentTransactions address limit w = (Ok (JArr []), w').
Proof.
  intros address limit w F.
  unfold getRecentTransactions, try_catch, bind, this, fetch_json, get, lift,
    console, ret.
  destruct F as [e | data F | data F1 F2].
  - eexists. reflexivity.
  - destruct (Js.get data "status") as [status|e] eqn:Es.
    + destruct (Js.strict_eq_str status "1") eqn:E1.
      * apply strict_eq_str_true in E1. subst status. now elim F.
      * destruct (get_after_get data "status" "message" status Es) as [m Em].
        rewrite Em. cbn [negb]. eexists. reflexivity.
    + eexists. reflexivity.
  - rewrite F1, F2. eexists. reflexivity.
Qed.

Lemma lookup_put_same : forall fields k v,
  Js.lookup (Js.put fields k v) k = Some v.
Proof.
  induction fields as [|[k' v'] rest IH]; intros k v; simpl.
  - now rewrite String.eqb_refl.
  - destruct (String.eqb k' k) eqn:E; simpl.
    + now rewrite String.eqb_refl.
    + rewrite E. apply IH.
Qed.

Lemma lookup_put_other : forall fields k v k',
  k <> k' -> Js.lookup (Js.put fields k v) k' = Js.lookup fields k'.
Proof.
  induction fields as [|[k0 v0] rest IH]; intros k v k' N; simpl.
  - apply String.eqb_neq in N. now rewrite N.
  - destruct (String.eqb k0 k) eqn:E; simpl.
    + apply String.eqb_eq in E. subst k0.
      apply String.eqb_neq in N. now rewrite N.
    + destruct (String.eqb k0 k'); [reflexivity | now apply IH].
Qed.

End WalletLookups.

Section WalletInfo.

Lemma formatEther_bigint : forall z,
  - 2 ^ 511 <= z < 2 ^ 511 ->
  Ethers.formatEther (JBig z) = Ok (Ethers.fixed_toString z 18).
Proof.
  intros z [Lo Hi].
  unfold Ethers.formatEther, Ethers.formatUnits, Ethers.formatDecimals.
  replace (Ethers.getNumber (Num.of_Z 18)) with (@Ok Z 18)
    by (vm_compute; reflexivity).
  cbn [Z.ltb Z.compare Pos.compare Pos.compare_cont Ethers.getBigInt].
  apply Z.leb_le in Lo. apply Z.ltb_lt in Hi. rewrite Lo, Hi. reflexivity.
Qed.

(** The object that [getWalletInfo] returns for the three answers. *)
Lemma getWalletInfo_connected : forall address w,
  chain_state_answers address w ->
  exists z n b w',
    - 2 ^ 511 <= z < 2 ^ 511 /\
    getWalletInfo address w =
    (Ok (Js.object
           [("address", JStr address);
            ("balance",
             JStr (Num.toFixed (Num.parseFloat (Ethers.fixed_toString z 18)) 4 ++ " ETH"));
            ("balanceWei", JStr (Str.of_Z z));
            ("txCount", JNum (Num.of_Z n));
            ("blockNumber", JNum (Num.of_Z b))]), w') /\
    up_getBalance (upstream w) (history w)
      (match provider (service w) with Some p => rpc_url p | None => "" end) address = Ok z.
Proof.
  intros address w (p & Hp & Hbal & Htx & Hblock).
  destruct (Hbal (history w)) as (z & Ez & Rz).
  assert (Rz' : - 2 ^ 511 <= z < 2 ^ 511) by (split; lia).
  unfold getWalletInfo, try_catch, bind, this, ret, lift, on_provider.
  cbn [record_event service upstream history provider].
  rewrite Hp. cbn [record_event service upstream history provider].
  rewrite Hp, Ez, (formatEther_bigint z Rz').
  cbn [record_event service upstream history provider]. rewrite Hp.
  match goal with
  | |- context [up_getTransactionCount ?u ?h ?url ?a] =>
      destruct (Htx h) as (n & En); rewrite En
  end.
  cbn [record_event service upstream history provider]. rewrite Hp.
  match goal with
  | |- context [up_getBlockNumber ?u ?h ?url] =>
      destruct (Hblock h) as (b & Eb); rewrite Eb
  end.
  exists z, n, b. eexists. split; [exact Rz'|]. split; reflexivity.
Qed.

End WalletInfo.

(** C5.  With the balance 1500000000000000000 (in the smallest unit, 18
    decimal places) [getWalletInfo] returns the display balance 1.5000 ETH,
    four decimals, and beside it the raw integer as the very same string of
    digits. *)
Theorem getWalletInfo_normalizes_balance : forall address w,
  chain_state_answers address w ->
  (forall p h, up_getBalance (upstream w) h (rpc_url p) address = Ok 1500000000000000000) ->
  exists info w',
    getWalletInfo address w = (Ok info, w') /\
    Js.field info "balance" = JStr "1.5000 ETH" /\
    Js.field info "balanceWei" = JStr "1500000000000000000".
Proof.
  intros address w H Hb.
  destruct H as (p & Hp & H).
  destruct (getWalletInfo_connected address w (ex_intro _ p (conj Hp H)))
    as (z & n & b & w' & Rz & E & Ez).
  rewrite Hp, Hb in Ez. injection Ez as <-.
  exists (Js.object
            [("address", JStr address);
             ("balance",
              JStr (Num.toFixed
                      (Num.parseFloat (Ethers.fixed_toString 1500000000000000000 18)) 4
                    ++ " ETH"));
             ("balanceWei", JStr (Str.of_Z 1500000000000000000));
             ("txCount", JNum (Num.of_Z n));
             ("blockNumber", JNum (Num.of_Z b))]), w'.
  split; [exact E|]. split; vm_compute; reflexivity.
Qed.

Lemma getWalletInfo_normalizes_balance_witness :
  exists info w',
    getWalletInfo sample_address (world_of connected_service plain_account) = (Ok info, w') /\
    Js.field info "balance" = JStr "1.5000 ETH" /\
    Js.field info "balanceWei" = JStr "1500000000000000000".
Proof.
  apply getWalletInfo_normalizes_balance.
  - exists {| rpc_url := alchemyUrl fresh_service |}.
    split; [reflexivity|]. repeat split.
    + intros h. exists 1500000000000000000. split; [reflexivity|]. split; [lia|].
      vm_compute. reflexivity.
    + intros h. now exists 5.
    + intros h. now exists 19000000.
  - intros p h. reflexivity.
Defined.

Section WalletAnalysis.

Lemma txlist_url_same : forall svc svc' address limit,
  network svc' = network svc -> etherscanKey svc' = etherscanKey svc ->
  txlist_url svc' address limit = txlist_url svc address limit.
Proof.
  intros svc svc' address limit Hn Hk. unfold txlist_url, baseUrl.
  now rewrite Hn, Hk.
Qed.

Lemma no_transactions_later : forall address w w',
  same_configuration w w' -> no_transactions address w -> no_transactions address w'.
Proof.
  intros address w w' (Hu & _ & Hn & _ & Hk) H h. unfold no_transactions in H.
  rewrite Hu, (txlist_url_same (service w) (service w') address 10 Hn Hk). apply H.
Qed.

(** What [analyzeWallet] makes of the outcome of [getWalletInfo] when the
    indexer has no transactions: the error, passed on, or the wallet's
    object with the four fields added. *)
Lemma analyzeWallet_outcome : forall address w r w1,
  no_transactions address w ->
  getWalletInfo address (analysis_started address w) = (r, w1) ->
  match r with
  | Throw e => analyzeWallet address w = (Throw e, w1)
  | Ok walletInfo =>
      exists ensName tokens w',
        analyzeWallet address w =
        (Ok (JObj (fold_left (fun acc kv => Js.put acc (fst kv) (snd kv))
                     [("ensName", ensName);
                      ("transactions", JArr []);
                      ("tokens", tokens);
                      ("firstTx", JNull)]
                     (Js.spread walletInfo))), w')
  end.
Proof.
  intros address w r w1 Hno E.
  assert (Start : forall (k : JsVal -> M JsVal),
             (console "log" [JStr ("Analyzing wallet: " ++ address)] ;;
              walletInfo <- getWalletInfo address ;; k walletInfo) w =
             match r with
             | Ok walletInfo => k walletInfo w1
             | Throw e => (Throw e, w1)
             end).
  { intros k. unfold bind, console. fold (analysis_started address w).
    rewrite E. reflexivity. }
  unfold analyzeWallet.
  destruct r as [walletInfo|e]; [|apply Start].
  assert (S1 : same_configuration w w1).
  { eapply same_configuration_trans;
      [|eapply keeps_getWalletInfo; exact E]. repeat split. }
  destruct (getRecentTransactions_empty address 10 w1
              (no_transactions_later address w w1 S1 Hno (history w1))) as [w2 E2].
  destruct (total_getTokenBalances address w2) as (tokens & w3 & E3).
  destruct (total_getENSName address w3) as (ensName & w4 & E4).
  exists ensName, tokens, w4.
  rewrite Start. unfold bind at 1. rewrite E2.
  unfold bind at 1. rewrite E3.
  unfold bind at 1. rewrite E4.
  replace (Js.gt_zero (Js.field (JArr []) "length")) with false
    by (vm_compute; reflexivity).
  reflexivity.
Qed.

Lemma report_fields : forall fields ensName transactions tokens firstTx,
  let report :=
    JObj (fold_left (fun acc kv => Js.put acc (fst kv) (snd kv))
            [("ensName", ensName); ("transactions", transactions);
             ("tokens", tokens); ("firstTx", firstTx)] fields) in
  Js.field report "transactions" = transactions /\ Js.field report "firstTx" = firstTx.
Proof.
  intros fields ensName transactions tokens firstTx. cbn [fold_left fst snd Js.field].
  split.
  - rewrite !lookup_put_other by discriminate. now rewrite lookup_put_same.
  - now rewrite lookup_put_same.
Qed.

Lemma chain_state_answers_started : forall address w,
  chain_state_answers address w ->
  chain_state_answers address (analysis_started address w).
Proof. intros address w H. exact H. Qed.

End WalletAnalysis.

(** C3.  When the indexer has no transactions for the address (the lookup
    fails in transport, or its envelope does not carry the status 1, or
    carries an empty list), [getRecentTransactions] returns the empty array
    in each case and never throws; [analyzeWallet] then ends as [getWalletInfo] does: it throws only
    the error of the provider's lookups, and otherwise returns a report whose
    transactions are the empty array and whose first activity is null.  With
    the provider answering, it does return a report. *)
Theorem analyzeWallet_survives_indexer_failure : forall address w,
  no_transactions address w ->
  (exists w', getRecentTransactions address 10 w = (Ok (JArr []), w')) /\
  match fst (analyzeWallet address w) with
  | Ok report =>
      Js.field report "transactions" = JArr [] /\ Js.field report "firstTx" = JNull
  | Throw e => fst (getWalletInfo address (analysis_started address w)) = Throw e
  end /\
  (chain_state_answers address w ->
   exists report w',
     analyzeWallet address w = (Ok report, w') /\
     Js.field report "transactions" = JArr [] /\ Js.field report "firstTx" = JNull).
Proof.
  intros address w Hno. split; [|split].
  - apply getRecentTransactions_empty. apply Hno.
  - destruct (getWalletInfo address (analysis_started address w)) as [r w1] eqn:E.
    pose proof (analyzeWallet_outcome address w r w1 Hno E) as O.
    destruct r as [walletInfo|e].
    + destruct O as (ensName & tokens & w' & O). rewrite O. apply report_fields.
    + rewrite O. reflexivity.
  - intros Hc. apply chain_state_answers_started in Hc.
    destruct (getWalletInfo_connected address _ Hc) as (z & n & b & w1 & _ & E & _).
    pose proof (analyzeWallet_outcome address w _ w1 Hno E) as O.
    destruct O as (ensName & tokens & w' & O). rewrite O.
    eexists. eexists. split; [reflexivity|]. apply report_fields.
Qed.

Lemma analyzeWallet_survives_indexer_failure_witness :
  exists report w',
    analyzeWallet sample_address (world_of connected_service plain_account) = (Ok report, w') /\
    Js.field report "transactions" = JArr [] /\ Js.field report "firstTx" = JNull.
Proof.
  apply (analyzeWallet_survives_indexer_failure sample_address
           (world_of connected_service plain_account)).
  - intros h. apply soft_failure. vm_compute. discriminate.
  - exists {| rpc_url := alchemyUrl fresh_service |}.
    split; [reflexivity|]. repeat split.
    + intros h. exists 1500000000000000000. split; [reflexivity|]. split; [lia|].
      vm_compute. reflexivity.
    + intros h. now exists 5.
    + intros h. now exists 19000000.
Defined.

(* ================================================================== *)
(** * The prompt formatter *)

Section Purity.

Lemma pure_ret : forall (A : Type) (a : A), pure (ret a).
Proof. intros A a. now exists (Ok a). Qed.

Lemma pure_throw : forall (A : Type) e, pure (@throw A e).
Proof. intros A e. now exists (Throw e). Qed.

Lemma pure_lift : forall (A : Type) (x : Result A), pure (lift x).
Proof. intros A x. now exists x. Qed.

Lemma pure_get : forall v k, pure (get v k).
Proof. intros v k. apply pure_lift. Qed.

Lemma pure_bind : forall (A B : Type) (c : M A) (k : A -> M B),
  pure c -> (forall a, pure (k a)) -> pure (bind c k).
Proof.
  intros A B c k [rc Hc] Hk. destruct rc as [a|e].
  - destruct (Hk a) as [rk Hrk]. exists rk. intros w.
    unfold bind. now rewrite Hc, Hrk.
  - exists (Throw e). intros w. unfold bind. now rewrite Hc.
Qed.

Lemma pure_array_items : forall v method, pure (array_items v method).
Proof.
  intros v method. destruct v; first [apply pure_ret | apply pure_throw].
Qed.

Lemma pure_map_m : forall (A B : Type) (f : A -> M B) items,
  (forall x, pure (f x)) -> pure (map_m f items).
Proof.
  intros A B f items Hf. induction items as [|x rest IH]; simpl.
  - apply pure_ret.
  - apply pure_bind; [apply Hf|]. intros y.
    apply pure_bind; [exact IH|]. intros ys. apply pure_ret.
Qed.

End Purity.

Ltac pure_step :=
  match goal with
  | |- pure (bind _ _) => apply pure_bind
  | |- pure (ret _) => apply pure_ret
  | |- pure (throw _) => apply pure_throw
  | |- pure (lift _) => apply pure_lift
  | |- pure (get _ _) => apply pure_get
  | |- pure (array_items _ _) => apply pure_array_items
  | |- pure (map_m _ _) => apply pure_map_m
  | |- pure (if ?b then _ else _) => destruct b
  | |- forall _, _ => intro
  end.

Section PromptSections.

Lemma pure_token_line : forall token, pure (token_line token).
Proof. intros token. unfold token_line. repeat pure_step. Qed.

Lemma pure_tx_lines : forall txs i, pure (tx_lines i txs).
Proof.
  induction txs as [|tx rest IH]; intros i; simpl.
  - apply pure_ret.
  - repeat first [apply IH | pure_step].
Qed.

Lemma pure_wallet_section : forall data, pure (wallet_section data).
Proof.
  intros data. unfold wallet_section.
  repeat first [apply pure_token_line | apply pure_tx_lines | pure_step].
Qed.

Lemma pure_contract_section : forall data, pure (contract_section data).
Proof. intros data. unfold contract_section. repeat pure_step. Qed.

Lemma pure_nft_section : forall data, pure (nft_section data).
Proof. intros data. unfold nft_section. repeat pure_step. Qed.

Lemma pure_prompt_section : forall data type, pure (prompt_section data type).
Proof.
  intros data type. unfold prompt_section.
  destruct (String.eqb type "wallet"); [apply pure_wallet_section|].
  destruct (String.eqb type "contract"); [apply pure_contract_section|].
  destruct (String.eqb type "nft"); [apply pure_nft_section|]. apply pure_ret.
Qed.

(** The prompt is a function of the data, the type and the rendered
    timestamp, and producing it changes nothing. *)
Lemma generateAIPrompt_run : forall data type,
  exists render : string -> Result string,
    forall w, generateAIPrompt data type w = (render (Date.toISOString (clock w)), w).
Proof.
  intros data type.
  destruct (pure_prompt_section data type) as [[section|e] P].
  - exists (fun timestamp =>
              Ok (prompt_header type timestamp ++ section ++ prompt_footer)).
    intros w. unfold generateAIPrompt, bind, now_iso, ret. now rewrite P.
  - exists (fun _ => Throw e).
    intros w. unfold generateAIPrompt, bind, now_iso, ret. now rewrite P.
Qed.

End PromptSections.

(** C1.  [generateAIPrompt] is deterministic: for every report object and
    analysis mode, two calls that read the same timestamp give the same
    outcome, character for character (the same string, or the same error);
    and a call changes nothing, so the second of two calls in a row sees what
    the first saw. *)
Theorem generateAIPrompt_deterministic : forall data mode w1 w2,
  Date.toISOString (clock w1) = Date.toISOString (clock w2) ->
  fst (generateAIPrompt data (mode_name mode) w1) =
  fst (generateAIPrompt data (mode_name mode) w2) /\
  snd (generateAIPrompt data (mode_name mode) w1) = w1.
Proof.
  intros data mode w1 w2 H.
  destruct (generateAIPrompt_run data (mode_name mode)) as [render R].
  rewrite !R. cbn [fst snd]. now rewrite H.
Qed.

Lemma generateAIPrompt_deterministic_witness :
  fst (generateAIPrompt no_data (mode_name Wallet) (world_of fresh_service unreachable)) =
  fst (generateAIPrompt no_data (mode_name Wallet) (world_of connected_service plain_account)) /\
  snd (generateAIPrompt no_data (mode_name Wallet) (world_of fresh_service unreachable)) =
  world_of fresh_service unreachable.
Proof.
  apply generateAIPrompt_deterministic. reflexivity.
Defined.

(* ================================================================== *)
(** * Numbers: the order behind the sort *)

Section NumberOrder.

Lemma round_half_even_ge : forall num den,
  num / den <= Num.round_half_even num den.
Proof.
  intros num den. unfold Num.round_half_even.
  destruct (2 * (num mod den) <? den); [lia|].
  destruct (den <? 2 * (num mod den)); [lia|].
  destruct (Z.even (num / den)); lia.
Qed.

Lemma round_units_pos : forall p, 0 < p -> 0 < Num.round_units p 1.
Proof.
  intros p Hp. unfold Num.round_units. rewrite Z.div_1_r.
  destruct (p <? 2 ^ 53) eqn:E.
  - pose proof (round_half_even_ge p 1) as G. rewrite Z.div_1_r in G. lia.
  - apply Z.ltb_ge in E. rewrite Z.mul_1_l.
    assert (L : 53 <= Z.log2 p).
    { replace 53 with (Z.log2 (2 ^ 53)) by (now rewrite Z.log2_pow2).
      now apply Z.log2_le_mono. }
    set (shift := Z.log2 p - 52).
    assert (S0 : 0 <= shift) by (unfold shift; lia).
    assert (P2 : 0 < 2 ^ shift) by (apply Z.pow_pos_nonneg; lia).
    assert (Le : 2 ^ shift <= p).
    { transitivity (2 ^ Z.log2 p).
      - apply Z.pow_le_mono_r; unfold shift; lia.
      - apply Z.log2_spec. exact Hp. }
    assert (D : 1 <= p / 2 ^ shift).
    { apply Z.div_le_lower_bound; lia. }
    pose proof (round_half_even_ge p (2 ^ shift)) as G.
    apply Z.mul_pos_pos; lia.
Qed.

Lemma is_pos_pack : forall negative u,
  0 < u -> Num.is_pos (Num.pack negative u) = negb negative.
Proof.
  intros negative u Hu. unfold Num.pack.
  destruct (2 ^ 2098 <=? u); [reflexivity|].
  destruct negative; cbn [Num.is_pos negb].
  - apply Z.ltb_ge. lia.
  - apply Z.ltb_lt. lia.
Qed.

Lemma is_pos_of_units : forall z, Num.is_pos (Num.of_units z) = (0 <? z).
Proof.
  intros z. unfold Num.of_units.
  destruct (Z.eq_dec z 0) as [->|N].
  - vm_compute. reflexivity.
  - rewrite is_pos_pack by (apply round_units_pos; lia).
    destruct (Z.ltb_spec z 0); destruct (Z.ltb_spec 0 z); try reflexivity; lia.
Qed.

(** The sign of a difference is the order of its terms. *)
Lemma is_pos_sub : forall x y,
  x <> Num.NaN -> y <> Num.NaN -> Num.is_pos (Num.sub x y) = Num.ltb y x.
Proof.
  intros x y Hx Hy.
  destruct x as [|a|a]; [now elim Hx| |]; destruct y as [|b|b];
    try (now elim Hy); cbn [Num.sub Num.ltb].
  - destruct a, b; reflexivity.
  - reflexivity.
  - cbn [Num.is_pos]. now rewrite negb_involutive.
  - rewrite is_pos_of_units.
    destruct (Z.ltb_spec 0 (a - b)); destruct (Z.ltb_spec b a); try reflexivity; lia.
Qed.

Lemma ltb_leb : forall x y, Num.ltb x y = true -> Num.leb x y = true.
Proof.
  intros x y. destruct x as [|a|a], y as [|b|b]; cbn; try discriminate; try tauto.
  - destruct a, b; try discriminate; reflexivity.
  - rewrite Z.ltb_lt, Z.leb_le. lia.
Qed.

Lemma not_ltb_leb : forall x y,
  x <> Num.NaN -> y <> Num.NaN -> Num.ltb x y = false -> Num.leb y x = true.
Proof.
  intros x y Hx Hy.
  destruct x as [|a|a]; [now elim Hx| |]; destruct y as [|b|b];
    try (now elim Hy); cbn.
  - destruct a, b; try discriminate; reflexivity.
  - destruct a; try discriminate; reflexivity.
  - destruct b; try discriminate; reflexivity.
  - rewrite Z.ltb_ge, Z.leb_le. lia.
Qed.

Lemma leb_trans : forall x y z,
  Num.leb x y = true -> Num.leb y z = true -> Num.leb x z = true.
Proof.
  intros x y z.
  destruct x as [|a|a], y as [|b|b], z as [|c|c]; cbn; try discriminate;
    try tauto.
  - destruct a, b, c; try discriminate; reflexivity.
  - destruct a, b; try discriminate; reflexivity.
  - destruct a; try discriminate; reflexivity.
  - destruct b, c; try discriminate; reflexivity.
  - destruct b; try discriminate; reflexivity.
  - rewrite !Z.leb_le. lia.
Qed.

End NumberOrder.

(* ================================================================== *)
(** * The sort of the holdings *)

Section SortedHoldings.

Lemma goes_behind : forall x y,
  decimal_balance x <> Num.NaN -> decimal_balance y <> Num.NaN ->
  Num.is_pos (by_balance_desc x y) = Num.ltb (decimal_balance x) (decimal_balance y).
Proof.
  intros x y Hx Hy. unfold by_balance_desc.
  now apply is_pos_sub.
Qed.

Lemma insert_sorted_Forall : forall (P : JsVal -> Prop) compare x l,
  P x -> Forall P l -> Forall P (insert_sorted compare x l).
Proof.
  intros P compare x l Hx. induction l as [|y rest IH]; intros H; simpl.
  - now constructor.
  - inversion H as [|? ? Hy Hrest]; subst.
    destruct (Num.is_pos (compare x y)); constructor; auto.
Qed.

Lemma insert_sorted_length : forall compare x l,
  List.length (insert_sorted compare x l) = S (List.length l).
Proof.
  intros compare x l. induction l as [|y rest IH]; simpl; [reflexivity|].
  destruct (Num.is_pos (compare x y)); simpl; [now rewrite IH | reflexivity].
Qed.

Lemma insert_sorted_descending : forall x l,
  decimal_balance x <> Num.NaN ->
  Forall (fun e => decimal_balance e <> Num.NaN) l ->
  descending l -> descending (insert_sorted by_balance_desc x l).
Proof.
  intros x l Hx. unfold descending.
  induction l as [|y rest IH]; intros Hl Hs; simpl.
  - constructor; constructor.
  - inversion Hl as [|? ? Hy Hrest]; subst.
    inversion Hs as [|? ? Hsrest Hall]; subst.
    rewrite (goes_behind x y Hx Hy).
    destruct (Num.ltb (decimal_balance x) (decimal_balance y)) eqn:E.
    + constructor; [now apply IH|].
      apply insert_sorted_Forall; [now apply ltb_leb | exact Hall].
    + pose proof (not_ltb_leb _ _ Hx Hy E) as Lyx.
      constructor; [exact Hs|]. constructor; [exact Lyx|].
      eapply Forall_impl; [|exact Hall]. intros z Lzy.
      eapply leb_trans; [exact Lzy | exact Lyx].
Qed.

Lemma Array_sort_Forall : forall (P : JsVal -> Prop) compare l,
  Forall P l -> Forall P (Array_sort compare l).
Proof.
  intros P compare l H. induction H as [|x l Hx Hl IH]; simpl.
  - constructor.
  - now apply insert_sorted_Forall.
Qed.

Lemma Array_sort_length : forall compare l,
  List.length (Array_sort compare l) = List.length l.
Proof.
  intros compare l. induction l as [|x l IH]; simpl; [reflexivity|].
  now rewrite insert_sorted_length, IH.
Qed.

Lemma Array_sort_descending : forall l,
  Forall (fun e => decimal_balance e <> Num.NaN) l ->
  descending (Array_sort by_balance_desc l).
Proof.
  intros l H. induction H as [|x l Hx Hl IH]; simpl.
  - constructor.
  - apply insert_sorted_descending; [exact Hx | now apply Array_sort_Forall | exact IH].
Qed.

End SortedHoldings.

(* ================================================================== *)
(** * Digit strings: what the formatters write and [parseFloat] reads *)

Section DigitStrings.

Lemma digit_cases : forall c,
  Str.is_digit c = true ->
  In c ["0"; "1"; "2"; "3"; "4"; "5"; "6"; "7"; "8"; "9"]%char.
Proof.
  intros c. destruct c as [[] [] [] [] [] [] [] []]; vm_compute;
    intros H; try discriminate H; tauto.
Qed.

Lemma pack_not_nan : forall negative u, Num.pack negative u <> Num.NaN.
Proof.
  intros negative u. unfold Num.pack.
  destruct (2 ^ 2098 <=? u); discriminate.
Qed.

Lemma of_ratio_not_nan : forall negative p d, Num.of_ratio negative p d <> Num.NaN.
Proof. intros. apply pack_not_nan. Qed.

(** What [parseFloat] makes of an unsigned literal once its digits are
    read. *)
Lemma parseFloat_of_digits : forall negative s c d t,
  Str.span_digits s = (String c d, t) ->
  Str.starts_with "Infinity" s = false ->
  (if Str.starts_with "Infinity" s then Num.Inf negative
   else
     let (ip, r1) := Str.span_digits s in
     let (fp, r2) :=
       match r1 with
       | String "." r => Str.span_digits r
       | _ => (EmptyString, r1)
       end in
     match ip, fp with
     | EmptyString, EmptyString => Num.NaN
     | _, _ =>
         let m := Str.digits_val (ip ++ fp) in
         let e := Num.exponent_part r2 - Str.len fp in
         if 0 <=? e then Num.of_ratio negative (m * 10 ^ e) 1
         else Num.of_ratio negative m (10 ^ (- e))
     end) <> Num.NaN.
Proof.
  intros negative s c d t E I. rewrite I, E.
  destruct (match t with
            | String "." r => Str.span_digits r
            | _ => (EmptyString, t)
            end) as [fp r2].
  cbv zeta. destruct (0 <=? _); apply of_ratio_not_nan.
Qed.

Lemma span_digits_digit : forall c r,
  Str.is_digit c = true ->
  exists d t, Str.span_digits (String c r) = (String c d, t).
Proof.
  intros c r H. simpl. rewrite H. destruct (Str.span_digits r) as [d t].
  now exists d, t.
Qed.

(** A string that starts with a digit parses to a number. *)
Lemma parseFloat_digit : forall s,
  starts_with_digit s -> Num.parseFloat s <> Num.NaN.
Proof.
  intros s (c & r & -> & H).
  destruct (span_digits_digit c r H) as (d & t & E).
  assert (T : Str.trim_start (String c r) = String c r).
  { apply digit_cases in H. simpl in H.
    repeat (destruct H as [<-|H]; [reflexivity|]). destruct H. }
  assert (I : Str.starts_with "Infinity" (String c r) = false).
  { apply digit_cases in H. simpl in H.
    repeat (destruct H as [<-|H]; [reflexivity|]). destruct H. }
  unfold Num.parseFloat. rewrite T.
  assert (Sg : (match String c r with
                | String "-" r0 => (true, r0)
                | String "+" r0 => (false, r0)
                | _ => (false, String c r)
                end) = (false, String c r)).
  { apply digit_cases in H. simpl in H.
    repeat (destruct H as [<-|H]; [reflexivity|]). destruct H. }
  rewrite Sg. apply (parseFloat_of_digits false (String c r) c d t E I).
Qed.

(** So does one with a minus sign before the digit. *)
Lemma parseFloat_minus_digit : forall s,
  starts_with_digit s -> Num.parseFloat (String "-" s) <> Num.NaN.
Proof.
  intros s (c & r & -> & H).
  destruct (span_digits_digit c r H) as (d & t & E).
  assert (I : Str.starts_with "Infinity" (String c r) = false).
  { apply digit_cases in H. simpl in H.
    repeat (destruct H as [<-|H]; [reflexivity|]). destruct H. }
  unfold Num.parseFloat.
  change (Str.trim_start (String "-" (String c r))) with (String "-" (String c r)).
  cbv iota beta.
  apply (parseFloat_of_digits true (String c r) c d t E I).
Qed.

Lemma digit_string_starts : forall s, digit_string s -> starts_with_digit s.
Proof.
  intros s [N F]. destruct s as [|c r]; [now elim N|].
  inversion F; subst. now exists c, r.
Qed.

Lemma uint_digits : forall d,
  Forall (fun c => Str.is_digit c = true)
    (list_ascii_of_string (NilEmpty.string_of_uint d)).
Proof.
  induction d; simpl; constructor; auto.
Qed.

Lemma of_Z_digit_string : forall z, 0 <= z -> digit_string (Str.of_Z z).
Proof.
  intros z Hz. unfold Str.of_Z. destruct z as [|p|p]; [| |lia].
  - split; [discriminate|]. repeat constructor.
  - cbn [Z.to_int].
    pose proof (DecimalPos.Unsigned.to_uint_nonnil p) as N.
    destruct (Pos.to_uint p); [now elim N | | | | | | | | | |];
      (split; [discriminate
              | simpl; constructor; [reflexivity | apply uint_digits]]).
Qed.

Lemma nzhead_not_D0 : forall d x, Decimal.nzhead d <> Decimal.D0 x.
Proof.
  induction d; intros x; simpl; try discriminate. apply IHd.
Qed.

(** The decimal rendering of a positive integer starts with a digit that
    is not zero. *)
Lemma of_Z_positive : forall z, 0 < z ->
  exists c r, Str.of_Z z = String c r /\ Str.is_digit c = true /\ c <> "0"%char.
Proof.
  intros z Hz. unfold Str.of_Z. destruct z as [|p|p]; try lia.
  cbn [Z.to_int].
  pose proof (DecimalPos.Unsigned.to_uint_nonnil p) as N.
  pose proof (DecimalPos.Unsigned.to_uint_nonzero p) as NZ.
  assert (U : Decimal.unorm (Pos.to_uint p) = Pos.to_uint p).
  { rewrite <- (DecimalPos.Unsigned.to_of (Pos.to_uint p)).
    rewrite DecimalPos.Unsigned.of_to. reflexivity. }
  destruct (Pos.to_uint p) as [|d|d|d|d|d|d|d|d|d|d] eqn:E;
    [now elim N | | | | | | | | | |];
    try (eexists; eexists; split; [reflexivity | split; [reflexivity | discriminate]]).
  exfalso. rewrite DecimalFacts.unorm_D0 in U. unfold Decimal.unorm in U.
  destruct (Decimal.nzhead d) eqn:Ed; try discriminate U.
  - injection U as <-. now elim NZ.
  - rewrite <- Ed in U. now apply nzhead_not_D0 in U.
Qed.

End DigitStrings.

Section FormattedNumbers.

Let zeros_of (n : nat) : string := String.concat "" (List.repeat "0" n).

Lemma zeros_of_S : forall n, zeros_of (S n) = String "0" (zeros_of n).
Proof. intros n. unfold zeros_of. destruct n; reflexivity. Qed.

Lemma zeros_of_digits : forall n,
  Forall (fun c => Str.is_digit c = true) (list_ascii_of_string (zeros_of n)).
Proof.
  induction n as [|n IH]; [constructor|].
  rewrite zeros_of_S. simpl. now constructor.
Qed.

Lemma zeros_of_length : forall n, String.length (zeros_of n) = n.
Proof.
  induction n as [|n IH]; [reflexivity|]. rewrite zeros_of_S. simpl. now rewrite IH.
Qed.

Lemma pad_zeros_digit_string : forall width s,
  digit_string s -> digit_string (Str.pad_zeros width s).
Proof.
  intros width s [N F]. unfold Str.pad_zeros. fold (zeros_of (width - String.length s)).
  split.
  - destruct (zeros_of (width - String.length s)); [exact N | discriminate].
  - rewrite list_of_append. apply Forall_app. split; [apply zeros_of_digits | exact F].
Qed.

Lemma pad_zeros_length : forall width s,
  (width <= String.length (Str.pad_zeros width s))%nat /\
  (String.length s <= String.length (Str.pad_zeros width s))%nat.
Proof.
  intros width s. unfold Str.pad_zeros. fold (zeros_of (width - String.length s)).
  rewrite length_append, zeros_of_length. lia.
Qed.

Lemma substring_Forall : forall (P : ascii -> Prop) s n m,
  Forall P (list_ascii_of_string s) ->
  Forall P (list_ascii_of_string (String.substring n m s)).
Proof.
  intros P s. induction s as [|c r IH]; intros n m F.
  - destruct n, m; simpl; constructor.
  - inversion F; subst. destruct n as [|n].
    + destruct m as [|m]; simpl; [constructor|]. constructor; auto.
    + simpl. now apply IH.
Qed.

Lemma substring_digit_string : forall s n,
  digit_string s -> (1 <= n)%nat -> digit_string (String.substring 0 n s).
Proof.
  intros s n [N F] Hn. split.
  - destruct s as [|c r]; [now elim N|]. destruct n; [lia|]. discriminate.
  - now apply substring_Forall.
Qed.

Lemma drop_leading_zeros_digit_string : forall s,
  digit_string s -> digit_string (Ethers.drop_leading_zeros s).
Proof.
  induction s as [|c r IH]; intros [N F]; [now elim N|].
  simpl. destruct r as [|c' r']; [now split|].
  destruct (Ascii.eqb c "0"); [|now split].
  apply IH. inversion F; subst. split; [discriminate | assumption].
Qed.

(** What [formatUnits] writes for a positive balance starts with a digit. *)
Lemma fixed_toString_starts_with_digit : forall z d,
  0 < z -> starts_with_digit (Ethers.fixed_toString z d).
Proof.
  intros z d Hz. unfold Ethers.fixed_toString.
  replace (z <? 0) with false by (symmetry; apply Z.ltb_ge; lia).
  replace (Z.abs z) with z by lia.
  pose proof (of_Z_digit_string z (Z.lt_le_incl _ _ Hz)) as D.
  destruct (d =? 0).
  - apply digit_string_starts. exact D.
  - set (padded := Str.pad_zeros (Z.to_nat (d + 1)) (Str.of_Z z)).
    pose proof (pad_zeros_digit_string (Z.to_nat (d + 1)) (Str.of_Z z) D) as DP.
    destruct (pad_zeros_length (Z.to_nat (d + 1)) (Str.of_Z z)) as [L1 L2].
    fold padded in DP, L1, L2.
    assert (L3 : (1 <= String.length (Str.of_Z z))%nat).
    { destruct D as [N _]. destruct (Str.of_Z z); [now elim N | simpl; lia]. }
    assert (I : (1 <= Z.to_nat (Str.len padded - d))%nat).
    { unfold Str.len. lia. }
    pose proof (drop_leading_zeros_digit_string _
                  (substring_digit_string padded _ DP I)) as W.
    apply digit_string_starts in W. destruct W as (c & r & E & Hc).
    cbn [append]. rewrite E. exists c. eexists. split; [reflexivity | exact Hc].
Qed.

Lemma shortest_positive : forall fuel a n k,
  0 <= a -> 1 <= fst (Num.shortest fuel a n k).
Proof.
  induction fuel as [|fuel IH]; intros a n k Ha.
  - simpl. lia.
  - cbn [Num.shortest].
    set (j := n - k).
    set (xnum := if 0 <=? j then a else a * 10 ^ (- j)).
    set (xden := if 0 <=? j then Num.one * 10 ^ j else Num.one).
    assert (One : 0 < Num.one) by (unfold Num.one; apply Z.pow_pos_nonneg; lia).
    assert (Hnum : 0 <= xnum).
    { unfold xnum. destruct (0 <=? j); [exact Ha|].
      apply Z.mul_nonneg_nonneg; [exact Ha | apply Z.pow_nonneg; lia]. }
    assert (Hden : 0 < xden).
    { unfold xden. destruct (Z.leb_spec 0 j); [|exact One].
      apply Z.mul_pos_pos; [exact One | apply Z.pow_pos_nonneg; lia]. }
    assert (Hlo : 0 <= xnum / xden) by (apply Z.div_pos; assumption).
    destruct (0 <? xnum / xden) eqn:Epos.
    + apply Z.ltb_lt in Epos.
      destruct (Num.reads_back a (xnum / xden) j), (Num.reads_back a (xnum / xden + 1) j);
        cbn [andb fst];
        [destruct (2 * (xnum mod xden) <=? xden); lia | lia | lia | now apply IH].
    + destruct (Num.reads_back a (xnum / xden + 1) j); cbn [andb fst];
        [lia | now apply IH].
Qed.

Lemma strip_zeros_rev_last : forall xs c,
  c <> "0"%char -> exists ys, Num.strip_zeros_rev (xs ++ [c])%list = (ys ++ [c])%list.
Proof.
  induction xs as [|x xs IH]; intros c Hc; simpl.
  - apply Ascii.eqb_neq in Hc. rewrite Hc. now exists [].
  - destruct (Ascii.eqb x "0"); [now apply IH|]. now exists (x :: xs).
Qed.

Lemma strip_trailing_zeros_first : forall c r,
  c <> "0"%char -> exists r', Num.strip_trailing_zeros (String c r) = String c r'.
Proof.
  intros c r Hc. unfold Num.strip_trailing_zeros. simpl.
  destruct (strip_zeros_rev_last (rev (list_ascii_of_string r)) c Hc) as [ys E].
  rewrite E, rev_app_distr. simpl. eexists. reflexivity.
Qed.

Lemma slice_first : forall c r n,
  0 < n -> exists rest, Str.slice (String c r) 0 n = String c rest.
Proof.
  intros c r n Hn. unfold Str.slice, Str.rel_index, Str.len.
  cbn [String.length]. rewrite Z.ltb_irrefl.
  replace (n <? 0) with false by (symmetry; apply Z.ltb_ge; lia).
  replace (Z.min 0 (Z.of_nat (S (String.length r)))) with 0 by lia.
  cbn [Z.to_nat]. rewrite Z.sub_0_r.
  destruct (Z.to_nat (Z.min n (Z.of_nat (S (String.length r))))) eqn:E; [lia|].
  simpl. eexists. reflexivity.
Qed.

(** Number-to-string of a positive value starts with a digit. *)
Lemma toString_pos_starts_with_digit : forall a,
  0 <= a -> starts_with_digit (Num.toString_pos a).
Proof.
  intros a Ha. unfold Num.toString_pos.
  pose proof (shortest_positive 17 a (Num.find_exp 800 a 1) 1 Ha) as P.
  destruct (Num.shortest 17 a (Num.find_exp 800 a 1) 1) as [s j]. cbn [fst] in P.
  destruct (of_Z_positive s) as (c & r & E & Hc & Hnz); [lia|].
  rewrite E. destruct (strip_trailing_zeros_first c r Hnz) as [r' E'].
  rewrite E'. cbv zeta.
  set (n := j + Str.len (String c r)). set (k := Str.len (String c r')).
  destruct ((k <=? n) && (n <=? 21)).
  { exists c. eexists. split; [reflexivity | exact Hc]. }
  destruct (0 <? n) eqn:En; cbn [andb].
  { destruct (n <=? 21).
    - apply Z.ltb_lt in En. destruct (slice_first c r' n En) as [rest Es].
      rewrite Es. exists c. eexists. split; [reflexivity | exact Hc].
    - destruct ((-6 <? n) && (n <=? 0)).
      + exists "0"%char. eexists. split; reflexivity.
      + destruct (slice_first c r' 1 ltac:(lia)) as [rest Es].
        destruct (k =? 1).
        * exists c. eexists. split; [reflexivity | exact Hc].
        * rewrite Es. exists c. eexists. split; [reflexivity | exact Hc]. }
  destruct ((-6 <? n) && (n <=? 0)).
  - exists "0"%char. eexists. split; reflexivity.
  - destruct (slice_first c r' 1 ltac:(lia)) as [rest Es].
    destruct (k =? 1).
    + exists c. eexists. split; [reflexivity | exact Hc].
    + rewrite Es. exists c. eexists. split; [reflexivity | exact Hc].
Qed.

(** Whatever [toFixed] writes for a number, [parseFloat] reads a number
    back. *)
Lemma toFixed_parses : forall x,
  x <> Num.NaN -> Num.parseFloat (Num.toFixed x 4) <> Num.NaN.
Proof.
  intros x Hx. destruct x as [|negative|u]; [now elim Hx| |].
  - destruct negative; vm_compute; discriminate.
  - assert (B : exists body, starts_with_digit body /\
                  Num.toFixed (Num.Fin u) 4 = (if u <? 0 then "-" else "") ++ body).
    { unfold Num.toFixed.
      destruct (10 ^ 21 * Num.one <=? Z.abs u).
      - eexists. split; [|reflexivity].
        apply toString_pos_starts_with_digit. lia.
      - cbn [Nat.eqb].
        set (n := (2 * Z.abs u * 10 ^ Z.of_nat 4 + Num.one) / (2 * Num.one)).
        assert (One : 0 < Num.one) by (unfold Num.one; apply Z.pow_pos_nonneg; lia).
        assert (Hn : 0 <= n).
        { unfold n. apply Z.div_pos; [|lia].
          assert (0 <= 2 * Z.abs u * 10 ^ Z.of_nat 4); [|lia].
          apply Z.mul_nonneg_nonneg; [lia | apply Z.pow_nonneg; lia]. }
        set (m := Str.pad_zeros (4 + 1) (Str.of_Z n)).
        pose proof (pad_zeros_digit_string (4 + 1) (Str.of_Z n)
                      (of_Z_digit_string n Hn)) as Dm.
        destruct (pad_zeros_length (4 + 1) (Str.of_Z n)) as [L _].
        fold m in Dm, L.
        eexists. split; [|reflexivity].
        assert (K : (1 <= String.length m - 4)%nat) by lia.
        pose proof (digit_string_starts _ (substring_digit_string m _ Dm K)) as W.
        destruct W as (c & r & E & Hc). rewrite E.
        exists c. eexists. split; [reflexivity | exact Hc]. }
    destruct B as (body & Sb & E). rewrite E.
    destruct (u <? 0).
    + now apply parseFloat_minus_digit.
    + now apply parseFloat_digit.
Qed.

End FormattedNumbers.

(* ================================================================== *)
(** * The token holdings *)

Section TokenHoldings.

Lemma bind_ok_inv : forall (A B : Type) (c : M A) (k : A -> M B) w b w',
  bind c k w = (Ok b, w') ->
  exists a w1, c w = (Ok a, w1) /\ k a w1 = (Ok b, w').
Proof.
  intros A B c k w b w' H. unfold bind in H.
  destruct (c w) as [[a|e] w1]; [|discriminate H]. now exists a, w1.
Qed.

Lemma formatDecimals_bigint : forall z x s,
  Ethers.formatDecimals (JBig z) x = Ok s -> exists d, s = Ethers.fixed_toString z d.
Proof.
  intros z x s H. unfold Ethers.formatDecimals in H.
  destruct (Ethers.getNumber x) as [d|e]; [|discriminate H].
  destruct (80 <? d); [discriminate H|]. cbn [Ethers.getBigInt] in H.
  destruct ((- 2 ^ 511 <=? z) && (z <? 2 ^ 511)); [|discriminate H].
  injection H as <-. now exists d.
Qed.

Lemma formatUnits_bigint : forall z unit s,
  Ethers.formatUnits (JBig z) unit = Ok s -> exists d, s = Ethers.fixed_toString z d.
Proof.
  intros z unit s H. unfold Ethers.formatUnits in H.
  destruct unit as [| |b|x|z0|s0|items|fields|name message].
  - eapply formatDecimals_bigint; exact H.
  - eapply formatDecimals_bigint; exact H.
  - discriminate H.
  - eapply formatDecimals_bigint; exact H.
  - destruct ((- Ethers.max_safe <=? z0) && (z0 <=? Ethers.max_safe));
      [eapply formatDecimals_bigint; exact H | discriminate H].
  - destruct (Ethers.index_of s0 Ethers.unit_names 0);
      [eapply formatDecimals_bigint; exact H | discriminate H].
  - discriminate H.
  - discriminate H.
  - discriminate H.
Qed.

(** The holding that the loop pushes for a positive balance. *)
Lemma pushed_holding_listed : forall token balance formatted,
  0 < balance ->
  Ethers.formatUnits (JBig balance) (Js.field token "decimals") = Ok formatted ->
  listed (JObj (Js.put
                  (Js.put (Js.spread token) "balance"
                     (JStr (Num.toFixed (Num.parseFloat formatted) 4)))
                  "rawBalance" (JStr (Str.of_Z balance)))).
Proof.
  intros token balance formatted Hb Hf. split.
  - exists balance. split; [exact Hb|].
    cbn [Js.field]. now rewrite lookup_put_same.
  - unfold decimal_balance. cbn [Js.field].
    rewrite lookup_put_other by discriminate. rewrite lookup_put_same.
    cbn [Js.toString]. apply toFixed_parses.
    destruct (formatUnits_bigint _ _ _ Hf) as [d ->].
    apply parseFloat_digit. now apply fixed_toString_starts_with_digit.
Qed.

(** One turn of the loop never throws, and pushes at most one holding. *)
Lemma token_balance_step : forall address token acc w,
  exists acc' w',
    token_balance address token acc w = (Ok acc', w') /\
    (acc' = acc \/ exists holding, acc' = (acc ++ [holding])%list /\ listed holding).
Proof.
  intros address token acc w.
  unfold token_balance, try_catch, bind, on_contract, console, ret, lift.
  destruct (provider (service w)) as [p|].
  - destruct (up_balanceOf (upstream w) (history w) (rpc_url p)
                (Js.field token "contractAddress") address) as [balance|e].
    + destruct (0 <? balance) eqn:Pos.
      * destruct (Ethers.formatUnits (JBig balance) (Js.field token "decimals"))
          as [formatted|e] eqn:F.
        -- eexists. eexists. split; [reflexivity|]. right.
           eexists. split; [reflexivity|].
           apply pushed_holding_listed; [now apply Z.ltb_lt | exact F].
        -- eexists. eexists. split; [reflexivity | now left].
      * eexists. eexists. split; [reflexivity | now left].
    + eexists. eexists. split; [reflexivity | now left].
  - eexists. eexists. split; [reflexivity | now left].
Qed.

(** The loop never throws; it pushes at most one holding per token, each
    of them listed. *)
Lemma token_balances_spec : forall address tokens acc w,
  exists pushed w',
    token_balances address tokens acc w = (Ok (acc ++ pushed)%list, w') /\
    (List.length pushed <= List.length tokens)%nat /\
    Forall listed pushed.
Proof.
  intros address tokens. induction tokens as [|token rest IH]; intros acc w.
  - exists [], w. rewrite List.app_nil_r. repeat split; [simpl; lia | constructor].
  - cbn [token_balances]. unfold bind.
    destruct (token_balance_step address token acc w) as (acc1 & w1 & E & Hacc).
    rewrite E.
    destruct (IH acc1 w1) as (pushed & w2 & E2 & L & F). rewrite E2.
    destruct Hacc as [->|(holding & -> & Hh)].
    + exists pushed, w2. repeat split; [simpl; lia | exact F].
    + exists (holding :: pushed), w2. rewrite <- List.app_assoc. simpl.
      repeat split; [lia | now constructor].
Qed.

(** What the body of [getTokenBalances] returns when it does not throw. *)
Lemma sorted_holdings : forall pushed,
  (List.length pushed <= 10)%nat -> Forall listed pushed ->
  let holdings := Array_sort by_balance_desc pushed in
  Forall positive_raw_balance holdings /\ descending holdings /\
  (List.length holdings <= 10)%nat.
Proof.
  intros pushed L F holdings. unfold holdings. repeat split.
  - apply Array_sort_Forall. eapply Forall_impl; [|exact F]. now intros h [H _].
  - apply Array_sort_descending. eapply Forall_impl; [|exact F]. now intros h [_ H].
  - now rewrite Array_sort_length.
Qed.

End TokenHoldings.

(** C2, as the code has it.  For every address and whatever the indexer and
    the token contracts answer, [getTokenBalances] returns a list (it never
    throws) in which every holding has a positive raw balance, which is in
    descending order of decimal balance with equal balances allowed, and
    which has at most 10 entries. *)
Theorem getTokenBalances_holdings : forall address w,
  exists holdings w',
    getTokenBalances address w = (Ok (JArr holdings), w') /\
    Forall positive_raw_balance holdings /\
    descending holdings /\
    (List.length holdings <= 10)%nat.
Proof.
  intros address w.
  assert (Empty : Forall positive_raw_balance [] /\ descending [] /\
                  (@List.length JsVal [] <= 10)%nat).
  { repeat split; [constructor | constructor | simpl; lia]. }
  unfold getTokenBalances, try_catch.
  match goal with
  | |- context [match ?body w with _ => _ end] =>
      destruct (body w) as [[v|e] w1] eqn:B
  end.
  2:{ eexists. eexists. split; [reflexivity | exact Empty]. }
  apply bind_ok_inv in B. destruct B as (svc & w2 & _ & B).
  apply bind_ok_inv in B. destruct B as (data & w3 & _ & B).
  apply bind_ok_inv in B. destruct B as (status & w4 & _ & B).
  destruct (negb (Js.strict_eq_str status "1")).
  - apply bind_ok_inv in B. destruct B as (message & w5 & _ & B).
    apply bind_ok_inv in B. destruct B as (u & w6 & _ & B).
    injection B as <- <-. eexists. eexists. split; [reflexivity | exact Empty].
  - apply bind_ok_inv in B. destruct B as (result & w5 & _ & B).
    apply bind_ok_inv in B. destruct B as (txs & w6 & _ & B).
    apply bind_ok_inv in B. destruct B as (tokenMap & w7 & _ & B).
    apply bind_ok_inv in B. destruct B as (pushed & w8 & T & B).
    injection B as <- <-.
    destruct (token_balances_spec address (firstn 10 (List.map snd tokenMap)) [] w7)
      as (pushed' & w9 & T' & L & F).
    rewrite T' in T. injection T as <- <-. cbn [app] in *.
    eexists. eexists. split; [reflexivity|].
    apply sorted_holdings; [|exact F].
    etransitivity; [exact L|]. apply firstn_le_length.
Qed.

(** C2, as stated, fails: two holdings of one whole token each are both
    listed, so the list is not strictly descending. *)
Lemma getTokenBalances_keeps_equal_balances :
  ~ (forall address w holdings w',
       getTokenBalances address w = (Ok (JArr holdings), w') ->
       strictly_descending holdings).
Proof.
  intros H.
  destruct (getTokenBalances sample_address (world_of connected_service three_tokens))
    as [r w'] eqn:E.
  assert (R : r = fst (getTokenBalances sample_address
                         (world_of connected_service three_tokens)))
    by (now rewrite E).
  vm_compute in R. subst r.
  specialize (H _ _ _ _ E). unfold strictly_descending in H.
  inversion H as [|? ? _ F]; subst. inversion F as [|? ? Lt _]; subst.
  vm_compute in Lt. discriminate Lt.
Qed.

(** A positive raw balance below the display precision is listed too: one
    smallest unit of an 18-decimal token reads 0.0000. *)
Lemma dust_is_listed_as_zero :
  exists a b c,
    fst (getTokenBalances sample_address (world_of connected_service three_tokens)) =
      Ok (JArr [a; b; c]) /\
    Js.field c "rawBalance" = JStr "1" /\ Js.field c "balance" = JStr "0.0000".
Proof.
  match eval vm_compute in
        (fst (getTokenBalances sample_address (world_of connected_service three_tokens)))
  with
  | Ok (JArr [?a; ?b; ?c]) => exists a, b, c
  end.
  split; [vm_compute; reflexivity | split; vm_compute; reflexivity].
Qed.

(* ================================================================== *)
(** * Beyond the claims: the helpers *)

Section EscapeAlgebra.

(** What [escapeHTML] writes for a character: the character itself, or
    the entity of one of the five. *)
Lemma escape_char_shape : forall c,
  (~ In c special_characters /\ escape_char c = String c "") \/
  (c = "&"%char /\ escape_char c = "&amp;") \/
  (c = "<"%char /\ escape_char c = "&lt;") \/
  (c = ">"%char /\ escape_char c = "&gt;") \/
  (c = Str.dquote /\ escape_char c = "&quot;") \/
  (c = "'"%char /\ escape_char c = "&#39;").
Proof.
  intros c. destruct c as [[] [] [] [] [] [] [] []];
    first
      [ left; split;
        [ intros H; repeat (destruct H as [H|H]; [discriminate H|]); exact H
        | reflexivity ]
      | right; left; split; reflexivity
      | right; right; left; split; reflexivity
      | right; right; right; left; split; reflexivity
      | right; right; right; right; left; split; reflexivity
      | right; right; right; right; right; split; reflexivity ].
Qed.

Lemma escapeHTML_cons : forall c s,
  escapeHTML (String c s) = escape_char c ++ escapeHTML s.
Proof.
  intros c s. unfold escapeHTML, Regex.replace_all.
  rewrite replace_go_escape. f_equal.
  destruct s as [|d s]; [reflexivity|]. now rewrite !replace_go_escape.
Qed.

Lemma escapeHTML_length : forall s,
  (String.length s <= String.length (escapeHTML s))%nat.
Proof.
  induction s as [|c s IH]; [simpl; lia|].
  rewrite escapeHTML_cons, length_append.
  destruct (escape_char_shape c) as [[_ E]|[[_ E]|[[_ E]|[[_ E]|[[_ E]|[_ E]]]]]];
    rewrite E; simpl; lia.
Qed.

End EscapeAlgebra.

(** X4.  Escaping distributes over concatenation: the escaped form of two
    pieces of text put together is the two escaped forms put together, so
    markup can be assembled from pieces that are escaped one by one. *)
Theorem escapeHTML_concatenation : forall a b,
  escapeHTML (a ++ b) = escapeHTML a ++ escapeHTML b.
Proof.
  induction a as [|c a IH]; intros b.
  - reflexivity.
  - cbn [append]. rewrite !escapeHTML_cons, IH. now rewrite append_assoc.
Qed.

(** X5.  [escapeHTML] loses nothing: two texts with the same escaped form
    are the same text. *)
Theorem escapeHTML_injective : forall a b,
  escapeHTML a = escapeHTML b -> a = b.
Proof.
  induction a as [|c a IH]; intros b H.
  - destruct b as [|d b]; [reflexivity|]. exfalso.
    rewrite escapeHTML_cons in H.
    destruct (escape_char_shape d) as [[_ E]|[[_ E]|[[_ E]|[[_ E]|[[_ E]|[_ E]]]]]];
      rewrite E in H; discriminate H.
  - destruct b as [|d b].
    + exfalso. rewrite escapeHTML_cons in H.
      destruct (escape_char_shape c) as [[_ E]|[[_ E]|[[_ E]|[[_ E]|[[_ E]|[_ E]]]]]];
        rewrite E in H; discriminate H.
    + rewrite !escapeHTML_cons in H.
      assert (Amp : In "&"%char special_characters) by (left; reflexivity).
      destruct (escape_char_shape c)
        as [[Pc Ec]|[[Pc Ec]|[[Pc Ec]|[[Pc Ec]|[[Pc Ec]|[Pc Ec]]]]]];
      destruct (escape_char_shape d)
        as [[Pd Ed]|[[Pd Ed]|[[Pd Ed]|[[Pd Ed]|[[Pd Ed]|[Pd Ed]]]]]];
        rewrite Ec, Ed in H; cbn [append] in H;
        try discriminate H;
        try (injection H; intros; subst;
             first [now elim Pc | now elim Pd | f_equal; now apply IH]).
Qed.

Lemma escapeHTML_injective_witness : "<b>" = "<b>".
Proof. apply (escapeHTML_injective "<b>" "<b>"). reflexivity. Defined.

(** X6.  [escapeHTML] returns its argument unchanged exactly when the text
    holds none of the five characters of the escape map. *)
Theorem escapeHTML_fixes_plain_text : forall s,
  escapeHTML s = s <-> plain_text s.
Proof.
  intros s. unfold plain_text. split.
  - induction s as [|c s IH]; intros H; [constructor|].
    rewrite escapeHTML_cons in H.
    pose proof (escapeHTML_length s) as L.
    destruct (escape_char_shape c)
      as [[Pc Ec]|[[Pc Ec]|[[Pc Ec]|[[Pc Ec]|[[Pc Ec]|[Pc Ec]]]]]];
      rewrite Ec in H; try subst c; cbn [append] in H;
      try discriminate H; injection H as H;
      try (exfalso; apply (f_equal String.length) in H; simpl in H; lia).
    constructor; [exact Pc | now apply IH].
  - induction s as [|c s IH]; intros H; [reflexivity|].
    simpl in H. inversion H as [|? ? Pc Ps]; subst.
    rewrite escapeHTML_cons, (IH Ps).
    destruct (escape_char_shape c)
      as [[_ Ec]|[[Pd Ec]|[[Pd Ec]|[[Pd Ec]|[[Pd Ec]|[Pd Ec]]]]]];
      [now rewrite Ec| | | | |]; exfalso; apply Pc; subst c; simpl; tauto.
Qed.

Section Substrings.

Lemma substring_length : forall s n m,
  (n + m <= String.length s)%nat -> String.length (String.substring n m s) = m.
Proof.
  induction s as [|c s IH]; intros n m H.
  - simpl in H. assert (n = O) by lia. assert (m = O) by lia. subst. reflexivity.
  - destruct n as [|n].
    + destruct m as [|m]; [reflexivity|]. simpl. f_equal. apply IH. simpl in H. lia.
    + simpl. apply IH. simpl in H. lia.
Qed.

Lemma substring_append_head : forall p q,
  String.substring 0 (String.length p) (p ++ q) = p.
Proof.
  induction p as [|c p IH]; intros q.
  - apply substring_0_0.
  - simpl. now rewrite IH.
Qed.

Lemma substring_append_tail : forall p q,
  String.substring (String.length p) (String.length q) (p ++ q) = q.
Proof.
  induction p as [|c p IH]; intros q.
  - pose proof (substring_append_head q "") as H.
    now rewrite append_empty_r in H.
  - simpl. apply IH.
Qed.

End Substrings.

(** X2.  With at least one character asked for at the end, [shortenAddress]
    never returns more than [startChars + endChars + 3] characters: a string
    that fits the two counts comes back as it is, a longer one is cut to
    exactly that length. *)
Theorem shortenAddress_bounded : forall s startChars endChars,
  Str.len s < 2 ^ 53 -> 0 <= startChars -> 1 <= endChars ->
  startChars + endChars < 2 ^ 53 ->
  exists r,
    shortenAddress (JStr s) startChars endChars = Ok (JStr r) /\
    Str.len r <= startChars + endChars + 3 /\
    (Str.len s <= startChars + endChars -> r = s) /\
    (startChars + endChars < Str.len s -> Str.len r = startChars + endChars + 3).
Proof.
  intros s a b Hs Ha Hb Hab.
  destruct (Z_le_gt_dec (Str.len s) (a + b)) as [Short|Long].
  - exists s. rewrite shortenAddress_short by lia. repeat split; lia.
  - eexists. rewrite shortenAddress_long by lia. split; [reflexivity|].
    assert (L : Str.len (String.substring 0 (Z.to_nat a) s ++ "..." ++
                         String.substring (String.length s - Z.to_nat b) (Z.to_nat b) s)
                = a + b + 3).
    { unfold Str.len in *. rewrite !length_append, !substring_length by lia.
      simpl. lia. }
    repeat split; lia.
Qed.

Lemma shortenAddress_bounded_witness :
  exists r,
    shortenAddress (JStr sample_address) 6 4 = Ok (JStr r) /\
    Str.len r <= 6 + 4 + 3 /\
    (Str.len sample_address <= 6 + 4 -> r = sample_address) /\
    (6 + 4 < Str.len sample_address -> Str.len r = 6 + 4 + 3).
Proof.
  apply (shortenAddress_bounded sample_address 6 4); vm_compute; congruence.
Defined.

(** X3.  Shortening is idempotent (again with at least one character asked
    for at the end): a shortened string is not shortened any further. *)
Theorem shortenAddress_idempotent : forall s startChars endChars r,
  Str.len s < 2 ^ 53 -> 0 <= startChars -> 1 <= endChars ->
  startChars + endChars + 3 < 2 ^ 53 ->
  shortenAddress (JStr s) startChars endChars = Ok (JStr r) ->
  shortenAddress (JStr r) startChars endChars = Ok (JStr r).
Proof.
  intros s a b r Hs Ha Hb Hab E.
  destruct (Z_le_gt_dec (Str.len s) (a + b)) as [Short|Long].
  - pose proof E as E'. rewrite shortenAddress_short in E' by lia.
    injection E' as <-. exact E.
  - rewrite shortenAddress_long in E by lia. injection E as E.
    set (pre := String.substring 0 (Z.to_nat a) s) in *.
    set (suf := String.substring (String.length s - Z.to_nat b) (Z.to_nat b) s) in *.
    change (pre ++ "..." ++ suf = r) in E.
    assert (Lp : String.length pre = Z.to_nat a).
    { unfold pre. apply substring_length. unfold Str.len in *. lia. }
    assert (Ls : String.length suf = Z.to_nat b).
    { unfold suf. apply substring_length. unfold Str.len in *. lia. }
    assert (Lr : String.length r = (Z.to_nat a + 3 + Z.to_nat b)%nat).
    { rewrite <- E, !length_append, Lp, Ls. simpl. lia. }
    rewrite shortenAddress_long by (unfold Str.len; lia).
    assert (A : String.substring 0 (Z.to_nat a) r = pre).
    { rewrite <- E, <- Lp. apply substring_append_head. }
    assert (B : String.substring (String.length r - Z.to_nat b) (Z.to_nat b) r = suf).
    { rewrite <- E, <- append_assoc.
      replace (String.length ((pre ++ "...") ++ suf) - Z.to_nat b)%nat
        with (String.length (pre ++ "...")).
      - rewrite <- Ls. apply substring_append_tail.
      - rewrite !length_append. simpl. lia. }
    rewrite A, B, E. reflexivity.
Qed.

Lemma shortenAddress_idempotent_witness :
  shortenAddress (JStr "0xd8dA...6045") 6 4 = Ok (JStr "0xd8dA...6045").
Proof.
  apply (shortenAddress_idempotent sample_address 6 4 "0xd8dA...6045");
    first [reflexivity | vm_compute; congruence].
Defined.

(** X1.  [isValidAddress] accepts every string of the canonical form: 0x
    and forty hexadecimal characters, of either case and in any mixture (no
    checksum is looked at). *)
Theorem isValidAddress_accepts_canonical : forall s,
  canonical_address s -> isValidAddress s = true.
Proof. intros s H. now apply isValidAddress_iff. Qed.

Lemma isValidAddress_accepts_canonical_witness :
  isValidAddress "0xd8dA6BF26964aF9D7eEd9e03E53415D37aA96045" = true.
Proof.
  apply isValidAddress_accepts_canonical.
  exists "d8dA6BF26964aF9D7eEd9e03E53415D37aA96045".
  split; [reflexivity|]. split; [reflexivity|].
  repeat (apply Forall_cons; [apply in_hex_class; reflexivity|]). apply Forall_nil.
Defined.

(* ================================================================== *)
(** * The stored configuration *)

Section StoredConfiguration.

Lemma getItem_setItem_same : forall storage key value,
  getItem (setItem storage key value) key = Some value.
Proof.
  induction storage as [|[k v] rest IH]; intros key value; simpl.
  - now rewrite String.eqb_refl.
  - destruct (String.eqb k key) eqn:E; simpl.
    + now rewrite String.eqb_refl.
    + rewrite E. apply IH.
Qed.

Lemma getItem_setItem_other : forall storage key value key',
  key' <> key ->
  getItem (setItem storage key value) key' = getItem storage key'.
Proof.
  induction storage as [|[k v] rest IH]; intros key value key' N; simpl.
  - assert (E : String.eqb key key' = false) by (apply String.eqb_neq; congruence).
    now rewrite E.
  - destruct (String.eqb k key) eqn:E; simpl.
    + apply String.eqb_eq in E. subst k.
      assert (E : String.eqb key key' = false) by (apply String.eqb_neq; congruence).
      now rewrite E.
    + destruct (String.eqb k key'); [reflexivity | now apply IH].
Qed.

Lemma append_injective : forall p a b : string, p ++ a = p ++ b -> a = b.
Proof.
  induction p as [|c p IH]; intros a b H; [exact H|].
  simpl in H. injection H as H. now apply IH.
Qed.

Lemma getFromStorage_saveToStorage_same : forall storage key value,
  getFromStorage (saveToStorage storage key value) key = Some (Js.toString value).
Proof. intros. apply getItem_setItem_same. Qed.

Lemma getFromStorage_saveToStorage_other : forall storage key value key',
  key' <> key ->
  getFromStorage (saveToStorage storage key value) key' = getFromStorage storage key'.
Proof.
  intros storage key value key' N. apply getItem_setItem_other.
  intros E. apply N. eapply append_injective. exact E.
Qed.

End StoredConfiguration.



(** X8.  A service constructed after the two keys were saved (neither of
    them empty) has both keys, passes [hasApiKeys], keeps the network that
    was stored before, and has no provider yet. *)
Theorem saved_keys_configure_the_service : forall storage alchemy etherscan,
  alchemy <> "" -> etherscan <> "" ->
  let svc :=
    new_Web3Service
      (saveToStorage (saveToStorage storage "ALCHEMY_API_KEY" (JStr alchemy))
         "ETHERSCAN_API_KEY" (JStr etherscan)) in
  alchemyKey svc = Some alchemy /\
  etherscanKey svc = Some etherscan /\
  Js.truthy (hasApiKeys svc) = true /\
  network svc = network (new_Web3Service storage) /\
  provider svc = None.
Proof.
  intros storage alchemy etherscan Ha He svc.
  assert (A : alchemyKey svc = Some alchemy).
  { unfold svc, new_Web3Service. cbn [alchemyKey].
    rewrite getFromStorage_saveToStorage_other by discriminate.
    apply getFromStorage_saveToStorage_same. }
  assert (E : etherscanKey svc = Some etherscan).
  { unfold svc, new_Web3Service. cbn [etherscanKey].
    apply getFromStorage_saveToStorage_same. }
  split; [exact A|]. split; [exact E|]. split; [|split].
  - unfold hasApiKeys. rewrite A, E. cbn [stored Js.truthy].
    apply String.eqb_neq in Ha. apply String.eqb_neq in He.
    rewrite Ha. cbn [negb Js.truthy]. now rewrite He.
  - unfold svc, new_Web3Service. cbn [network].
    now rewrite !getFromStorage_saveToStorage_other by discriminate.
  - reflexivity.
Qed.

Lemma saved_keys_configure_the_service_witness :
  Js.truthy
    (hasApiKeys
       (new_Web3Service
          (saveToStorage (saveToStorage [] "ALCHEMY_API_KEY" (JStr "alchemy-key"))
             "ETHERSCAN_API_KEY" (JStr "etherscan-key")))) = true.
Proof.
  apply (saved_keys_configure_the_service [] "alchemy-key" "etherscan-key");
    discriminate.
Defined.

(* ================================================================== *)
(** * Initialization and the wallet lookup *)

Ltac history_continues :=
  first [ eexists []; reflexivity
        | eexists [_]; reflexivity
        | eexists [_; _]; reflexivity
        | eexists [_; _; _]; reflexivity
        | eexists [_; _; _; _]; reflexivity
        | eexists [_; _; _; _; _]; reflexivity ].

Ltac wallet_lookup_failed e :=
  destruct e; cbn [Js.get];
  (split; [reflexivity|]; split; [history_continues|];
   intros e' X; injection X as <-;
   split; [ first [ left; eexists; reflexivity | right; eexists; reflexivity ]
          | eexists; eexists; reflexivity ]).

Section Initialization.

(** With usable keys and a failing probe. *)
Lemma initialize_failed_probe : forall w e,
  Js.truthy (hasApiKeys (service w)) = true ->
  up_getNetwork (upstream w) (history w) (alchemyUrl (service w)) = Throw e ->
  initialize w =
  (Throw e,
   {| service := {| provider := Some {| rpc_url := alchemyUrl (service w) |};
                    network := network (service w);
                    alchemyKey := alchemyKey (service w);
                    etherscanKey := etherscanKey (service w) |};
      upstream := upstream w; clock := clock w;
      history := Console "error" [JStr "Failed to initialize Web3 service:"; e]
                 :: Asked (GetNetwork (alchemyUrl (service w))) :: history w |}).
Proof.
  intros [svc up clk h] e K P. cbn [service upstream history] in *.
  unfold initialize, try_catch, bind, this, throw, console, set_provider,
    on_provider, ret.
  cbn [service upstream history clock]. rewrite K.
  cbn -[alchemyUrl]. rewrite P. reflexivity.
Qed.

(** With usable keys and an answering probe. *)
Lemma initialize_connected : forall w net,
  Js.truthy (hasApiKeys (service w)) = true ->
  up_getNetwork (upstream w) (history w) (alchemyUrl (service w)) = Ok net ->
  initialize w =
  (Ok (JBool true),
   {| service := {| provider := Some {| rpc_url := alchemyUrl (service w) |};
                    network := network (service w);
                    alchemyKey := alchemyKey (service w);
                    etherscanKey := etherscanKey (service w) |};
      upstream := upstream w; clock := clock w;
      history :=
        Console "log" [JStr ("✅ Connected to Ethereum " ++ network (service w)); net]
        :: Asked (GetNetwork (alchemyUrl (service w))) :: history w |}).
Proof.
  intros [svc up clk h] net K P. cbn [service upstream history] in *.
  unfold initialize, try_catch, bind, this, throw, console, set_provider,
    on_provider, ret.
  cbn [service upstream history clock]. rewrite K.
  cbn -[alchemyUrl]. rewrite P. reflexivity.
Qed.

(** A run of [getWalletInfo] with a provider in place: the service object
    stays, the balance is the first thing asked, and an error is one of the
    lookups', logged and wrapped. *)
Lemma getWalletInfo_connected_run : forall address w p,
  provider (service w) = Some p ->
  service (snd (getWalletInfo address w)) = service w /\
  (exists later,
     history (snd (getWalletInfo address w)) =
     (later ++ Asked (GetBalance (rpc_url p) address) :: history w)%list) /\
  (forall e', fst (getWalletInfo address w) = Throw e' ->
     wallet_data_error e' /\
     exists e h,
       history (snd (getWalletInfo address w)) =
       Console "error" [JStr "Error fetching wallet info:"; e] :: h).
Proof.
  intros address [svc up clk h] p Hp. cbn [service] in Hp.
  unfold getWalletInfo, try_catch, bind, this, ret, lift, on_provider, console,
    get, throw.
  cbn [service upstream history provider record_event]. rewrite Hp.
  cbn [service upstream history provider record_event]. rewrite Hp.
  destruct (up_getBalance up h (rpc_url p) address) as [z|e].
  - destruct (Ethers.formatEther (JBig z)) as [eth|e].
    + cbn [service upstream history provider record_event]. rewrite Hp.
      destruct (up_getTransactionCount up _ (rpc_url p) address) as [n|e].
      * cbn [service upstream history provider record_event]. rewrite Hp.
        destruct (up_getBlockNumber up _ (rpc_url p)) as [b|e].
        -- split; [reflexivity|]. split; [history_continues|].
           intros e' X. discriminate X.
        -- wallet_lookup_failed e.
      * wallet_lookup_failed e.
    + wallet_lookup_failed e.
  - wallet_lookup_failed e.
Qed.

Lemma getWalletInfo_initialization_failed : forall address w e w1,
  provider (service w) = None ->
  initialize w = (Throw e, w1) ->
  getWalletInfo address w = (Throw e, w1).
Proof.
  intros address w e w1 Hp E. unfold getWalletInfo.
  set (lookups := try_catch _ _).
  unfold bind, this, ret. rewrite Hp, E. reflexivity.
Qed.

Lemma getWalletInfo_after_initialize : forall address w v w1 p,
  provider (service w) = None ->
  initialize w = (Ok v, w1) ->
  provider (service w1) = Some p ->
  getWalletInfo address w = getWalletInfo address w1.
Proof.
  intros address w v w1 p Hp E Hp1. unfold getWalletInfo.
  set (lookups := try_catch _ _).
  unfold bind, this, ret. rewrite Hp, E, Hp1. reflexivity.
Qed.

End Initialization.

(** X9.  When the keys are usable and the network probe fails, [initialize]
    throws the probe's error but has already set the provider, and leaves it
    set: a later [getWalletInfo] finds a provider, does not initialize again
    and goes straight to the balance. *)
Theorem failed_probe_leaves_provider : forall address w e,
  Js.truthy (hasApiKeys (service w)) = true ->
  up_getNetwork (upstream w) (history w) (alchemyUrl (service w)) = Throw e ->
  exists w',
    initialize w = (Throw e, w') /\
    provider (service w') = Some {| rpc_url := alchemyUrl (service w) |} /\
    exists later,
      history (snd (getWalletInfo address w')) =
      (later ++ Asked (GetBalance (alchemyUrl (service w)) address) :: history w')%list.
Proof.
  intros address w e K P. eexists. split; [apply initialize_failed_probe; assumption|].
  split; [reflexivity|].
  apply (getWalletInfo_connected_run address _
           {| rpc_url := alchemyUrl (service w) |}).
  reflexivity.
Qed.

Lemma failed_probe_leaves_provider_witness :
  exists w',
    initialize (world_of fresh_service unreachable) = (Throw network_error, w') /\
    provider (service w') = Some {| rpc_url := alchemyUrl fresh_service |} /\
    exists later,
      history (snd (getWalletInfo sample_address w')) =
      (later ++ Asked (GetBalance (alchemyUrl fresh_service) sample_address)
         :: history w')%list.
Proof.
  apply (failed_probe_leaves_provider sample_address
           (world_of fresh_service unreachable) network_error);
    reflexivity.
Defined.

(** X10.  With a provider in place, whatever [getWalletInfo] throws is the
    wrapped error of one of its lookups: an Error whose message starts with
    "Failed to fetch wallet data: " (or the TypeError of reading the message
    of a thrown undefined or null), and the original error was logged just
    before. *)
Theorem getWalletInfo_wraps_lookup_errors : forall address w p e' w',
  provider (service w) = Some p ->
  getWalletInfo address w = (Throw e', w') ->
  wallet_data_error e' /\
  exists e h, history w' = Console "error" [JStr "Error fetching wallet info:"; e] :: h.
Proof.
  intros address w p e' w' Hp E.
  destruct (getWalletInfo_connected_run address w p Hp) as (_ & _ & H).
  rewrite E in H. apply H. reflexivity.
Qed.

Lemma getWalletInfo_wraps_lookup_errors_witness :
  wallet_data_error (Js.error "Failed to fetch wallet data: network error") /\
  exists e h,
    history (snd (getWalletInfo sample_address (world_of connected_service unreachable))) =
    Console "error" [JStr "Error fetching wallet info:"; e] :: h.
Proof.
  apply (getWalletInfo_wraps_lookup_errors sample_address
           (world_of connected_service unreachable)
           {| rpc_url := alchemyUrl fresh_service |}).
  - reflexivity.
  - vm_compute. reflexivity.
Defined.

(** X11.  Without a provider, an error of [initialize] (the missing keys,
    or the failed probe) leaves [getWalletInfo] as it is: not wrapped, not
    logged a second time, and nothing is asked after it. *)
Theorem getWalletInfo_passes_on_initialization_error : forall address w e w',
  provider (service w) = None ->
  initialize w = (Throw e, w') ->
  getWalletInfo address w = (Throw e, w').
Proof.
  intros address w e w' Hp E.
  now apply getWalletInfo_initialization_failed.
Qed.

Lemma getWalletInfo_passes_on_initialization_error_witness :
  exists w',
    getWalletInfo sample_address (world_of (new_Web3Service []) plain_account) =
    (Throw (Js.error missing_keys_message), w').
Proof.
  eexists.
  apply (getWalletInfo_passes_on_initialization_error sample_address
           (world_of (new_Web3Service []) plain_account)).
  - reflexivity.
  - vm_compute. reflexivity.
Defined.

(** X12.  Without a provider, with usable keys and an answering probe,
    [getWalletInfo] initializes the service on the way: when it ends, however
    it ends, the provider of the configured endpoint is in place, and the
    balance was asked of it right after the probe. *)
Theorem getWalletInfo_initializes_on_first_use : forall address w net,
  provider (service w) = None ->
  Js.truthy (hasApiKeys (service w)) = true ->
  up_getNetwork (upstream w) (history w) (alchemyUrl (service w)) = Ok net ->
  provider (service (snd (getWalletInfo address w))) =
    Some {| rpc_url := alchemyUrl (service w) |} /\
  exists later,
    history (snd (getWalletInfo address w)) =
    (later ++ Asked (GetBalance (alchemyUrl (service w)) address)
       :: Console "log" [JStr ("✅ Connected to Ethereum " ++ network (service w)); net]
       :: Asked (GetNetwork (alchemyUrl (service w))) :: history w)%list.
Proof.
  intros address w net Hp K P.
  pose proof (initialize_connected w net K P) as I.
  rewrite (getWalletInfo_after_initialize address w _ _ _ Hp I eq_refl).
  match goal with
  | |- context [getWalletInfo address ?w1] =>
      destruct (getWalletInfo_connected_run address w1
                  {| rpc_url := alchemyUrl (service w) |} eq_refl) as (S & H & _)
  end.
  split; [now rewrite S | exact H].
Qed.

Lemma getWalletInfo_initializes_on_first_use_witness :
  provider (service (snd (getWalletInfo sample_address
                            (world_of fresh_service plain_account)))) =
    Some {| rpc_url := alchemyUrl fresh_service |}.
Proof.
  apply (getWalletInfo_initializes_on_first_use sample_address
           (world_of fresh_service plain_account)
           (Js.object [("name", JStr "mainnet")]));
    reflexivity.
Defined.

(* ================================================================== *)
(** * The service object is left alone *)

Section ServiceObject.

Lemma service_ret : forall (A : Type) (a : A), keeps_service (ret a).
Proof. intros A a w r w' E. now injection E as _ <-. Qed.

Lemma service_throw : forall (A : Type) e, keeps_service (@throw A e).
Proof. intros A e w r w' E. now injection E as _ <-. Qed.

Lemma service_lift : forall (A : Type) (x : Result A), keeps_service (lift x).
Proof. intros A x w r w' E. now injection E as _ <-. Qed.

Lemma service_this : keeps_service this.
Proof. intros w r w' E. now injection E as _ <-. Qed.

Lemma service_get : forall v k, keeps_service (get v k).
Proof. intros v k. apply service_lift. Qed.

Lemma service_console : forall level args, keeps_service (console level args).
Proof. intros level args w r w' E. now injection E as _ <-. Qed.

Lemma service_on_provider :
  forall (A : Type) method (answer : Upstream -> History -> string -> Result A) request,
    keeps_service (on_provider method answer request).
Proof.
  intros A method answer request w r w' E. unfold on_provider in E.
  destruct (provider (service w)); now injection E as _ <-.
Qed.

Lemma service_on_contract :
  forall (A : Type) (answer : Upstream -> History -> string -> Result A) request,
    keeps_service (on_contract answer request).
Proof.
  intros A answer request w r w' E. unfold on_contract in E.
  destruct (provider (service w)); now injection E as _ <-.
Qed.

Lemma service_fetch_json : forall url, keeps_service (fetch_json url).
Proof. intros url w r w' E. now injection E as _ <-. Qed.

Lemma service_bind : forall (A B : Type) (c : M A) (k : A -> M B),
  keeps_service c -> (forall a, keeps_service (k a)) -> keeps_service (bind c k).
Proof.
  intros A B c k Hc Hk w r w' E. unfold bind in E.
  destruct (c w) as [[a|e] w1] eqn:Ec.
  - rewrite (Hk a _ _ _ E). eapply Hc; exact Ec.
  - injection E as _ <-. eapply Hc; exact Ec.
Qed.

Lemma service_try_catch : forall (A : Type) (body : M A) handler,
  keeps_service body -> (forall e, keeps_service (handler e)) ->
  keeps_service (try_catch body handler).
Proof.
  intros A body handler Hb Hh w r w' E. unfold try_catch in E.
  destruct (body w) as [[a|e] w1] eqn:Eb.
  - injection E as _ <-. eapply Hb; exact Eb.
  - rewrite (Hh e _ _ _ E). eapply Hb; exact Eb.
Qed.

Lemma service_array_items : forall v method, keeps_service (array_items v method).
Proof.
  intros v method. destruct v; first [apply service_ret | apply service_throw].
Qed.

Lemma service_map_m : forall (A B : Type) (f : A -> M B) items,
  (forall x, keeps_service (f x)) -> keeps_service (map_m f items).
Proof.
  intros A B f items Hf. induction items as [|x rest IH]; simpl.
  - apply service_ret.
  - apply service_bind; [apply Hf|]. intros y.
    apply service_bind; [exact IH|]. intros ys. apply service_ret.
Qed.

End ServiceObject.

Ltac service_step :=
  match goal with
  | |- keeps_service (bind _ _) => apply service_bind
  | |- keeps_service (try_catch _ _) => apply service_try_catch
  | |- keeps_service (ret _) => apply service_ret
  | |- keeps_service (throw _) => apply service_throw
  | |- keeps_service (lift _) => apply service_lift
  | |- keeps_service (get _ _) => apply service_get
  | |- keeps_service this => apply service_this
  | |- keeps_service (console _ _) => apply service_console
  | |- keeps_service (on_provider _ _ _) => apply service_on_provider
  | |- keeps_service (on_contract _ _) => apply service_on_contract
  | |- keeps_service (fetch_json _) => apply service_fetch_json
  | |- keeps_service (array_items _ _) => apply service_array_items
  | |- keeps_service (map_m _ _) => apply service_map_m
  | |- keeps_service (if ?b then _ else _) => destruct b
  | |- forall _, _ => intro
  end.

Section Lookups.

Lemma service_format_transaction : forall tx, keeps_service (format_transaction tx).
Proof. intros tx. unfold format_transaction. repeat service_step. Qed.

Lemma service_getRecentTransactions : forall address limit,
  keeps_service (getRecentTransactions address limit).
Proof.
  intros address limit. unfold getRecentTransactions.
  repeat first [apply service_format_transaction | service_step].
Qed.

Lemma service_group_tokens : forall txs tokenMap, keeps_service (group_tokens txs tokenMap).
Proof.
  induction txs as [|tx rest IH]; intros tokenMap; cbn [group_tokens].
  - apply service_ret.
  - repeat first [apply IH | service_step].
Qed.

Lemma service_token_balance : forall address token acc,
  keeps_service (token_balance address token acc).
Proof. intros address token acc. unfold token_balance. repeat service_step. Qed.

Lemma service_token_balances : forall address tokens acc,
  keeps_service (token_balances address tokens acc).
Proof.
  intros address tokens. induction tokens as [|token rest IH]; intros acc;
    cbn [token_balances].
  - apply service_ret.
  - apply service_bind; [apply service_token_balance | intros pushed; apply IH].
Qed.

Lemma service_getTokenBalances : forall address, keeps_service (getTokenBalances address).
Proof.
  intros address. unfold getTokenBalances.
  repeat first [apply service_group_tokens | apply service_token_balances | service_step].
Qed.

Lemma service_getContractInfo : forall address, keeps_service (getContractInfo address).
Proof. intros address. unfold getContractInfo. repeat service_step. Qed.

Lemma service_getNFTInfo : forall address, keeps_service (getNFTInfo address).
Proof. intros address. unfold getNFTInfo. repeat service_step. Qed.

Lemma service_getENSName : forall address, keeps_service (getENSName address).
Proof. intros address. unfold getENSName. repeat service_step. Qed.

End Lookups.

(** X20.  Only [initialize] ever writes to the service object, and only its
    provider: the five lookups that do not initialize leave the whole object
    as it was, however they end, and [initialize] and [getWalletInfo] leave
    the network and the two keys as they were. *)
Theorem lookups_leave_the_service_alone : forall address limit w,
  service (snd (getRecentTransactions address limit w)) = service w /\
  service (snd (getTokenBalances address w)) = service w /\
  service (snd (getContractInfo address w)) = service w /\
  service (snd (getNFTInfo address w)) = service w /\
  service (snd (getENSName address w)) = service w /\
  same_configuration w (snd (initialize w)) /\
  same_configuration w (snd (getWalletInfo address w)).
Proof.
  intros address limit w.
  assert (K : forall (A : Type) (c : M A), keeps_service c -> service (snd (c w)) = service w).
  { intros A c H. destruct (c w) as [r w'] eqn:E. exact (H _ _ _ E). }
  assert (C : forall (A : Type) (c : M A),
            keeps_configuration c -> same_configuration w (snd (c w))).
  { intros A c H. destruct (c w) as [r w'] eqn:E. exact (H _ _ _ E). }
  split; [apply K, service_getRecentTransactions|].
  split; [apply K, service_getTokenBalances|].
  split; [apply K, service_getContractInfo|].
  split; [apply K, service_getNFTInfo|].
  split; [apply K, service_getENSName|].
  split; [apply C, keeps_initialize | apply C, keeps_getWalletInfo].
Qed.

(* ================================================================== *)
(** * The listed transactions *)

Section RecentTransactions.

Lemma format_transaction_formatted : forall tx w item w',
  format_transaction tx w = (Ok item, w') -> w' = w /\ formatted_transaction item.
Proof.
  intros tx w item w' H.
  unfold format_transaction, bind, get, lift, ret in H.
  destruct (Js.get tx "hash") as [hash|]; [|discriminate H].
  destruct (Js.get tx "from") as [from|]; [|discriminate H].
  destruct (Js.get tx "to") as [to|]; [|discriminate H].
  destruct (Js.get tx "value") as [value|]; [|discriminate H].
  destruct (Ethers.formatEther value) as [eth|]; [|discriminate H].
  destruct (Js.get tx "timeStamp") as [timeStamp|]; [|discriminate H].
  destruct (Js.get tx "blockNumber") as [blockNumber|]; [|discriminate H].
  destruct (Js.get tx "isError") as [isError|]; [|discriminate H].
  injection H as <- <-. split; [reflexivity|].
  unfold formatted_transaction. split; [eexists; reflexivity|].
  split; [|split; [eexists; reflexivity | split; eexists; reflexivity]].
  change (Js.truthy (if Js.truthy to then to else JStr "Contract Creation") = true).
  destruct (Js.truthy to) eqn:T; [exact T | reflexivity].
Qed.

Lemma map_format_transaction : forall items w txs w',
  map_m format_transaction items w = (Ok txs, w') ->
  w' = w /\ List.length txs = List.length items /\ Forall formatted_transaction txs.
Proof.
  induction items as [|tx rest IH]; intros w txs w' H.
  - injection H as <- <-. repeat split. constructor.
  - cbn [map_m] in H.
    apply bind_ok_inv in H. destruct H as (item & w1 & E1 & H).
    apply bind_ok_inv in H. destruct H as (items' & w2 & E2 & H).
    injection H as <- <-.
    apply format_transaction_formatted in E1. destruct E1 as [-> F1].
    apply IH in E2. destruct E2 as (-> & L & F).
    repeat split; [simpl; now rewrite L | now constructor].
Qed.

(** What [getRecentTransactions] returns, whatever the indexer does. *)
Lemma getRecentTransactions_listing : forall address limit w,
  exists txs w',
    getRecentTransactions address limit w = (Ok (JArr txs), w') /\
    Forall formatted_transaction txs /\
    (txs = [] \/
     indexer_listed w (txlist_url (service w) address limit) (List.length txs)).
Proof.
  intros address limit w.
  unfold getRecentTransactions, try_catch.
  match goal with
  | |- context [match ?body w with _ => _ end] =>
      destruct (body w) as [[v|e] w1] eqn:B
  end.
  2:{ eexists. eexists. split; [reflexivity|]. split; [constructor | now left]. }
  apply bind_ok_inv in B. destruct B as (svc & w2 & S & B).
  injection S as <- <-.
  apply bind_ok_inv in B. destruct B as (data & w3 & F & B).
  unfold fetch_json in F. injection F as F <-.
  apply bind_ok_inv in B. destruct B as (status & w4 & St & B).
  unfold get, lift in St. injection St as St <-.
  destruct (Js.strict_eq_str status "1") eqn:One; cbn [negb] in B.
  - apply strict_eq_str_true in One. subst status.
    apply bind_ok_inv in B. destruct B as (result & w5 & R & B).
    unfold get, lift in R. injection R as R <-.
    apply bind_ok_inv in B. destruct B as (items & w6 & I & B).
    apply bind_ok_inv in B. destruct B as (txs & w7 & T & B).
    injection B as <- <-.
    assert (X : result = JArr items /\
                w6 = record_event (Asked (Fetch (txlist_url (service w) address limit))) w).
    { destruct result; try discriminate I. now injection I as <- <-. }
    destruct X as [-> ->].
    apply map_format_transaction in T. destruct T as (-> & L & Fm).
    eexists. eexists. split; [reflexivity|]. split; [exact Fm|]. right.
    exists data, items. repeat split; [exact F | exact St | exact R | now symmetry].
  - apply bind_ok_inv in B. destruct B as (message & w5 & _ & B).
    apply bind_ok_inv in B. destruct B as (u & w6 & _ & B).
    injection B as <- <-.
    eexists. eexists. split; [reflexivity|]. split; [constructor | now left].
Qed.

End RecentTransactions.

(** X13.  For every address, limit and indexer, [getRecentTransactions]
    returns an array and never throws.  Every transaction in it is an object
    with a recipient that is not empty (a contract creation is named), a
    value that ends in the unit, a Number as timestamp and a boolean as error
    flag; and there are as many as the indexer listed under the status 1, or
    none at all (one malformed record empties the list). *)
Theorem getRecentTransactions_lists_formatted_transactions : forall address limit w,
  exists txs w',
    getRecentTransactions address limit w = (Ok (JArr txs), w') /\
    Forall formatted_transaction txs /\
    (txs = [] \/
     indexer_listed w (txlist_url (service w) address limit) (List.length txs)).
Proof. exact getRecentTransactions_listing. Qed.

Section DecimalRoundTrip.

Lemma radix_prefix_uint : forall d acc count,
  Num.radix_prefix 10 acc count (NilEmpty.string_of_uint d) =
  (uint_value d acc, (Decimal.nb_digits d + count)%nat, EmptyString).
Proof.
  induction d; intros acc count;
    cbn [NilEmpty.string_of_uint uint_value Decimal.nb_digits];
    [reflexivity | | | | | | | | | |];
    (cbn [Num.radix_prefix];
     match goal with
     | |- context [Num.hex_val ?c] =>
         let v := eval vm_compute in (Num.hex_val c) in
         change (Num.hex_val c) with v
     end;
     cbv iota beta;
     match goal with
     | |- context [?k <? 10] => change (k <? 10) with true
     end;
     cbv iota; rewrite IHd; f_equal; f_equal; lia).
Qed.

Lemma of_uint_acc_value : forall d acc,
  Z.pos (Pos.of_uint_acc d acc) = uint_value d (Z.pos acc).
Proof.
  induction d; intros acc; cbn [Pos.of_uint_acc uint_value];
    [reflexivity | | | | | | | | | |];
    (rewrite IHd; f_equal; lia).
Qed.

Lemma of_uint_value : forall d, Z.of_N (Pos.of_uint d) = uint_value d 0.
Proof.
  induction d; cbn [Pos.of_uint uint_value];
    [reflexivity | exact IHd | | | | | | | | |];
    (cbn [Z.of_N]; rewrite of_uint_acc_value; reflexivity).
Qed.

Lemma all_digits_to_uint : forall p,
  Js.all_digits 10 (NilEmpty.string_of_uint (Pos.to_uint p)) = Some (Z.pos p).
Proof.
  intros p. unfold Js.all_digits. rewrite radix_prefix_uint.
  rewrite <- of_uint_value, DecimalPos.Unsigned.of_to. cbn [Z.of_N].
  pose proof (DecimalPos.Unsigned.to_uint_nonnil p) as N.
  destruct (Pos.to_uint p); [now elim N | | | | | | | | | |]; reflexivity.
Qed.

Lemma trim_unspaced : forall s,
  Forall (fun c => Str.is_space c = false) (list_ascii_of_string s) ->
  Js.trim s = s.
Proof.
  intros s F. unfold Js.trim.
  assert (T : Str.trim_start s = s).
  { destruct s as [|c r]; [reflexivity|]. inversion F as [|? ? Hc _]; subst.
    simpl. now rewrite Hc. }
  rewrite T.
  assert (R : Js.trim_end_rev (rev (list_ascii_of_string s)) =
              rev (list_ascii_of_string s)).
  { apply Forall_rev in F.
    destruct (rev (list_ascii_of_string s)) as [|c r]; [reflexivity|].
    inversion F as [|? ? Hc _]; subst. simpl. now rewrite Hc. }
  rewrite R, rev_involutive. apply string_of_list_ascii_of_string.
Qed.

Lemma digit_not_space : forall c, Str.is_digit c = true -> Str.is_space c = false.
Proof.
  intros c H. apply digit_cases in H. simpl in H.
  repeat (destruct H as [<-|H]; [reflexivity|]). destruct H.
Qed.

Lemma uint_unspaced : forall d,
  Forall (fun c => Str.is_space c = false)
    (list_ascii_of_string (NilEmpty.string_of_uint d)).
Proof.
  intros d. eapply Forall_impl; [|apply uint_digits].
  intros c. apply digit_not_space.
Qed.

(** The digits of a positive integer, and their first. *)
Lemma to_uint_digits : forall p,
  exists c r,
    NilEmpty.string_of_uint (Pos.to_uint p) = String c r /\
    NilZero.string_of_uint (Pos.to_uint p) = String c r /\
    Str.is_digit c = true /\ c <> "0"%char.
Proof.
  intros p.
  destruct (of_Z_positive (Z.pos p) eq_refl) as (c & r & E & Hc & Nz).
  unfold Str.of_Z in E. cbn [Z.to_int NilZero.string_of_int] in E.
  exists c, r. split; [|split; [exact E | split; assumption]].
  pose proof (DecimalPos.Unsigned.to_uint_nonnil p) as N.
  destruct (Pos.to_uint p); [now elim N | | | | | | | | | |]; exact E.
Qed.

(** [BigInt] on the decimal digits of a positive integer. *)
Lemma string_to_bigint_to_uint : forall p,
  Ethers.string_to_bigint (NilEmpty.string_of_uint (Pos.to_uint p)) = Some (Z.pos p).
Proof.
  intros p. unfold Ethers.string_to_bigint.
  rewrite trim_unspaced by apply uint_unspaced.
  pose proof (all_digits_to_uint p) as A.
  destruct (to_uint_digits p) as (c & r & E & _ & Hc & Nz).
  rewrite E in *. apply digit_cases in Hc. simpl in Hc.
  repeat (destruct Hc as [<-|Hc]; [first [now elim Nz | exact A]|]). destruct Hc.
Qed.

(** The decimal string of an integer reads back as that integer. *)
Lemma getBigInt_of_Z : forall z, Ethers.getBigInt (JStr (Str.of_Z z)) = Ok z.
Proof.
  intros z. destruct z as [|p|p].
  - reflexivity.
  - unfold Str.of_Z. cbn [Z.to_int NilZero.string_of_int].
    pose proof (string_to_bigint_to_uint p) as B.
    destruct (to_uint_digits p) as (c & r & E & E2 & Hc & Nz).
    rewrite E2. rewrite E in B. cbn [Ethers.getBigInt].
    apply digit_cases in Hc. simpl in Hc.
    repeat (destruct Hc as [<-|Hc]; [now rewrite B|]). destruct Hc.
  - unfold Str.of_Z. cbn [Z.to_int NilZero.string_of_int].
    pose proof (string_to_bigint_to_uint p) as B.
    destruct (to_uint_digits p) as (c & r & E & E2 & Hc & Nz).
    rewrite E2. rewrite E in B. cbn [Ethers.getBigInt].
    apply digit_cases in Hc. simpl in Hc.
    repeat (destruct Hc as [<-|Hc];
            [cbv iota beta; cbn [Ascii.eqb Bool.eqb]; now rewrite B|]).
    destruct Hc.
Qed.

Lemma formatEther_of_decimal_string : forall z,
  - 2 ^ 511 <= z < 2 ^ 511 ->
  Ethers.formatEther (JStr (Str.of_Z z)) = Ok (Ethers.fixed_toString z 18).
Proof.
  intros z [Lo Hi].
  unfold Ethers.formatEther, Ethers.formatUnits, Ethers.formatDecimals.
  replace (Ethers.getNumber (Num.of_Z 18)) with (@Ok Z 18)
    by (vm_compute; reflexivity).
  cbn [Z.ltb Z.compare Pos.compare Pos.compare_cont].
  rewrite getBigInt_of_Z.
  apply Z.leb_le in Lo. apply Z.ltb_lt in Hi. rewrite Lo, Hi. reflexivity.
Qed.

End DecimalRoundTrip.

(** X14.  A transaction whose value the indexer gives as the decimal string
    of an integer amount (of the smallest unit) is listed with exactly that
    amount in ether: the string is read back as the integer it writes, and
    the amount is rendered with 18 decimal places and no rounding. *)
Theorem format_transaction_reads_decimal_value : forall tx z w,
  is_object tx ->
  Js.field tx "value" = JStr (Str.of_Z z) ->
  - 2 ^ 511 <= z < 2 ^ 511 ->
  exists item,
    format_transaction tx w = (Ok item, w) /\
    Js.field item "value" = JStr (Ethers.fixed_toString z 18 ++ " ETH").
Proof.
  intros tx z w [fields ->] V R.
  unfold format_transaction, bind, get, lift, ret. cbn [Js.get].
  rewrite V, (formatEther_of_decimal_string z R).
  eexists. split; reflexivity.
Qed.

Lemma format_transaction_reads_decimal_value_witness :
  exists item,
    format_transaction (Js.object [("value", JStr (Str.of_Z 1500000000000000000))])
      (world_of fresh_service unreachable) =
      (Ok item, world_of fresh_service unreachable) /\
    Js.field item "value" = JStr (Ethers.fixed_toString 1500000000000000000 18 ++ " ETH").
Proof.
  apply (format_transaction_reads_decimal_value
           (Js.object [("value", JStr (Str.of_Z 1500000000000000000))])
           1500000000000000000).
  - eexists. reflexivity.
  - reflexivity.
  - split; [lia|]. vm_compute. reflexivity.
Defined.

(* ================================================================== *)
(** * Each contract once *)

Section DistinctContracts.

Lemma same_sym : forall x y, Num.same x y = Num.same y x.
Proof.
  intros x y. destruct x as [|a|a], y as [|b|b]; cbn; try reflexivity.
  - destruct a, b; reflexivity.
  - apply Z.eqb_sym.
Qed.

Lemma different_keys_sym : forall a b, different_keys a b -> different_keys b a.
Proof.
  unfold different_keys. intros a b H.
  destruct a, b; cbn in *; try reflexivity; try discriminate H.
  - destruct b0, b; cbn in *; congruence.
  - now rewrite same_sym.
  - now rewrite Z.eqb_sym.
  - now rewrite String.eqb_sym.
Qed.

Lemma ordered_pairs_snoc : forall (A : Type) (R : A -> A -> Prop) l x,
  ForallOrdPairs R l -> Forall (fun a => R a x) l -> ForallOrdPairs R (l ++ [x]).
Proof.
  intros A R l x H. induction H as [|a l Ha Hl IH]; intros F; simpl.
  - constructor; constructor.
  - inversion F as [|? ? Hax Fl]; subst. constructor.
    + apply Forall_app. split; [exact Ha | now constructor].
    + now apply IH.
Qed.

Lemma in_firstn : forall (A : Type) n (l : list A) x, In x (firstn n l) -> In x l.
Proof.
  intros A n. induction n as [|n IH]; intros l x H; [destruct H|].
  destruct l as [|a l]; [destruct H|]. simpl in H.
  destruct H as [<-|H]; [now left | right; now apply IH].
Qed.

Lemma ordered_pairs_firstn : forall (A : Type) (R : A -> A -> Prop) n l,
  ForallOrdPairs R l -> ForallOrdPairs R (firstn n l).
Proof.
  intros A R n. induction n as [|n IH]; intros l H; [constructor|].
  destruct H as [|a l Ha Hl]; simpl; [constructor|].
  constructor; [|now apply IH].
  apply Forall_forall. intros b Hb. rewrite Forall_forall in Ha.
  apply Ha. eapply in_firstn. exact Hb.
Qed.

Lemma ordered_pairs_map : forall (A B : Type) (f : A -> B) (R : B -> B -> Prop) l,
  ForallOrdPairs (fun a b => R (f a) (f b)) l -> ForallOrdPairs R (List.map f l).
Proof.
  intros A B f R l H. induction H as [|a l Ha Hl IH]; simpl; constructor.
  - apply Forall_map. exact Ha.
  - exact IH.
Qed.

Lemma Map_has_false : forall entries key,
  Map_has entries key = false ->
  Forall (fun kv => different_keys (fst kv) key) entries.
Proof.
  intros entries key H. unfold Map_has in H.
  apply Forall_forall. intros kv Hin.
  unfold different_keys. destruct (Js.same_value_zero (fst kv) key) eqn:E; [|reflexivity].
  assert (X : existsb (fun kv => Js.same_value_zero (fst kv) key) entries = true).
  { apply existsb_exists. now exists kv. }
  rewrite X in H. discriminate H.
Qed.

(** The grouping keeps the keys of the map apart, and each token under
    the key of its contract. *)
Lemma group_tokens_entries : forall txs tokenMap w out w',
  group_tokens txs tokenMap w = (Ok out, w') ->
  Forall token_entry tokenMap ->
  ForallOrdPairs (fun a b => different_keys (fst a) (fst b)) tokenMap ->
  Forall token_entry out /\
  ForallOrdPairs (fun a b => different_keys (fst a) (fst b)) out.
Proof.
  induction txs as [|tx rest IH]; intros tokenMap w out w' H F D.
  - injection H as <- <-. now split.
  - cbn [group_tokens] in H.
    apply bind_ok_inv in H. destruct H as (tokenAddress & w1 & _ & H).
    apply bind_ok_inv in H. destruct H as (tokenMap' & w2 & G & H).
    destruct (Map_has tokenMap tokenAddress) eqn:Has.
    + injection G as <- <-. eapply IH; eassumption.
    + apply bind_ok_inv in G. destruct G as (name & w3 & _ & G).
      apply bind_ok_inv in G. destruct G as (symbol & w4 & _ & G).
      apply bind_ok_inv in G. destruct G as (tokenDecimal & w5 & _ & G).
      injection G as <- <-.
      eapply IH; [exact H | |].
      * apply Forall_app. split; [exact F|]. constructor; [|constructor].
        split; [eexists; reflexivity | reflexivity].
      * apply ordered_pairs_snoc; [exact D|].
        apply Map_has_false in Has. exact Has.
Qed.

(** The holding pushed for a token is an object of the same contract. *)
Lemma pushed_holding_contract : forall token balance raw,
  is_object token ->
  let holding :=
    JObj (Js.put (Js.put (Js.spread token) "balance" balance) "rawBalance" raw) in
  is_object holding /\ contract_of holding = contract_of token.
Proof.
  intros token balance raw [fields ->] holding. split; [eexists; reflexivity|].
  unfold holding, contract_of. cbn [Js.field Js.spread].
  now rewrite !lookup_put_other by discriminate.
Qed.

Lemma token_balance_pushes : forall address token acc w,
  is_object token ->
  exists acc' w',
    token_balance address token acc w = (Ok acc', w') /\
    (acc' = acc \/
     exists holding,
       acc' = (acc ++ [holding])%list /\ is_object holding /\
       contract_of holding = contract_of token).
Proof.
  intros address token acc w Ht.
  unfold token_balance, try_catch, bind, on_contract, console, ret, lift.
  destruct (provider (service w)) as [p|].
  - destruct (up_balanceOf (upstream w) (history w) (rpc_url p)
                (Js.field token "contractAddress") address) as [balance|e].
    + destruct (0 <? balance).
      * destruct (Ethers.formatUnits (JBig balance) (Js.field token "decimals"))
          as [formatted|e].
        -- eexists. eexists. split; [reflexivity|]. right.
           eexists. split; [reflexivity|]. now apply pushed_holding_contract.
        -- eexists. eexists. split; [reflexivity | now left].
      * eexists. eexists. split; [reflexivity | now left].
    + eexists. eexists. split; [reflexivity | now left].
  - eexists. eexists. split; [reflexivity | now left].
Qed.

Lemma token_balances_distinct : forall address tokens acc w out w',
  token_balances address tokens acc w = (Ok out, w') ->
  Forall is_object tokens -> distinct_contracts tokens ->
  Forall is_object acc -> distinct_contracts acc ->
  (forall a t, In a acc -> In t tokens -> different_keys (contract_of a) (contract_of t)) ->
  Forall is_object out /\ distinct_contracts out.
Proof.
  intros address tokens. induction tokens as [|token rest IH];
    intros acc w out w' H Ot Dt Oa Da Cross.
  - injection H as <- <-. now split.
  - cbn [token_balances] in H. unfold bind in H.
    inversion Ot as [|? ? Otoken Orest]; subst.
    inversion Dt as [|? ? Dtoken Drest]; subst.
    destruct (token_balance_pushes address token acc w Otoken)
      as (acc1 & w1 & E & Hacc).
    rewrite E in H.
    destruct Hacc as [->|(holding & -> & Oh & Ch)].
    + eapply IH; try eassumption.
      intros a t Ha Ht. apply Cross; [exact Ha | now right].
    + eapply IH; try eassumption.
      * apply Forall_app. split; [exact Oa | now constructor].
      * apply ordered_pairs_snoc; [exact Da|].
        apply Forall_forall. intros a Ha. rewrite Ch.
        apply Cross; [exact Ha | now left].
      * intros a t Ha Ht. apply in_app_or in Ha. destruct Ha as [Ha|[<-|[]]].
        -- apply Cross; [exact Ha | now right].
        -- rewrite Ch. rewrite Forall_forall in Dtoken. now apply Dtoken.
Qed.

Lemma insert_sorted_distinct : forall compare x l,
  Forall (fun a => different_keys (contract_of x) (contract_of a)) l ->
  distinct_contracts l -> distinct_contracts (insert_sorted compare x l).
Proof.
  intros compare x l. unfold distinct_contracts.
  induction l as [|y rest IH]; intros F D; simpl.
  - constructor; constructor.
  - inversion F as [|? ? Fy Frest]; subst. inversion D as [|? ? Dy Drest]; subst.
    destruct (Num.is_pos (compare x y)).
    + constructor; [|now apply IH].
      apply insert_sorted_Forall; [now apply different_keys_sym | exact Dy].
    + constructor; [exact F | exact D].
Qed.

Lemma Array_sort_distinct : forall compare l,
  distinct_contracts l -> distinct_contracts (Array_sort compare l).
Proof.
  intros compare l D. induction D as [|x l Fx Dl IH]; simpl.
  - constructor.
  - apply insert_sorted_distinct; [|exact IH].
    apply Array_sort_Forall. exact Fx.
Qed.

(** What [getTokenBalances] lists: objects, of distinct contracts. *)
Lemma getTokenBalances_objects : forall address w,
  exists holdings w',
    getTokenBalances address w = (Ok (JArr holdings), w') /\
    Forall is_object holdings /\ distinct_contracts holdings.
Proof.
  intros address w.
  assert (Empty : Forall is_object [] /\ distinct_contracts []).
  { split; constructor. }
  unfold getTokenBalances, try_catch.
  match goal with
  | |- context [match ?body w with _ => _ end] =>
      destruct (body w) as [[v|e] w1] eqn:B
  end.
  2:{ eexists. eexists. split; [reflexivity | exact Empty]. }
  apply bind_ok_inv in B. destruct B as (svc & w2 & _ & B).
  apply bind_ok_inv in B. destruct B as (data & w3 & _ & B).
  apply bind_ok_inv in B. destruct B as (status & w4 & _ & B).
  destruct (negb (Js.strict_eq_str status "1")).
  - apply bind_ok_inv in B. destruct B as (message & w5 & _ & B).
    apply bind_ok_inv in B. destruct B as (u & w6 & _ & B).
    injection B as <- <-. eexists. eexists. split; [reflexivity | exact Empty].
  - apply bind_ok_inv in B. destruct B as (result & w5 & _ & B).
    apply bind_ok_inv in B. destruct B as (txs & w6 & _ & B).
    apply bind_ok_inv in B. destruct B as (tokenMap & w7 & G & B).
    apply bind_ok_inv in B. destruct B as (pushed & w8 & T & B).
    injection B as <- <-.
    apply group_tokens_entries in G; [|constructor|constructor].
    destruct G as [Fe De].
    eexists. eexists. split; [reflexivity|].
    assert (Ot : Forall is_object (List.map snd tokenMap)).
    { apply Forall_map. eapply Forall_impl; [|exact Fe]. now intros kv [O _]. }
    assert (Dt : distinct_contracts (List.map snd tokenMap)).
    { unfold distinct_contracts. apply ordered_pairs_map.
      clear - Fe De. induction De as [|a l Ha Hl IH]; [constructor|].
      inversion Fe as [|? ? [_ Ca] Fl]; subst. constructor; [|now apply IH].
      rewrite Forall_forall in *. intros b Hb.
      destruct (Fl b Hb) as [_ Cb]. rewrite Ca, Cb. now apply Ha. }
    apply token_balances_distinct in T.
    + destruct T as [Oo Do].
      split; [now apply Array_sort_Forall | now apply Array_sort_distinct].
    + apply Forall_forall. intros t Ht. rewrite Forall_forall in Ot.
      apply Ot. eapply in_firstn. exact Ht.
    + now apply ordered_pairs_firstn.
    + constructor.
    + constructor.
    + intros a t [].
Qed.

End DistinctContracts.

(** X15.  For every address and whatever the indexer and the token
    contracts answer, no two of the holdings that [getTokenBalances] returns
    are of the same contract: however many transfers of a token the indexer
    lists, the token is queried and listed once. *)
Theorem getTokenBalances_lists_each_contract_once : forall address w,
  exists holdings w',
    getTokenBalances address w = (Ok (JArr holdings), w') /\
    distinct_contracts holdings.
Proof.
  intros address w.
  destruct (getTokenBalances_objects address w) as (holdings & w' & E & _ & D).
  now exists holdings, w'.
Qed.

(* ================================================================== *)
(** * The contract and the collection lookups *)

(** X16.  [getContractInfo] and [getNFTInfo] do not initialize the service:
    while there is no provider, each of them throws the TypeError of calling
    [getCode] on null, after logging it, and asks nothing of the provider or
    the indexer. *)
Theorem contract_lookups_do_not_initialize : forall address w,
  provider (service w) = None ->
  getContractInfo address w =
    (Throw no_provider_error,
     record_event
       (Console "error" [JStr "Error fetching contract info:"; no_provider_error]) w) /\
  getNFTInfo address w =
    (Throw no_provider_error,
     record_event
       (Console "error" [JStr "Error fetching NFT info:"; no_provider_error]) w).
Proof.
  intros address w Hp. split.
  - unfold getContractInfo, try_catch, bind, on_provider, console, throw.
    rewrite Hp. reflexivity.
  - unfold getNFTInfo, try_catch, bind, on_provider, console, throw.
    rewrite Hp. reflexivity.
Qed.

Lemma contract_lookups_do_not_initialize_witness :
  fst (getContractInfo sample_address (world_of fresh_service plain_account)) =
    Throw no_provider_error /\
  fst (getNFTInfo sample_address (world_of fresh_service plain_account)) =
    Throw no_provider_error.
Proof.
  destruct (contract_lookups_do_not_initialize sample_address
              (world_of fresh_service plain_account) eq_refl) as [C N].
  rewrite C, N. split; reflexivity.
Defined.

(** X17.  Whatever [getContractInfo] or [getNFTInfo] throws, it has logged
    just before, under its own heading, and throws unchanged. *)
Theorem contract_lookups_log_what_they_throw : forall address w e w',
  (getContractInfo address w = (Throw e, w') ->
   exists h, history w' = Console "error" [JStr "Error fetching contract info:"; e] :: h) /\
  (getNFTInfo address w = (Throw e, w') ->
   exists h, history w' = Console "error" [JStr "Error fetching NFT info:"; e] :: h).
Proof.
  intros address w e w'. split; intros H.
  - unfold getContractInfo, try_catch in H.
    match type of H with
    | context [match ?body w with _ => _ end] =>
        destruct (body w) as [[v|e0] w1]
    end; [discriminate H|].
    unfold bind, console, throw in H. injection H as <- <-.
    eexists. reflexivity.
  - unfold getNFTInfo, try_catch in H.
    match type of H with
    | context [match ?body w with _ => _ end] =>
        destruct (body w) as [[v|e0] w1]
    end; [discriminate H|].
    unfold bind, console, throw in H. injection H as <- <-.
    eexists. reflexivity.
Qed.

Lemma contract_lookups_log_what_they_throw_witness :
  exists h,
    history (snd (getContractInfo sample_address (world_of connected_service plain_account))) =
    Console "error" [JStr "Error fetching contract info:"; Js.error not_a_contract_message] :: h.
Proof.
  apply (proj1 (contract_lookups_log_what_they_throw sample_address
                  (world_of connected_service plain_account)
                  (Js.error not_a_contract_message) _)).
  vm_compute. reflexivity.
Defined.

Section ContractReport.

(** The object that [getContractInfo] returns. *)
Lemma getContractInfo_fields : forall address w info w',
  getContractInfo address w = (Ok info, w') ->
  is_object info /\
  Js.field info "address" = JStr address /\
  Js.truthy (Js.field info "name") = true /\
  Js.truthy (Js.field info "compiler") = true /\
  Js.field info "abi" <> JStr "Contract source code not verified" /\
  (exists verified, Js.field info "verified" = JBool verified /\
     (verified = false ->
      Js.field info "sourceCode" = JNull \/ Js.field info "sourceCode" = JStr "0x")).
Proof.
  intros address w info w' H.
  unfold getContractInfo, try_catch in H.
  match type of H with
  | context [match ?body w with _ => _ end] =>
      destruct (body w) as [[v|e0] w1] eqn:B
  end.
  2:{ unfold bind, console, throw in H. discriminate H. }
  injection H as -> ->.
  apply bind_ok_inv in B. destruct B as (code & w2 & _ & B).
  destruct (String.eqb code "0x"); [discriminate B|].
  apply bind_ok_inv in B. destruct B as (svc & w3 & _ & B).
  apply bind_ok_inv in B. destruct B as (data & w4 & _ & B).
  apply bind_ok_inv in B. destruct B as (status & w5 & _ & B).
  apply bind_ok_inv in B. destruct B as (unavailable & w6 & _ & B).
  destruct unavailable; [discriminate B|].
  apply bind_ok_inv in B. destruct B as (result & w7 & _ & B).
  apply bind_ok_inv in B. destruct B as (contractData & w8 & _ & B).
  apply bind_ok_inv in B. destruct B as (name & w9 & _ & B).
  apply bind_ok_inv in B. destruct B as (compiler & w10 & _ & B).
  apply bind_ok_inv in B. destruct B as (sourceCode & w11 & _ & B).
  apply bind_ok_inv in B. destruct B as (abi & w12 & _ & B).
  apply bind_ok_inv in B. destruct B as (constructorArguments & w13 & _ & B).
  injection B as <- <-.
  split; [eexists; reflexivity|].
  split; [reflexivity|]. split; [|split; [|split]].
  - change (Js.truthy (or_else name (JStr "Unknown")) = true).
    unfold or_else. destruct (Js.truthy name) eqn:T; [exact T | reflexivity].
  - change (Js.truthy (or_else compiler (JStr "Unknown")) = true).
    unfold or_else. destruct (Js.truthy compiler) eqn:T; [exact T | reflexivity].
  - change ((if negb (Js.strict_eq_str abi "Contract source code not verified")
             then abi else JNull) <> JStr "Contract source code not verified").
    destruct (Js.strict_eq_str abi "Contract source code not verified") eqn:A;
      cbn [negb]; [discriminate|].
    intros ->. discriminate A.
  - eexists. split; [reflexivity|].
    change (negb (Js.strict_eq_str sourceCode "") && negb (Js.strict_eq_str sourceCode "0x")
            = false ->
            or_else sourceCode JNull = JNull \/ or_else sourceCode JNull = JStr "0x").
    intros V. apply andb_false_iff in V. destruct V as [V|V];
      apply negb_false_iff, strict_eq_str_true in V; subst sourceCode;
      [left | right]; reflexivity.
Qed.

End ContractReport.

(** X18.  A report that [getContractInfo] returns carries the address it
    was asked about, a name and a compiler that are never empty (the word
    Unknown stands in), never the indexer's "not verified" notice as its ABI,
    and a boolean [verified] that is false only when the source code is
    missing (null) or is the bare 0x. *)
Theorem getContractInfo_report : forall address w info w',
  getContractInfo address w = (Ok info, w') ->
  Js.field info "address" = JStr address /\
  Js.truthy (Js.field info "name") = true /\
  Js.truthy (Js.field info "compiler") = true /\
  Js.field info "abi" <> JStr "Contract source code not verified" /\
  (exists verified, Js.field info "verified" = JBool verified /\
     (verified = false ->
      Js.field info "sourceCode" = JNull \/ Js.field info "sourceCode" = JStr "0x")).
Proof.
  intros address w info w' H. now apply getContractInfo_fields in H.
Qed.

Lemma getContractInfo_report_witness :
  exists info,
    Js.field info "address" = JStr sample_address /\
    Js.truthy (Js.field info "name") = true /\
    Js.truthy (Js.field info "compiler") = true /\
    Js.field info "abi" <> JStr "Contract source code not verified" /\
    (exists verified, Js.field info "verified" = JBool verified /\
       (verified = false ->
        Js.field info "sourceCode" = JNull \/ Js.field info "sourceCode" = JStr "0x")).
Proof.
  destruct (getContractInfo sample_address (world_of connected_service token_contract))
    as [[info|e] w'] eqn:E; [|vm_compute in E; discriminate E].
  exists info.
  apply (getContractInfo_report sample_address
           (world_of connected_service token_contract) info w').
  exact E.
Defined.

Section NFTReport.

(** One of the three guarded calls of [getNFTInfo]: a string, never an
    error. *)
Lemma guarded_call :
  forall (A : Type) (answer : Upstream -> History -> string -> Result A)
         request (render : A -> string) w,
  exists s w',
    try_catch (x <- on_contract answer request ;; ret (JStr (render x)))
              (fun _ => ret (JStr "Unknown")) w = (Ok (JStr s), w').
Proof.
  intros A answer request render w.
  unfold try_catch, bind, on_contract, ret.
  destruct (provider (service w)) as [p|].
  - destruct (answer (upstream w) (history w) (rpc_url p)) as [x|e];
      eexists; eexists; reflexivity.
  - eexists; eexists; reflexivity.
Qed.

Lemma getNFTInfo_object : forall address w info w',
  getNFTInfo address w = (Ok info, w') -> is_object info.
Proof.
  intros address w info w' H.
  unfold getNFTInfo, try_catch at 1 in H.
  match type of H with
  | context [match ?body w with _ => _ end] =>
      destruct (body w) as [[v|e0] w1] eqn:B
  end.
  2:{ unfold bind, console, throw in H. discriminate H. }
  injection H as -> ->.
  apply bind_ok_inv in B. destruct B as (code & w2 & _ & B).
  destruct (String.eqb code "0x"); [discriminate B|].
  apply bind_ok_inv in B. destruct B as (name & w3 & _ & B).
  apply bind_ok_inv in B. destruct B as (symbol & w4 & _ & B).
  apply bind_ok_inv in B. destruct B as (totalSupply & w5 & _ & B).
  injection B as <- <-. eexists. reflexivity.
Qed.

End NFTReport.

(** X19.  Once the address has code (anything but the bare 0x), [getNFTInfo]
    returns a report whatever the three calls of the collection interface do:
    it never throws, names the type ERC-721 without looking for the
    interface, and gives name, symbol and total supply as strings (the word
    Unknown for a call that failed). *)
Theorem getNFTInfo_reports_any_contract : forall address w p code,
  provider (service w) = Some p ->
  up_getCode (upstream w) (history w) (rpc_url p) address = Ok code ->
  code <> "0x" ->
  exists info w',
    getNFTInfo address w = (Ok info, w') /\
    Js.field info "address" = JStr address /\
    Js.field info "type" = JStr "ERC-721" /\
    is_string (Js.field info "name") /\
    is_string (Js.field info "symbol") /\
    is_string (Js.field info "totalSupply").
Proof.
  intros address w p code Hp Hc Hn. apply String.eqb_neq in Hn.
  unfold getNFTInfo.
  unfold try_catch at 1. unfold bind at 1. unfold on_provider at 1.
  rewrite Hp, Hc, Hn.
  match goal with
  | |- context [bind (try_catch (x <- on_contract ?a ?r ;; ret (JStr (@?f x))) ?h) ?k ?w0] =>
      destruct (guarded_call _ a r f w0) as (name & w1 & E1);
      unfold bind at 1; rewrite E1
  end.
  match goal with
  | |- context [bind (try_catch (x <- on_contract ?a ?r ;; ret (JStr (@?f x))) ?h) ?k ?w0] =>
      destruct (guarded_call _ a r f w0) as (symbol & w2 & E2);
      unfold bind at 1; rewrite E2
  end.
  match goal with
  | |- context [bind (try_catch (x <- on_contract ?a ?r ;; ret (JStr (@?f x))) ?h) ?k ?w0] =>
      destruct (guarded_call _ a r f w0) as (supply & w3 & E3);
      unfold bind at 1; rewrite E3
  end.
  unfold ret. eexists. eexists. split; [reflexivity|].
  split; [reflexivity|]. split; [reflexivity|].
  split; [|split]; eexists; reflexivity.
Qed.

Lemma getNFTInfo_reports_any_contract_witness :
  exists info w',
    getNFTInfo sample_address (world_of connected_service token_contract) = (Ok info, w') /\
    Js.field info "address" = JStr sample_address /\
    Js.field info "type" = JStr "ERC-721" /\
    is_string (Js.field info "name") /\
    is_string (Js.field info "symbol") /\
    is_string (Js.field info "totalSupply").
Proof.
  apply (getNFTInfo_reports_any_contract sample_address
           (world_of connected_service token_contract)
           {| rpc_url := alchemyUrl fresh_service |} "0x6080604052").
  - reflexivity.
  - reflexivity.
  - discriminate.
Defined.

(* ================================================================== *)
(** * The wallet report *)

Section WalletReport.

Lemma is_pos_of_Z : forall n, Num.is_pos (Num.of_Z n) = (0 <? n).
Proof.
  intros n. unfold Num.of_Z, Num.of_ratio.
  destruct (Z.eq_dec n 0) as [->|N]; [vm_compute; reflexivity|].
  rewrite is_pos_pack.
  - destruct (Z.ltb_spec n 0); destruct (Z.ltb_spec 0 n); try reflexivity; lia.
  - apply round_units_pos.
    assert (0 < Num.one) by apply one_positive. nia.
Qed.

Lemma gt_zero_length : forall items,
  items <> [] -> Js.gt_zero (Js.field (JArr items) "length") = true.
Proof.
  intros items N. unfold Js.field. rewrite String.eqb_refl.
  cbn [Js.gt_zero Js.to_number]. rewrite is_pos_of_Z.
  apply Z.ltb_lt. destruct items; [now elim N | simpl; lia].
Qed.

Lemma getENSName_value : forall address w,
  exists ensName w',
    getENSName address w = (Ok ensName, w') /\
    (ensName = JNull \/ exists name, ensName = JStr name).
Proof.
  intros address w.
  unfold getENSName, try_catch, bind, this, ret, on_provider, console.
  destruct (negb (String.eqb (network (service w)) "mainnet")).
  - eexists. eexists. split; [reflexivity | now left].
  - destruct (provider (service w)) as [p|].
    + destruct (up_lookupAddress (upstream w) (history w) (rpc_url p) address)
        as [[name|]|e].
      * eexists. eexists. split; [reflexivity | right; now exists name].
      * eexists. eexists. split; [reflexivity | now left].
      * eexists. eexists. split; [reflexivity | now left].
    + eexists. eexists. split; [reflexivity | now left].
Qed.

Lemma nth_last : forall (A : Type) (l : list A) d,
  nth (List.length l - 1) l d = last l d.
Proof.
  intros A l d. induction l as [|a l IH]; [reflexivity|].
  destruct l as [|b l]; [reflexivity|].
  change (last (a :: b :: l) d) with (last (b :: l) d). rewrite <- IH.
  simpl. now rewrite Nat.sub_0_r.
Qed.

Lemma last_Forall : forall (A : Type) (P : A -> Prop) l d,
  l <> [] -> Forall P l -> P (last l d).
Proof.
  intros A P l d N F. induction F as [|a l Ha Hl IH]; [now elim N|].
  destruct l as [|b l]; [exact Ha|]. apply IH. discriminate.
Qed.

(** The first activity, as the code computes it from the listed
    transactions. *)
Lemma first_activity_run : forall txs w,
  Forall formatted_transaction txs ->
  (if Js.gt_zero (Js.field (JArr txs) "length") then
     oldest <- lift (Js.index (JArr txs) (Js.length_of (JArr txs) - 1)) ;;
     get oldest "timestamp"
   else ret JNull) w = (Ok (first_activity txs), w).
Proof.
  intros txs w F.
  destruct txs as [|tx rest]; [reflexivity|].
  rewrite gt_zero_length by discriminate.
  unfold bind, lift, get, first_activity. cbn [Js.index Js.length_of].
  rewrite nth_last.
  assert (O : formatted_transaction (last (tx :: rest) JUndefined)).
  { apply last_Forall; [discriminate | exact F]. }
  destruct O as [[fields ->] _]. reflexivity.
Qed.

(** What [analyzeWallet] makes of the outcome of [getWalletInfo], whatever
    the indexer and the token contracts do. *)
Lemma analyzeWallet_run : forall address w r w1,
  getWalletInfo address (analysis_started address w) = (r, w1) ->
  match r with
  | Throw e => analyzeWallet address w = (Throw e, w1)
  | Ok walletInfo =>
      exists ensName txs holdings w',
        analyzeWallet address w =
          (Ok (wallet_report walletInfo ensName txs holdings), w') /\
        (ensName = JNull \/ exists name, ensName = JStr name) /\
        Forall formatted_transaction txs /\
        Forall is_object holdings
  end.
Proof.
  intros address w r w1 E.
  assert (Start : forall (k : JsVal -> M JsVal),
             (console "log" [JStr ("Analyzing wallet: " ++ address)] ;;
              walletInfo <- getWalletInfo address ;; k walletInfo) w =
             match r with
             | Ok walletInfo => k walletInfo w1
             | Throw e => (Throw e, w1)
             end).
  { intros k. unfold bind, console. fold (analysis_started address w).
    rewrite E. reflexivity. }
  unfold analyzeWallet.
  destruct r as [walletInfo|e]; [|apply Start].
  destruct (getRecentTransactions_listing address 10 w1) as (txs & w2 & E2 & Ftx & _).
  destruct (getTokenBalances_objects address w2) as (holdings & w3 & E3 & Oh & _).
  destruct (getENSName_value address w3) as (ensName & w4 & E4 & Hens).
  exists ensName, txs, holdings, w4.
  split; [|repeat split; assumption].
  rewrite Start. unfold bind at 1. rewrite E2.
  unfold bind at 1. rewrite E3.
  unfold bind at 1. rewrite E4.
  unfold bind at 1. rewrite (first_activity_run txs w4 Ftx).
  reflexivity.
Qed.

End WalletReport.

(** X21.  [analyzeWallet] fails exactly as [getWalletInfo] fails: whatever
    the indexer, the token contracts and the name lookup do, it throws an
    error if and only if [getWalletInfo] (run after the first log line)
    throws that error, and it returns a report whenever [getWalletInfo]
    returns. *)
Theorem analyzeWallet_fails_only_as_getWalletInfo : forall address w,
  (forall e, fst (analyzeWallet address w) = Throw e <->
             fst (getWalletInfo address (analysis_started address w)) = Throw e) /\
  (forall walletInfo,
     fst (getWalletInfo address (analysis_started address w)) = Ok walletInfo ->
     exists report, fst (analyzeWallet address w) = Ok report).
Proof.
  intros address w.
  destruct (getWalletInfo address (analysis_started address w)) as [r w1] eqn:E.
  pose proof (analyzeWallet_run address w r w1 E) as R. cbn [fst].
  destruct r as [walletInfo|e0].
  - destruct R as (ensName & txs & holdings & w' & R & _). rewrite R. cbn [fst]. split.
    + intros e. split; discriminate.
    + intros walletInfo' _. eexists. reflexivity.
  - rewrite R. cbn [fst]. split.
    + intros e. tauto.
    + intros walletInfo X. discriminate X.
Qed.

Lemma analyzeWallet_fails_only_as_getWalletInfo_witness :
  exists report,
    fst (analyzeWallet sample_address (world_of connected_service plain_account)) =
    Ok report.
Proof.
  destruct (getWalletInfo sample_address
              (analysis_started sample_address
                 (world_of connected_service plain_account)))
    as [[walletInfo|e] w1] eqn:E; [|vm_compute in E; discriminate E].
  apply (proj2 (analyzeWallet_fails_only_as_getWalletInfo sample_address
                  (world_of connected_service plain_account)) walletInfo).
  rewrite E. reflexivity.
Defined.

(** X22.  A report that [analyzeWallet] returns is the object of
    [getWalletInfo] with four fields added or replaced: the listed
    transactions, the listed tokens, the name (null or a string) and the
    first activity, which is the timestamp of the last of the listed
    transactions (at most ten, newest first), null when there is none.
    Every other field reads as in the wallet's object. *)
Theorem analyzeWallet_report : forall address w report w',
  analyzeWallet address w = (Ok report, w') ->
  exists walletInfo txs holdings,
    fst (getWalletInfo address (analysis_started address w)) = Ok walletInfo /\
    Js.field report "transactions" = JArr txs /\
    Forall formatted_transaction txs /\
    Js.field report "tokens" = JArr holdings /\
    Js.field report "firstTx" = first_activity txs /\
    (Js.field report "ensName" = JNull \/
     exists name, Js.field report "ensName" = JStr name) /\
    (forall k, ~ In k ["ensName"; "transactions"; "tokens"; "firstTx"] ->
               Js.field report k = Js.field (JObj (Js.spread walletInfo)) k).
Proof.
  intros address w report w' H.
  destruct (getWalletInfo address (analysis_started address w)) as [r w1] eqn:E.
  pose proof (analyzeWallet_run address w r w1 E) as R.
  destruct r as [walletInfo|e]; [|rewrite R in H; discriminate H].
  destruct R as (ensName & txs & holdings & w2 & R & Hens & Ftx & _).
  rewrite R in H. injection H as <- <-.
  exists walletInfo, txs, holdings. split; [reflexivity|].
  unfold wallet_report. cbn [fold_left fst snd Js.field].
  split; [|split; [exact Ftx|split; [|split; [|split]]]].
  - rewrite !lookup_put_other by discriminate. now rewrite lookup_put_same.
  - rewrite !lookup_put_other by discriminate. now rewrite lookup_put_same.
  - now rewrite lookup_put_same.
  - rewrite !lookup_put_other by discriminate. rewrite lookup_put_same. exact Hens.
  - intros k Hk. rewrite !lookup_put_other; [reflexivity| | | |];
      intros <-; apply Hk; simpl; tauto.
Qed.

Lemma analyzeWallet_report_witness :
  exists walletInfo txs holdings,
    fst (getWalletInfo sample_address
           (analysis_started sample_address
              (world_of connected_service plain_account))) = Ok walletInfo /\
    Js.field
      (match fst (analyzeWallet sample_address (world_of connected_service plain_account))
       with Ok report => report | Throw e => e end) "transactions" = JArr txs /\
    Forall formatted_transaction txs /\
    Js.field
      (match fst (analyzeWallet sample_address (world_of connected_service plain_account))
       with Ok report => report | Throw e => e end) "tokens" = JArr holdings /\
    Js.field
      (match fst (analyzeWallet sample_address (world_of connected_service plain_account))
       with Ok report => report | Throw e => e end) "firstTx" = first_activity txs /\
    (Js.field
       (match fst (analyzeWallet sample_address (world_of connected_service plain_account))
        with Ok report => report | Throw e => e end) "ensName" = JNull \/
     exists name,
       Js.field
         (match fst (analyzeWallet sample_address (world_of connected_service plain_account))
          with Ok report => report | Throw e => e end) "ensName" = JStr name) /\
    (forall k, ~ In k ["ensName"; "transactions"; "tokens"; "firstTx"] ->
       Js.field
         (match fst (analyzeWallet sample_address (world_of connected_service plain_account))
          with Ok report => report | Throw e => e end) k =
       Js.field (JObj (Js.spread walletInfo)) k).
Proof.
  destruct (analyzeWallet sample_address (world_of connected_service plain_account))
    as [[report|e] w'] eqn:E; [|vm_compute in E; discriminate E].
  cbn [fst].
  apply (analyzeWallet_report sample_address
           (world_of connected_service plain_account) report w').
  exact E.
Defined.

(* ================================================================== *)
(** * Every report can be rendered *)

Section Rendering.

Lemma returns_ret : forall (A : Type) (a : A), returns (ret a).
Proof. intros A a. now exists a. Qed.

Lemma returns_bind : forall (A B : Type) (c : M A) (k : A -> M B) a,
  (forall w, c w = (Ok a, w)) -> returns (k a) -> returns (bind c k).
Proof.
  intros A B c k a Hc [b Hk]. exists b. intros w. unfold bind. now rewrite Hc, Hk.
Qed.

Lemma get_of_object : forall v k w,
  is_object v -> get v k w = (Ok (Js.field v k), w).
Proof. intros v k w [fields ->]. reflexivity. Qed.

Lemma returns_get : forall (B : Type) v k (cont : JsVal -> M B),
  is_object v -> returns (cont (Js.field v k)) -> returns (bind (get v k) cont).
Proof.
  intros B v k cont O H. eapply returns_bind; [|exact H].
  intros w. now apply get_of_object.
Qed.

Lemma returns_token_line : forall token, is_object token -> returns (token_line token).
Proof.
  intros token O. unfold token_line.
  repeat (apply returns_get; [exact O|]). apply returns_ret.
Qed.

Lemma returns_map_m : forall (A B : Type) (f : A -> M B) (P : A -> Prop) items,
  (forall x, P x -> returns (f x)) -> Forall P items -> returns (map_m f items).
Proof.
  intros A B f P items Hf F. induction F as [|x rest Hx Hrest IH]; cbn [map_m].
  - apply returns_ret.
  - destruct (Hf x Hx) as [y Hy]. destruct IH as [ys Hys].
    exists (y :: ys). intros w. unfold bind, ret. now rewrite Hy, Hys.
Qed.

Lemma returns_tx_lines : forall txs i, Forall is_object txs -> returns (tx_lines i txs).
Proof.
  intros txs i F. revert i. induction F as [|tx rest O Hrest IH]; intros i; cbn [tx_lines].
  - apply returns_ret.
  - repeat (apply returns_get; [exact O|]).
    destruct (IH (i + 1)) as [lines Hl].
    eapply returns_bind; [exact Hl|]. apply returns_ret.
Qed.

Lemma slice_items_Forall : forall (P : JsVal -> Prop) items start stop,
  Forall P items -> Forall P (slice_items items start stop).
Proof.
  intros P items start stop F. unfold slice_items.
  apply Forall_forall. intros x Hx.
  apply in_firstn in Hx.
  rewrite Forall_forall in F. apply F.
  clear - Hx. revert Hx.
  generalize (Z.to_nat (Str.rel_index (Z.of_nat (List.length items)) start)).
  intros n. revert items. induction n as [|n IH]; intros items H; [exact H|].
  destruct items as [|a items]; [destruct H|]. right. now apply IH.
Qed.

(** The wallet's section is rendered for every object whose tokens and
    transactions are arrays of objects. *)
Lemma returns_wallet_section : forall data holdings txs,
  is_object data ->
  Js.field data "tokens" = JArr holdings ->
  Js.field data "transactions" = JArr txs ->
  Forall is_object holdings -> Forall is_object txs ->
  returns (wallet_section data).
Proof.
  intros data holdings txs O Ft Ftx Oh Otx. unfold wallet_section.
  do 5 (apply returns_get; [exact O|]). rewrite Ft.
  assert (H : returns
                (if Js.truthy (JArr holdings) && Js.gt_zero (Js.field (JArr holdings) "length")
                 then
                   items <- array_items (JArr holdings) "map" ;;
                   lines <- map_m token_line items ;;
                   ret (Str.join "
" lines)
                 else ret "No ERC-20 tokens detected")).
  { destruct (Js.truthy (JArr holdings) && Js.gt_zero (Js.field (JArr holdings) "length"));
      [|apply returns_ret].
    eapply returns_bind; [intros w; reflexivity|].
    destruct (returns_map_m _ _ token_line is_object holdings returns_token_line Oh)
      as [lines Hl].
    eapply returns_bind; [exact Hl|]. apply returns_ret. }
  destruct H as [section Hs]. eapply returns_bind; [exact Hs|].
  apply returns_get; [exact O|]. rewrite Ftx.
  assert (H : returns
                (if Js.truthy (JArr txs) then
                   first <- lift (slice (JArr txs) 0 5) ;;
                   items <- array_items first "map" ;;
                   lines <- tx_lines 0 items ;;
                   ret (Str.join "
" lines)
                 else ret "No recent transactions available")).
  { cbn [Js.truthy slice].
    eapply returns_bind; [intros w; reflexivity|].
    eapply returns_bind; [intros w; reflexivity|].
    destruct (returns_tx_lines (slice_items txs 0 5) 0) as [lines Hl].
    { now apply slice_items_Forall. }
    eapply returns_bind; [exact Hl|]. apply returns_ret. }
  destruct H as [excerpt He]. eapply returns_bind; [exact He|].
  apply returns_ret.
Qed.

Lemma returns_contract_section : forall data,
  is_object data -> returns (contract_section data).
Proof.
  intros data O. unfold contract_section.
  do 3 (apply returns_get; [exact O|]). apply returns_ret.
Qed.

Lemma returns_nft_section : forall data,
  is_object data -> returns (nft_section data).
Proof.
  intros data O. unfold nft_section.
  do 4 (apply returns_get; [exact O|]). apply returns_ret.
Qed.

Lemma returns_generateAIPrompt : forall data type,
  returns (prompt_section data type) ->
  forall w, exists prompt, generateAIPrompt data type w = (Ok prompt, w).
Proof.
  intros data type [section Hs] w.
  unfold generateAIPrompt, bind, now_iso, ret. rewrite Hs. eexists. reflexivity.
Qed.

Lemma getContractInfo_object : forall address w info w',
  getContractInfo address w = (Ok info, w') -> is_object info.
Proof. intros address w info w' H. now apply getContractInfo_fields in H. Qed.

Lemma formatted_objects : forall txs,
  Forall formatted_transaction txs -> Forall is_object txs.
Proof.
  intros txs F. eapply Forall_impl; [|exact F]. now intros tx [O _].
Qed.

(** The section of a report's own mode is rendered. *)
Lemma report_renders : forall mode address w report w',
  produceReport mode address w = (Ok report, w') ->
  returns (prompt_section report (mode_name mode)).
Proof.
  intros mode address w report w' H.
  destruct mode; cbn [produceReport mode_name] in *.
  - change (prompt_section report "wallet") with (wallet_section report).
    destruct (getWalletInfo address (analysis_started address w)) as [r w1] eqn:E.
    pose proof (analyzeWallet_run address w r w1 E) as R.
    destruct r as [walletInfo|e]; [|rewrite R in H; discriminate H].
    destruct R as (ensName & txs & holdings & w2 & R & _ & Ftx & Oh).
    rewrite R in H. injection H as <- <-.
    apply (returns_wallet_section _ holdings txs); [eexists; reflexivity | | | exact Oh | ].
    + unfold wallet_report. cbn [fold_left fst snd Js.field].
      rewrite !lookup_put_other by discriminate. now rewrite lookup_put_same.
    + unfold wallet_report. cbn [fold_left fst snd Js.field].
      rewrite !lookup_put_other by discriminate. now rewrite lookup_put_same.
    + now apply formatted_objects.
  - change (prompt_section report "contract") with (contract_section report).
    apply returns_contract_section.
    unfold analyzeContract, bind, console in H.
    eapply getContractInfo_object. exact H.
  - change (prompt_section report "nft") with (nft_section report).
    apply returns_nft_section.
    unfold analyzeNFT, bind, console in H.
    eapply getNFTInfo_object. exact H.
Qed.

End Rendering.

(** X23.  Every report that an analysis returns can be rendered:
    [generateAIPrompt], given the report of [analyzeWallet],
    [analyzeContract] or [analyzeNFT] and the name of that mode, returns a
    prompt and never throws, at any time and in any world, which it leaves
    as it is. *)
Theorem every_report_renders : forall mode address w report w',
  produceReport mode address w = (Ok report, w') ->
  forall w0, exists prompt,
    generateAIPrompt report (mode_name mode) w0 = (Ok prompt, w0).
Proof.
  intros mode address w report w' H w0.
  apply returns_generateAIPrompt. eapply report_renders. exact H.
Qed.

Lemma every_report_renders_witness :
  exists prompt,
    generateAIPrompt
      (match fst (produceReport Wallet sample_address
                    (world_of connected_service plain_account))
       with Ok report => report | Throw e => e end)
      (mode_name Wallet) (world_of fresh_service unreachable) =
    (Ok prompt, world_of fresh_service unreachable).
Proof.
  destruct (produceReport Wallet sample_address
              (world_of connected_service plain_account))
    as [[report|e] w'] eqn:E; [|vm_compute in E; discriminate E].
  cbn [fst].
  apply (every_report_renders Wallet sample_address
           (world_of connected_service plain_account) report w' E).
Defined.

(* ================================================================== *)
(** * The page: what a click on Analyze shows *)

Section Status.

Lemma same_status_refl : forall p, same_status p p.
Proof. intros p. repeat split. Qed.

Lemma same_status_trans : forall p1 p2 p3,
  same_status p1 p2 -> same_status p2 p3 -> same_status p1 p3.
Proof.
  unfold same_status.
  intros p1 p2 p3 (A1 & A2 & A3 & A4 & A5 & A6 & A7 & A8)
    (B1 & B2 & B3 & B4 & B5 & B6 & B7 & B8).
  repeat split; congruence.
Qed.

Lemma status_ret : forall (A : Type) (a : A), keeps_status (ui_ret a).
Proof. intros A a s r s' E. injection E as _ <-. apply same_status_refl. Qed.

Lemma status_lift : forall (A : Type) (x : Result A), keeps_status (ui_lift x).
Proof. intros A x s r s' E. injection E as _ <-. apply same_status_refl. Qed.

Lemma status_read : forall (A : Type) (f : Page -> A), keeps_status (read_page f).
Proof. intros A f s r s' E. injection E as _ <-. apply same_status_refl. Qed.

Lemma status_await : forall (A : Type) (c : M A), keeps_status (await c).
Proof.
  intros A c s r s' E. unfold await in E.
  destruct (c (snd s)) as [r0 w']. injection E as _ <-. apply same_status_refl.
Qed.

Lemma status_bind : forall (A B : Type) (c : UI A) (k : A -> UI B),
  keeps_status c -> (forall a, keeps_status (k a)) -> keeps_status (ui_bind c k).
Proof.
  intros A B c k Hc Hk s r s' E. unfold ui_bind in E.
  destruct (c s) as [[a|e] s1] eqn:Ec.
  - eapply same_status_trans; [eapply Hc; exact Ec | eapply Hk; exact E].
  - injection E as _ <-. eapply Hc; exact Ec.
Qed.

Lemma status_set_textContent : forall id value,
  id <> "error-message" -> keeps_status (on_page (set_textContent id value)).
Proof.
  intros id value N s r s' E. injection E as _ <-.
  unfold same_status. cbn [fst set_textContent hidden textContent currentData
                             currentAnalysisType input_value intl].
  apply not_eq_sym in N. apply String.eqb_neq in N. rewrite N. repeat split.
Qed.

Lemma status_set_innerHTML : forall id markup,
  keeps_status (on_page (set_innerHTML id markup)).
Proof. intros id markup s r s' E. injection E as _ <-. repeat split. Qed.

Lemma status_set_hidden : forall id h,
  id <> "loading" -> id <> "error" -> id <> "results" ->
  keeps_status (on_page (set_hidden id h)).
Proof.
  intros id h N1 N2 N3 s r s' E. injection E as _ <-.
  unfold same_status. cbn [fst set_hidden hidden textContent currentData
                             currentAnalysisType input_value intl].
  apply not_eq_sym in N1, N2, N3.
  apply String.eqb_neq in N1, N2, N3. rewrite N1, N2, N3. repeat split.
Qed.

End Status.

Ltac status_step :=
  match goal with
  | |- keeps_status (ui_bind _ _) => apply status_bind
  | |- keeps_status (ui_ret _) => apply status_ret
  | |- keeps_status (ui_lift _) => apply status_lift
  | |- keeps_status (read_page _) => apply status_read
  | |- keeps_status (await _) => apply status_await
  | |- keeps_status (on_page (set_textContent _ _)) =>
      apply status_set_textContent; discriminate
  | |- keeps_status (on_page (set_innerHTML _ _)) => apply status_set_innerHTML
  | |- keeps_status (on_page (set_hidden _ _)) =>
      apply status_set_hidden; discriminate
  | |- keeps_status (if ?b then _ else _) => destruct b
  | |- forall _, _ => intro
  end.

Section Displays.




Lemma status_generateAndDisplayPrompt : forall data type,
  keeps_status (generateAndDisplayPrompt data type).
Proof. intros data type. unfold generateAndDisplayPrompt. repeat status_step. Qed.


End Displays.

Section Handlers.









Lemma showError_string : forall message p w,
  showError (JStr message) (p, w) =
  (Ok tt, (set_hidden "error" false
             (set_textContent "error-message" (escapeHTML message) p), w)).
Proof. reflexivity. Qed.


End Handlers.







Section ReportsOnThePage.





End ReportsOnThePage.



Section TokenNames.

Lemma map_result_throws : forall (A B : Type) (f : A -> Result B) items x,
  In x items -> (exists e, f x = Throw e) -> exists e, map_result f items = Throw e.
Proof.
  intros A B f items x Hin [e He]. induction items as [|y rest IH]; [destruct Hin|].
  cbn [map_result]. destruct Hin as [->|Hin].
  - rewrite He. now exists e.
  - destruct (f y) as [b|e']; [|now exists e'].
    destruct (IH Hin) as [e' E]. rewrite E. now exists e'.
Qed.

Lemma token_item_needs_string_name : forall token,
  (forall s, Js.field token "name" <> JStr s) -> exists e, token_item token = Throw e.
Proof.
  intros token N. unfold token_item.
  destruct token; cbn [Js.get]; try (eexists; reflexivity);
    match goal with
    | |- context [escapeHTML_call ?v] =>
        destruct v eqn:E; cbn [escapeHTML_call]; try (eexists; reflexivity)
    end; now elim (N s).
Qed.

End TokenNames.

(** X28.  The wallet's card needs every listed token's name to be a
    string: when a token of the report has a name that is not one (the
    indexer left it out, so it is undefined, or sent a number or null),
    [displayWalletResults] throws, at the latest while it builds the token
    list, [escapeHTML] having no [replace] to call; the token list and the
    cards are then left as they were. *)
Theorem displayWalletResults_needs_string_token_names : forall data tokens token p w,
  Js.field data "tokens" = JArr tokens ->
  In token tokens ->
  (forall s, Js.field token "name" <> JStr s) ->
  exists e p',
    displayWalletResults data (p, w) = (Throw e, (p', w)) /\
    innerHTML p' "token-list" = innerHTML p "token-list" /\
    hidden p' "wallet-results" = hidden p "wallet-results".
Proof.
  intros data tokens token p w Ft Hin N.
  assert (Ne : tokens <> []) by (intros ->; destruct Hin).
  destruct (map_result_throws _ _ token_item tokens token Hin
              (token_item_needs_string_name token N)) as [e Me].
  unfold displayWalletResults.
  unfold ui_bind at 1. unfold read_page at 1. cbn [fst].
  unfold ui_bind at 1. unfold ui_lift at 1.
  destruct (Js.get data "ensName") as [ensName|e0];
    [|eexists; eexists; split; [reflexivity | split; reflexivity]].
  unfold ui_bind at 1.
  assert (Shown : exists r,
            (if Js.truthy ensName then ui_ret ensName
             else ui_lift (shortenAddress_default (Js.field data "address"))) (p, w)
            = (r, (p, w))).
  { destruct (Js.truthy ensName); eexists; reflexivity. }
  destruct Shown as [[shown|e0] Es]; rewrite Es;
    [|eexists; eexists; split; [reflexivity | split; reflexivity]].
  unfold ui_bind at 1. unfold on_page at 1. cbn [fst snd].
  unfold ui_bind at 1. unfold on_page at 1. cbn [fst snd].
  unfold ui_bind at 1. unfold on_page at 1. cbn [fst snd].
  unfold ui_bind at 1.
  match goal with
  | |- context [(if Js.truthy (Js.field data "firstTx") then ?a else ?b) ?s] =>
      assert (First : exists r,
                (if Js.truthy (Js.field data "firstTx") then a else b) s = (r, s))
        by (destruct (Js.truthy (Js.field data "firstTx")); eexists; reflexivity);
      destruct First as [[firstTx|e0] Ef]; rewrite Ef
  end;
    [|eexists; eexists; split; [reflexivity | split; reflexivity]].
  unfold ui_bind at 1. unfold on_page at 1. cbn [fst snd].
  unfold ui_bind at 1.
  rewrite Ft, (gt_zero_length tokens Ne). cbn [Js.truthy andb].
  unfold ui_bind at 1. unfold ui_lift at 1. cbn [items_of].
  unfold ui_bind at 1. unfold ui_lift at 1. rewrite Me.
  eexists. eexists. split; [reflexivity | split; reflexivity].
Qed.

Lemma displayWalletResults_needs_string_token_names_witness :
  exists e p',
    displayWalletResults nameless_token_report
      (page_with sample_address "wallet", world_of connected_service plain_account) =
      (Throw e, (p', world_of connected_service plain_account)) /\
    innerHTML p' "token-list" = innerHTML (page_with sample_address "wallet") "token-list" /\
    hidden p' "wallet-results" = hidden (page_with sample_address "wallet") "wallet-results".
Proof.
  apply (displayWalletResults_needs_string_token_names nameless_token_report
           [Js.object [("name", JNull); ("symbol", JStr "X"); ("balance", JStr "1.0000")]]
           (Js.object [("name", JNull); ("symbol", JStr "X"); ("balance", JStr "1.0000")])).
  - reflexivity.
  - left. reflexivity.
  - intros s H. vm_compute in H. discriminate H.
Defined.

(** X29.  When the service cannot be initialized as the page loads, [init]
    does not throw: the listeners are attached all the same, and the error
    box shows the words Failed to initialize: followed by the error's
    message, as [escapeHTML] renders the whole. *)
Theorem init_shows_initialization_failure : forall p w name message w1,
  initialize (record_event (Console "log" [JStr "🚀 BlockTracker initializing..."]) w) =
    (Throw (JError name message), w1) ->
  init (p, w) =
  (Ok tt,
   (set_hidden "error" false
      (set_textContent "error-message"
         (escapeHTML ("Failed to initialize: " ++ message)) (set_listening p)), w1)).
Proof.
  intros p w name message w1 H.
  unfold init. unfold ui_bind at 1. unfold await at 1, console at 1. cbn [fst snd].
  unfold ui_bind at 1. unfold setupEventListeners, on_page at 1. cbn [fst snd].
  unfold ui_try. unfold ui_bind at 1. unfold await at 1. cbn [fst snd]. rewrite H.
  unfold ui_bind at 1. unfold ui_lift at 1. cbn [Js.get Js.field].
  rewrite String.eqb_refl. cbn [Js.toString]. apply showError_string.
Qed.

Lemma init_shows_initialization_failure_witness :
  exists w1,
    init (page_with "" "wallet", world_of (new_Web3Service []) plain_account) =
    (Ok tt,
     (set_hidden "error" false
        (set_textContent "error-message"
           (escapeHTML ("Failed to initialize: " ++ missing_keys_message))
           (set_listening (page_with "" "wallet"))), w1)).
Proof.
  eexists.
  apply (init_shows_initialization_failure (page_with "" "wallet")
           (world_of (new_Web3Service []) plain_account) "Error").
  vm_compute. reflexivity.
Defined.
